(** * Advance-Clipboard: storage engine, backups and recovery

    A shallow embedding of [src/storage.py], [src/backup_manager.py],
    [src/backup.py] and the recovery wiring of [src/main.py], with the
    properties the specification states about them.

    Conventions.
    - A Python [str] is a Rocq [string] holding its UTF-8 bytes; a lone
      surrogate (which [encode] would replace) has no representation.
    - The SQLite table [clips] is the list of its rows in rowid order.
    - The wall clock is an input: every operation that calls
      [datetime.now()] takes the rendered reading as an argument.
    - A file is its bytes; text is written with the line ending of
      POSIX. Reading decodes UTF-8 and parses JSON as [json.load] does.
      The backup directory exists.
      Integers are unbounded: floats, and the limit Python puts on the
      digits of an integer literal, are outside the embedding.
    - [hashlib.md5], [hashlib.sha256], [json.dumps] and [json.loads] are
      library code; they are written out below so that every definition
      evaluates. *)

From Stdlib Require Import ZArith Ascii String DecimalString DecimalPos DecimalZ List Lia Bool
  Sorting.Sorted Sorting.Permutation Structures.OrderedTypeEx.
From stdpp Require Import base option list strings gmap sorting.

Set Warnings "-register-all".

Open Scope string_scope.
Open Scope list_scope.
Open Scope Z_scope.

(** ** [hashlib]: MD5 (RFC 1321) and SHA-256 (FIPS 180-4) on byte strings *)

Module Hashlib.

Definition mask32 : Z := 4294967295.
Definition add32 (a b : Z) : Z := Z.land (a + b) mask32.
Definition not32 (a : Z) : Z := Z.lxor a mask32.
Definition rotl32 (x n : Z) : Z :=
  Z.land (Z.lor (Z.shiftl x n) (Z.shiftr x (32 - n))) mask32.
Definition rotr32 (x n : Z) : Z := rotl32 x (32 - n).

Definition bytes_of (s : string) : list Z :=
  map (fun c => Z.of_N (N_of_ascii c)) (list_ascii_of_string s).

Definition hex_digit (n : Z) : ascii :=
  ascii_of_N (Z.to_N (if n <? 10 then 48 + n else 87 + n)).

Definition hex_byte (b : Z) : string :=
  String (hex_digit (Z.shiftr b 4)) (String (hex_digit (Z.land b 15)) EmptyString).

Definition hex_of (bs : list Z) : string :=
  fold_right (fun b acc => String.append (hex_byte b) acc) EmptyString bs.

(** [n] bytes of [x], least significant first / most significant first. *)
Fixpoint le_bytes (n : nat) (x : Z) : list Z :=
  match n with
  | O => []
  | S k => Z.land x 255 :: le_bytes k (Z.shiftr x 8)
  end.
Definition be_bytes (n : nat) (x : Z) : list Z := rev (le_bytes n x).

Definition le_word (bs : list Z) : Z :=
  fold_right (fun b acc => b + 256 * acc) 0 bs.
Definition be_word (bs : list Z) : Z := le_word (rev bs).

(** Message padding: 0x80, zeros up to 56 mod 64, then the bit length. *)
Definition pad (len_bytes : nat -> Z -> list Z) (msg : list Z) : list Z :=
  let n := Z.of_nat (length msg) in
  let zeros := Z.to_nat ((55 - n) mod 64) in
  msg ++ 128 :: repeat 0 zeros ++ len_bytes 8%nat (8 * n).

Fixpoint chunks (fuel k : nat) (l : list Z) : list (list Z) :=
  match fuel with
  | O => []
  | S f =>
      match l with
      | [] => []
      | _ => firstn k l :: chunks f k (skipn k l)
      end
  end.

Definition blocks (word : list Z -> Z) (msg : list Z) : list (list Z) :=
  map (fun blk => map word (chunks 16 4 blk)) (chunks (S (length msg)) 64 msg).

Definition md5_K : list Z :=
  [3614090360; 3905402710; 606105819; 3250441966; 4118548399; 1200080426;
   2821735955; 4249261313; 1770035416; 2336552879; 4294925233; 2304563134;
   1804603682; 4254626195; 2792965006; 1236535329; 4129170786; 3225465664;
   643717713; 3921069994; 3593408605; 38016083; 3634488961; 3889429448;
   568446438; 3275163606; 4107603335; 1163531501; 2850285829; 4243563512;
   1735328473; 2368359562; 4294588738; 2272392833; 1839030562; 4259657740;
   2763975236; 1272893353; 4139469664; 3200236656; 681279174; 3936430074;
   3572445317; 76029189; 3654602809; 3873151461; 530742520; 3299628645;
   4096336452; 1126891415; 2878612391; 4237533241; 1700485571; 2399980690;
   4293915773; 2240044497; 1873313359; 4264355552; 2734768916; 1309151649;
   4149444226; 3174756917; 718787259; 3951481745].

Definition md5_S : list Z :=
  [7; 12; 17; 22; 7; 12; 17; 22; 7; 12; 17; 22; 7; 12; 17; 22;
   5; 9; 14; 20; 5; 9; 14; 20; 5; 9; 14; 20; 5; 9; 14; 20;
   4; 11; 16; 23; 4; 11; 16; 23; 4; 11; 16; 23; 4; 11; 16; 23;
   6; 10; 15; 21; 6; 10; 15; 21; 6; 10; 15; 21; 6; 10; 15; 21].

Definition md5_round (M : list Z) (st : Z * Z * Z * Z) (i : nat) : Z * Z * Z * Z :=
  let '(A, B, C, D) := st in
  let iz := Z.of_nat i in
  let '(F, g) :=
    if iz <? 16 then (Z.lor (Z.land B C) (Z.land (not32 B) D), iz)
    else if iz <? 32 then (Z.lor (Z.land D B) (Z.land (not32 D) C), (5 * iz + 1) mod 16)
    else if iz <? 48 then (Z.lxor B (Z.lxor C D), (3 * iz + 5) mod 16)
    else (Z.lxor C (Z.lor B (not32 D)), (7 * iz) mod 16) in
  let F' := add32 (add32 (add32 F A) (nth i md5_K 0)) (nth (Z.to_nat g) M 0) in
  (D, add32 B (rotl32 F' (nth i md5_S 0)), B, C).

Definition md5_block (h : Z * Z * Z * Z) (M : list Z) : Z * Z * Z * Z :=
  let '(a0, b0, c0, d0) := h in
  let '(A, B, C, D) := fold_left (md5_round M) (seq 0 64) h in
  (add32 a0 A, add32 b0 B, add32 c0 C, add32 d0 D).

Definition md5 (msg : list Z) : list Z :=
  let '(a, b, c, d) :=
    fold_left md5_block (blocks le_word (pad le_bytes msg))
      (1732584193, 4023233417, 2562383102, 271733878) in
  le_bytes 4 a ++ le_bytes 4 b ++ le_bytes 4 c ++ le_bytes 4 d.

Definition md5_hexdigest (s : string) : string := hex_of (md5 (bytes_of s)).

Definition sha256_K : list Z :=
  [1116352408; 1899447441; 3049323471; 3921009573; 961987163; 1508970993;
   2453635748; 2870763221; 3624381080; 310598401; 607225278; 1426881987;
   1925078388; 2162078206; 2614888103; 3248222580; 3835390401; 4022224774;
   264347078; 604807628; 770255983; 1249150122; 1555081692; 1996064986;
   2554220882; 2821834349; 2952996808; 3210313671; 3336571891; 3584528711;
   113926993; 338241895; 666307205; 773529912; 1294757372; 1396182291;
   1695183700; 1986661051; 2177026350; 2456956037; 2730485921; 2820302411;
   3259730800; 3345764771; 3516065817; 3600352804; 4094571909; 275423344;
   430227734; 506948616; 659060556; 883997877; 958139571; 1322822218;
   1537002063; 1747873779; 1955562222; 2024104815; 2227730452; 2361852424;
   2428436474; 2756734187; 3204031479; 3329325298].

Definition sha256_H0 : list Z :=
  [1779033703; 3144134277; 1013904242; 2773480762;
   1359893119; 2600822924; 528734635; 1541459225].

(** Message schedule: the sixteen block words extended to sixty-four. *)
Definition sha256_extend (W : list Z) (i : nat) : list Z :=
  let w k := nth (i - k) W 0 in
  let s0 := Z.lxor (rotr32 (w 15%nat) 7) (Z.lxor (rotr32 (w 15%nat) 18) (Z.shiftr (w 15%nat) 3)) in
  let s1 := Z.lxor (rotr32 (w 2%nat) 17) (Z.lxor (rotr32 (w 2%nat) 19) (Z.shiftr (w 2%nat) 10)) in
  W ++ [add32 (add32 (w 16%nat) s0) (add32 (w 7%nat) s1)].

Definition sha256_schedule (M : list Z) : list Z :=
  fold_left sha256_extend (seq 16 48) M.

Definition sha256_round (W : list Z) (st : list Z) (i : nat) : list Z :=
  match st with
  | [a; b; c; d; e; f; g; h] =>
      let S1 := Z.lxor (rotr32 e 6) (Z.lxor (rotr32 e 11) (rotr32 e 25)) in
      let ch := Z.lxor (Z.land e f) (Z.land (not32 e) g) in
      let t1 := add32 (add32 (add32 h S1) (add32 ch (nth i sha256_K 0))) (nth i W 0) in
      let S0 := Z.lxor (rotr32 a 2) (Z.lxor (rotr32 a 13) (rotr32 a 22)) in
      let maj := Z.lxor (Z.land a b) (Z.lxor (Z.land a c) (Z.land b c)) in
      [add32 t1 (add32 S0 maj); a; b; c; add32 d t1; e; f; g]
  | _ => st
  end.

Fixpoint add32_all (xs ys : list Z) : list Z :=
  match xs, ys with
  | x :: xs', y :: ys' => add32 x y :: add32_all xs' ys'
  | _, _ => []
  end.

Definition sha256_block (h : list Z) (M : list Z) : list Z :=
  add32_all h (fold_left (sha256_round (sha256_schedule M)) (seq 0 64) h).

Definition sha256 (msg : list Z) : list Z :=
  flat_map (be_bytes 4) (fold_left sha256_block (blocks be_word (pad be_bytes msg)) sha256_H0).

Definition sha256_hexdigest (s : string) : string := hex_of (sha256 (bytes_of s)).

End Hashlib.

(** ** Python values: JSON documents, dictionaries, truthiness *)

(** What [json.load] returns. Numbers are the integers; a dictionary keeps
    its keys in insertion order, as Python's [dict] does. *)
Inductive json : Type :=
| JNull
| JBool (b : bool)
| JNum (z : Z)
| JStr (s : string)
| JArr (l : list json)
| JObj (d : list (string * json)).

Abbreviation dict := (list (string * json)).

(** [k in d] and [d.get(k)] *)
Fixpoint dict_get (d : dict) (k : string) : option json :=
  match d with
  | [] => None
  | (k', v) :: d' => if String.eqb k' k then Some v else dict_get d' k
  end.

Definition dict_has (d : dict) (k : string) : bool :=
  match dict_get d k with Some _ => true | None => false end.

(** [d.get(k, default)] *)
Definition dict_get_or (d : dict) (k : string) (default : json) : json :=
  match dict_get d k with Some v => v | None => default end.

(** [d[k] = v]: an existing key keeps its position, a new one goes last. *)
Fixpoint dict_set (d : dict) (k : string) (v : json) : dict :=
  match d with
  | [] => [(k, v)]
  | (k', v') :: d' =>
      if String.eqb k' k then (k, v) :: d' else (k', v') :: dict_set d' k v
  end.

(** [{k2: v for k2, v in d.items() if k2 != k}] *)
Definition dict_without (d : dict) (k : string) : dict :=
  filter (fun kv => negb (String.eqb (fst kv) k)) d.

(** [bool(v)] *)
Definition py_truthy (v : json) : bool :=
  match v with
  | JNull => false
  | JBool b => b
  | JNum z => negb (z =? 0)
  | JStr s => negb (String.eqb s EmptyString)
  | JArr l => match l with [] => false | _ => true end
  | JObj d => match d with [] => false | _ => true end
  end.

(** [str(n)] for an integer *)
Definition py_str_int (z : Z) : string :=
  DecimalString.NilZero.string_of_int (Z.to_int z).

(** ** [json.dumps(v, ensure_ascii=False, sort_keys=True)] *)

Module Json.

Definition dquote : ascii := ascii_of_nat 34.

Definition escape_char (c : ascii) : string :=
  let n := Z.of_N (N_of_ascii c) in
  if n =? 34 then String.append "\" (String dquote EmptyString)
  else if n =? 92 then "\\"
  else if n =? 10 then "\n"
  else if n =? 13 then "\r"
  else if n =? 9 then "\t"
  else if n =? 8 then "\b"
  else if n =? 12 then "\f"
  else if n <? 32 then String.append "\u00" (Hashlib.hex_byte n)
  else String c EmptyString.

Fixpoint escape (s : string) : string :=
  match s with
  | EmptyString => EmptyString
  | String c s' => String.append (escape_char c) (escape s')
  end.

Definition quote (s : string) : string :=
  String dquote (String.append (escape s) (String dquote EmptyString)).

Fixpoint join (sep : string) (l : list string) : string :=
  match l with
  | [] => EmptyString
  | [x] => x
  | x :: l' => String.append x (String.append sep (join sep l'))
  end.

(** Keys are compared as Python compares [str]: by code point, which for
    UTF-8 is the byte order. *)
Fixpoint insert_item (x : string * string) (l : list (string * string))
  : list (string * string) :=
  match l with
  | [] => [x]
  | y :: l' => if String.leb (fst x) (fst y) then x :: l else y :: insert_item x l'
  end.

Definition sort_items (l : list (string * string)) : list (string * string) :=
  fold_right insert_item [] l.

Fixpoint dumps (v : json) : string :=
  match v with
  | JNull => "null"
  | JBool true => "true"
  | JBool false => "false"
  | JNum z => py_str_int z
  | JStr s => quote s
  | JArr l =>
      String.append "[" (String.append (join ", " (List.map dumps l)) "]")
  | JObj d =>
      let items := List.map (fun kv => (fst kv, dumps (snd kv))) d in
      let text kv := String.append (quote (fst kv)) (String.append ": " (snd kv)) in
      String.append "{"
        (String.append (join ", " (List.map text (sort_items items))) "}")
  end.

(** *** [json.dump(v, f, ensure_ascii=False, indent=2)] *)

Definition newline_indent (level : nat) : string :=
  String (ascii_of_nat 10) (String.concat EmptyString (repeat "  " level)).

Fixpoint dump_indent (level : nat) (v : json) : string :=
  match v with
  | JArr [] => "[]"
  | JObj [] => "{}"
  | JArr l =>
      let sep := String.append "," (newline_indent (S level)) in
      String.append "["
        (String.append (newline_indent (S level))
           (String.append (join sep (List.map (dump_indent (S level)) l))
              (String.append (newline_indent level) "]")))
  | JObj d =>
      let sep := String.append "," (newline_indent (S level)) in
      let item kv :=
        String.append (quote (fst kv)) (String.append ": " (dump_indent (S level) (snd kv))) in
      String.append "{"
        (String.append (newline_indent (S level))
           (String.append (join sep (List.map item d))
              (String.append (newline_indent level) "}")))
  | _ => dumps v
  end.

Definition dump (v : json) : string := dump_indent 0 v.

(** *** [json.loads]

    The outcome of reading a value at the head of a text: the value and
    the text after it, a syntax error, or a value that has no
    representation here (a float, a lone surrogate). *)
Inductive parsed (A : Type) : Type :=
| Parsed (a : A) (rest : string)
| Invalid
| Unsupported.

Arguments Parsed {A} a rest.
Arguments Invalid {A}.
Arguments Unsupported {A}.

Definition code (c : ascii) : Z := Z.of_N (N_of_ascii c).

Definition is_ws (c : ascii) : bool :=
  (code c =? 32) || (code c =? 9) || (code c =? 10) || (code c =? 13).

Fixpoint skip_ws (s : string) : string :=
  match s with
  | String c s' => if is_ws c then skip_ws s' else s
  | EmptyString => s
  end.

Definition is_digit (c : ascii) : bool := (48 <=? code c) && (code c <=? 57).

Definition hex_value (c : ascii) : option Z :=
  let n := code c in
  if (48 <=? n) && (n <=? 57) then Some (n - 48)
  else if (97 <=? n) && (n <=? 102) then Some (n - 87)
  else if (65 <=? n) && (n <=? 70) then Some (n - 55)
  else None.

(** Four hexadecimal digits *)
Definition parse_hex4 (s : string) : option (Z * string) :=
  match s with
  | String a (String b (String c (String d rest))) =>
      match hex_value a, hex_value b, hex_value c, hex_value d with
      | Some x, Some y, Some z, Some w => Some (((x * 16 + y) * 16 + z) * 16 + w, rest)
      | _, _, _, _ => None
      end
  | _ => None
  end.

Definition byte (n : Z) : ascii := ascii_of_N (Z.to_N n).

(** The UTF-8 bytes of a code point *)
Definition utf8_encode (cp : Z) : string :=
  if cp <? 128 then String (byte cp) EmptyString
  else if cp <? 2048 then
    String (byte (192 + cp / 64)) (String (byte (128 + cp mod 64)) EmptyString)
  else if cp <? 65536 then
    String (byte (224 + cp / 4096))
      (String (byte (128 + (cp / 64) mod 64)) (String (byte (128 + cp mod 64)) EmptyString))
  else
    String (byte (240 + cp / 262144))
      (String (byte (128 + (cp / 4096) mod 64))
         (String (byte (128 + (cp / 64) mod 64))
            (String (byte (128 + cp mod 64)) EmptyString))).

(** One step of reading a string literal, after its opening quote: the
    closing quote, a character, or an escape sequence; [k] reads what
    follows. *)
Definition parse_char_step (k : string -> parsed string) (s : string) : parsed string :=
  let cons (prefix : string) (rest : string) :=
    match k rest with
    | Parsed t r => Parsed (String.append prefix t) r
    | Invalid => Invalid
    | Unsupported => Unsupported
    end in
  let one (n : Z) := String (byte n) EmptyString in
  match s with
  | EmptyString => Invalid
  | String c s' =>
      if code c =? 34 then Parsed EmptyString s'
      else if code c <? 32 then Invalid
      else if code c =? 92 then
        match s' with
        | EmptyString => Invalid
        | String e s'' =>
            if code e =? 34 then cons (one 34) s''
            else if code e =? 92 then cons (one 92) s''
            else if code e =? 47 then cons (one 47) s''
            else if code e =? 98 then cons (one 8) s''
            else if code e =? 102 then cons (one 12) s''
            else if code e =? 110 then cons (one 10) s''
            else if code e =? 114 then cons (one 13) s''
            else if code e =? 116 then cons (one 9) s''
            else if code e =? 117 then
              match parse_hex4 s'' with
              | None => Invalid
              | Some (cp, rest) =>
                  if (55296 <=? cp) && (cp <=? 56319) then
                    match rest with
                    | String b1 (String b2 rest') =>
                        if (code b1 =? 92) && (code b2 =? 117) then
                          match parse_hex4 rest' with
                          | None => Invalid
                          | Some (lo, rest'') =>
                              if (56320 <=? lo) && (lo <=? 57343) then
                                cons (utf8_encode (65536 + (cp - 55296) * 1024 + (lo - 56320)))
                                     rest''
                              else Unsupported
                          end
                        else Unsupported
                    | _ => Unsupported
                    end
                  else if (56320 <=? cp) && (cp <=? 57343) then Unsupported
                  else cons (utf8_encode cp) rest
              end
            else Invalid
        end
      else cons (String c EmptyString) s'
  end.

Fixpoint parse_chars (fuel : nat) (s : string) : parsed string :=
  match fuel with
  | O => Invalid
  | S f => parse_char_step (parse_chars f) s
  end.

Definition digit_of (c : ascii) : option (Decimal.uint -> Decimal.uint) :=
  let n := code c in
  if n =? 48 then Some Decimal.D0 else if n =? 49 then Some Decimal.D1
  else if n =? 50 then Some Decimal.D2 else if n =? 51 then Some Decimal.D3
  else if n =? 52 then Some Decimal.D4 else if n =? 53 then Some Decimal.D5
  else if n =? 54 then Some Decimal.D6 else if n =? 55 then Some Decimal.D7
  else if n =? 56 then Some Decimal.D8 else if n =? 57 then Some Decimal.D9
  else None.

(** The longest run of digits at the head of a text *)
Fixpoint parse_digits (s : string) : Decimal.uint * string :=
  match s with
  | String c s' =>
      match digit_of c with
      | Some d => let '(ds, rest) := parse_digits s' in (d ds, rest)
      | None => (Decimal.Nil, s)
      end
  | EmptyString => (Decimal.Nil, s)
  end.

Definition starts_with_digit (s : string) : bool :=
  match s with String c _ => is_digit c | EmptyString => false end.

(** Does a fraction or an exponent follow the integer part? *)
Definition float_follows (s : string) : bool :=
  match s with
  | String c s' =>
      if code c =? 46 then starts_with_digit s'
      else if (code c =? 101) || (code c =? 69) then
        match s' with
        | String g s'' =>
            if (code g =? 43) || (code g =? 45) then starts_with_digit s''
            else is_digit g
        | EmptyString => false
        end
      else false
  | EmptyString => false
  end.

Definition parse_number (s : string) : parsed Z :=
  let negative := match s with String c _ => code c =? 45 | EmptyString => false end in
  let s1 := if negative then match s with String _ r => r | EmptyString => s end else s in
  match s1 with
  | String c s2 =>
      if is_digit c then
        let '(ds, rest) := if code c =? 48 then (Decimal.D0 Decimal.Nil, s2)
                           else parse_digits s1 in
        let n := Z.of_uint ds in
        if float_follows rest then Unsupported
        else Parsed (if negative then - n else n) rest
      else if negative && String.prefix "Infinity" s1 then Unsupported
      else Invalid
  | EmptyString => Invalid
  end.

(** [dict(pairs)]: a repeated key keeps its first position and takes the
    last value. *)
Definition dict_of_pairs (pairs : list (string * json)) : list (string * json) :=
  fold_left (fun d kv => dict_set d (fst kv) (snd kv)) pairs [].

Fixpoint parse_value (fuel : nat) (s : string) : parsed json :=
  match fuel with
  | O => Invalid
  | S f =>
      match s with
      | EmptyString => Invalid
      | String c s' =>
          if code c =? 34 then
            match parse_chars (S (String.length s')) s' with
            | Parsed t rest => Parsed (JStr t) rest
            | Invalid => Invalid
            | Unsupported => Unsupported
            end
          else if code c =? 91 then
            match skip_ws s' with
            | String c' r =>
                if code c' =? 93 then Parsed (JArr []) r
                else match parse_elements f (String c' r) with
                     | Parsed l rest => Parsed (JArr l) rest
                     | Invalid => Invalid
                     | Unsupported => Unsupported
                     end
            | EmptyString => Invalid
            end
          else if code c =? 123 then
            match skip_ws s' with
            | String c' r =>
                if code c' =? 125 then Parsed (JObj []) r
                else match parse_members f (String c' r) with
                     | Parsed l rest => Parsed (JObj (dict_of_pairs l)) rest
                     | Invalid => Invalid
                     | Unsupported => Unsupported
                     end
            | EmptyString => Invalid
            end
          else if String.prefix "null" s then Parsed JNull (String.substring 4 (String.length s) s)
          else if String.prefix "true" s then
            Parsed (JBool true) (String.substring 4 (String.length s) s)
          else if String.prefix "false" s then
            Parsed (JBool false) (String.substring 5 (String.length s) s)
          else if String.prefix "NaN" s || String.prefix "Infinity" s then Unsupported
          else match parse_number s with
               | Parsed z rest => Parsed (JNum z) rest
               | Invalid => Invalid
               | Unsupported => Unsupported
               end
      end
  end
with parse_elements (fuel : nat) (s : string) : parsed (list json) :=
  match fuel with
  | O => Invalid
  | S f =>
      match parse_value f s with
      | Parsed v rest =>
          match skip_ws rest with
          | String c r =>
              if code c =? 44 then
                match parse_elements f (skip_ws r) with
                | Parsed l rest' => Parsed (v :: l) rest'
                | other => other
                end
              else if code c =? 93 then Parsed [v] r
              else Invalid
          | EmptyString => Invalid
          end
      | Invalid => Invalid
      | Unsupported => Unsupported
      end
  end
with parse_members (fuel : nat) (s : string) : parsed (list (string * json)) :=
  match fuel with
  | O => Invalid
  | S f =>
      match s with
      | String q s' =>
          if code q =? 34 then
            match parse_chars (S (String.length s')) s' with
            | Parsed k rest =>
                match skip_ws rest with
                | String c r =>
                    if code c =? 58 then
                      match parse_value f (skip_ws r) with
                      | Parsed v rest' =>
                          match skip_ws rest' with
                          | String c' r' =>
                              if code c' =? 44 then
                                match parse_members f (skip_ws r') with
                                | Parsed l rest'' => Parsed ((k, v) :: l) rest''
                                | other => other
                                end
                              else if code c' =? 125 then Parsed [(k, v)] r'
                              else Invalid
                          | EmptyString => Invalid
                          end
                      | Invalid => Invalid
                      | Unsupported => Unsupported
                      end
                    else Invalid
                | EmptyString => Invalid
                end
            | Invalid => Invalid
            | Unsupported => Unsupported
            end
          else Invalid
      | EmptyString => Invalid
      end
  end.

Definition loads (s : string) : parsed json :=
  match parse_value (S (String.length s)) (skip_ws s) with
  | Parsed v rest =>
      match skip_ws rest with
      | EmptyString => Parsed v EmptyString
      | String _ _ => Invalid               (* Extra data *)
      end
  | other => other
  end.

(** Well-formed UTF-8 (RFC 3629): [utf8_step] takes one encoded code
    point off the head of a byte string. *)
Definition in_range (lo hi : Z) (c : ascii) : bool := (lo <=? code c) && (code c <=? hi).

Definition utf8_step (s : string) : option string :=
  match s with
  | EmptyString => None
  | String a s1 =>
      if code a <? 128 then Some s1
      else
        match s1 with
        | EmptyString => None
        | String b s2 =>
            if in_range 194 223 a then
              if in_range 128 191 b then Some s2 else None
            else
              match s2 with
              | EmptyString => None
              | String c s3 =>
                  if in_range 224 239 a then
                    if (if code a =? 224 then in_range 160 191 b
                        else if code a =? 237 then in_range 128 159 b
                        else in_range 128 191 b)
                       && in_range 128 191 c
                    then Some s3 else None
                  else
                    match s3 with
                    | EmptyString => None
                    | String d s4 =>
                        if in_range 240 244 a
                           && (if code a =? 240 then in_range 144 191 b
                               else if code a =? 244 then in_range 128 143 b
                               else in_range 128 191 b)
                           && in_range 128 191 c && in_range 128 191 d
                        then Some s4 else None
                    end
              end
        end
  end.

Fixpoint utf8_valid_fuel (fuel : nat) (s : string) : bool :=
  match s with
  | EmptyString => true
  | String _ _ =>
      match fuel, utf8_step s with
      | S f, Some rest => utf8_valid_fuel f rest
      | _, _ => false
      end
  end.

Definition utf8_valid (s : string) : bool := utf8_valid_fuel (String.length s) s.

(** A value as Python can hold it: every [str] decodes, and no
    dictionary has a key twice. *)
Fixpoint keys_distinct (keys : list string) : bool :=
  match keys with
  | [] => true
  | k :: rest => negb (existsb (String.eqb k) rest) && keys_distinct rest
  end.

Fixpoint well_formed (v : json) : bool :=
  match v with
  | JStr s => utf8_valid s
  | JArr l => forallb well_formed l
  | JObj d =>
      keys_distinct (List.map fst d) &&
      forallb (fun kv => utf8_valid (fst kv) && well_formed (snd kv)) d
  | JNull | JBool _ | JNum _ => true
  end.

Fixpoint ascii_only (s : string) : bool :=
  match s with
  | EmptyString => true
  | String c s' => (code c <? 128) && ascii_only s'
  end.

(** A byte string that decodes: a sequence of encoded code points. *)
Inductive utf8 : string -> Prop :=
| utf8_empty : utf8 EmptyString
| utf8_more (s rest : string) : utf8_step s = Some rest -> utf8 rest -> utf8 s.

(** The number of nodes of a value: [loads] recurses no deeper. *)
Fixpoint size (v : json) : nat :=
  match v with
  | JArr l => S (list_sum (List.map (fun x => S (size x)) l))
  | JObj d => S (list_sum (List.map (fun kv => S (size (snd kv))) d))
  | JNull | JBool _ | JNum _ | JStr _ => 1%nat
  end.

(** What a value's text starts with: neither white space nor a closing
    bracket. *)
Definition opens_value (c : ascii) : Prop :=
  is_ws c = false /\ (code c =? 93) = false /\ (code c =? 125) = false.

(** What [dump] puts after a value: nothing, a comma or a line break. *)
Definition value_end (rest : string) : Prop :=
  match rest with
  | EmptyString => True
  | String c _ => code c = 44 \/ code c = 10
  end.

(** [loads] reads a value back from the text [dump] wrote for it, at any
    nesting level and whatever follows. *)
Definition reads_back (v : json) : Prop :=
  forall (n fuel : nat) (rest : string),
    value_end rest -> (size v < fuel)%nat ->
    parse_value fuel (String.append (dump_indent n v) rest) = Parsed v rest.

Definition array_separator (level : nat) : string :=
  String.append "," (newline_indent (S level)).

Definition object_item (level : nat) (kv : string * json) : string :=
  String.append (quote (fst kv)) (String.append ": " (dump_indent (S level) (snd kv))).

End Json.

(** ** Exceptions *)

Inductive exn : Type :=
| IntegrityError      (* sqlite3.IntegrityError *)
| ProgrammingError    (* sqlite3: a parameter of an unsupported type *)
| OverflowError       (* sqlite3: an int outside 64 bits *)
| AttributeError
| TypeError
| UnicodeDecodeError.

(** The outcome of a call that may raise. [Beyond] marks an input whose
    treatment depends on Python's [repr] of a container, which is not
    modelled. *)
Inductive res (A : Type) : Type :=
| Ok (a : A)
| Raise (e : exn)
| Beyond.

Arguments Ok {A} a.
Arguments Raise {A} e.
Arguments Beyond {A}.

#[global] Instance res_ret : MRet res := fun A a => Ok a.
#[global] Instance res_bind : MBind res := fun A B f m =>
  match m with
  | Ok a => f a
  | Raise e => Raise e
  | Beyond => Beyond
  end.

(** ** [storage.py]: the table [clips] *)

Record row : Type := Row {
  id : Z;
  type : string;
  content : string;
  hash : string;
  tag : option string;        (* TEXT DEFAULT '', nullable *)
  group_name : string;
  is_pinned : bool;
  pin_order : Z;
  created_at : string;
  updated_at : string
}.

(** The table, the AUTOINCREMENT counter (largest rowid ever used), the
    class attribute [_need_backup], whether a callback is registered, and
    how many times it has been invoked. *)
Record store : Type := Store {
  rows : list row;
  sqlite_sequence : Z;
  need_backup : bool;
  backup_callback : bool;
  callback_calls : nat
}.

Definition empty_store : store := Store [] 0 false false 0.

Definition with_rows (s : store) (rs : list row) : store :=
  Store rs (sqlite_sequence s) (need_backup s) (backup_callback s) (callback_calls s).

(** [SET updated_at = ?] *)
Definition set_updated_at (ts : string) (r : row) : row :=
  Row (id r) (type r) (content r) (hash r) (tag r) (group_name r)
      (is_pinned r) (pin_order r) (created_at r) ts.

(** [SET is_pinned = ?, pin_order = ?, updated_at = ?] *)
Definition set_pinned (p : bool) (order : Z) (ts : string) (r : row) : row :=
  Row (id r) (type r) (content r) (hash r) (tag r) (group_name r)
      p order (created_at r) ts.

(** [SET pin_order = ?] *)
Definition set_pin_order (order : Z) (r : row) : row :=
  Row (id r) (type r) (content r) (hash r) (tag r) (group_name r)
      (is_pinned r) order (created_at r) (updated_at r).

(** [SET tag = ?] *)
Definition set_tag (t : string) (r : row) : row :=
  Row (id r) (type r) (content r) (hash r) (Some t) (group_name r)
      (is_pinned r) (pin_order r) (created_at r) (updated_at r).

(** [SET group_name = ?] *)
Definition set_group_name (g : string) (r : row) : row :=
  Row (id r) (type r) (content r) (hash r) (tag r) g
      (is_pinned r) (pin_order r) (created_at r) (updated_at r).

(** [UPDATE clips SET ... WHERE id = ?] *)
Definition update_id (clip_id : Z) (f : row -> row) (rs : list row) : list row :=
  List.map (fun r => if id r =? clip_id then f r else r) rs.

(** [SELECT ... WHERE ...] then [fetchone()] *)
Definition fetchone (p : row -> bool) (rs : list row) : option row :=
  List.find p rs.

(** [DELETE FROM clips WHERE ...] *)
Definition delete_where (p : row -> bool) (rs : list row) : list row :=
  List.filter (fun r => negb (p r)) rs.

Definition compute_hash (content : string) : string :=
  Hashlib.md5_hexdigest content.

Definition set_backup_callback (s : store) : store :=
  Store (rows s) (sqlite_sequence s) (need_backup s) true (callback_calls s).

Definition _mark_dirty (s : store) : store :=
  Store (rows s) (sqlite_sequence s) true (backup_callback s)
        (if backup_callback s then S (callback_calls s) else callback_calls s).

Definition clear_backup_flag (s : store) : store :=
  Store (rows s) (sqlite_sequence s) false (backup_callback s) (callback_calls s).

(** [CHECK(type IN ('text', 'image'))] *)
Definition check_type (t : string) : bool :=
  String.eqb t "text" || String.eqb t "image".

(** [INSERT INTO clips (type, content, hash, tag, is_pinned, created_at,
    updated_at)]: the columns left out take their defaults. *)
Definition insert_row (clip_type content content_hash : string) (tg : option string)
    (pinned : bool) (created updated : string) (s : store) : store :=
  let rowid := sqlite_sequence s + 1 in
  Store (rows s ++ [Row rowid clip_type content content_hash tg EmptyString pinned 0 created updated])
        rowid (need_backup s) (backup_callback s) (callback_calls s).

Definition add_clip (now : string) (clip_type content tg : string) (s : store)
  : res ((Z * bool) * store) :=
  let content_hash := compute_hash content in
  match fetchone (fun r => String.eqb (hash r) content_hash) (rows s) with
  | Some existing =>
      let s1 := with_rows s (update_id (id existing) (set_updated_at now) (rows s)) in
      Ok ((id existing, false), _mark_dirty s1)
  | None =>
      if check_type clip_type then
        let s1 := insert_row clip_type content content_hash (Some tg) false now now s in
        let lastrowid := sqlite_sequence s1 in
        let new_id := if lastrowid =? 0 then 0 else lastrowid in
        Ok ((new_id, true), _mark_dirty s1)
      else Raise IntegrityError
  end.

(** [SELECT COALESCE(MAX(pin_order), 0) FROM clips WHERE is_pinned = 1] *)
Definition max_pin_order (rs : list row) : Z :=
  match List.map pin_order (List.filter is_pinned rs) with
  | [] => 0
  | x :: xs => fold_left Z.max xs x
  end.

Definition pin_clip (now : string) (clip_id : Z) (s : store) : bool * store :=
  let max_order := max_pin_order (rows s) in
  (true, _mark_dirty
     (with_rows s (update_id clip_id (set_pinned true (max_order + 1) now) (rows s)))).

Definition unpin_clip (now : string) (clip_id : Z) (s : store) : bool * store :=
  (true, _mark_dirty
     (with_rows s (update_id clip_id (set_pinned false 0 now) (rows s)))).

Definition delete_clip (clip_id : Z) (s : store) : bool * store :=
  (true, _mark_dirty (with_rows s (delete_where (fun r => id r =? clip_id) (rows s)))).

Definition update_tag (clip_id : Z) (t : string) (s : store) : bool * store :=
  (true, _mark_dirty (with_rows s (update_id clip_id (set_tag t) (rows s)))).

Definition update_group (clip_id : Z) (g : string) (s : store) : bool * store :=
  (true, _mark_dirty (with_rows s (update_id clip_id (set_group_name g) (rows s)))).

(** [ORDER BY updated_at DESC]. SQL leaves the order of rows with equal
    timestamps open; here they stay in rowid order, and what is stated
    about the place of a row among others holds for rows whose timestamps
    differ. *)
Fixpoint insert_by_updated (r : row) (rs : list row) : list row :=
  match rs with
  | [] => [r]
  | r' :: rs' =>
      if String.leb (updated_at r') (updated_at r) then r :: rs
      else r' :: insert_by_updated r rs'
  end.

Definition order_by_updated_desc (rs : list row) : list row :=
  fold_right insert_by_updated [] rs.

(** [clip_ids.index(clip_id)] *)
Fixpoint index_of (x : Z) (l : list Z) : option nat :=
  match l with
  | [] => None
  | y :: l' => if y =? x then Some O else option_map S (index_of x l')
  end.

(** [for i, cid in enumerate(clip_ids): UPDATE ... SET updated_at = ...] *)
Fixpoint rewrite_times (stamp : nat -> string) (i : nat) (clip_ids : list Z)
    (rs : list row) : list row :=
  match clip_ids with
  | [] => rs
  | cid :: rest =>
      rewrite_times stamp (S i) rest (update_id cid (set_updated_at (stamp i)) rs)
  end.

(** [stamp i] is the rendering of [base_time - i * 0.001]. *)
Definition move_clip (stamp : nat -> string) (clip_id direction : Z)
    (pinned : bool) (s : store) : bool * store :=
  if pinned then
    match fetchone (fun r => id r =? clip_id) (rows s) with
    | None => (false, s)
    | Some current =>
        let current_order := pin_order current in
        let new_order := current_order + direction in
        match fetchone (fun r => is_pinned r && (pin_order r =? new_order)) (rows s) with
        | Some target =>
            let rs1 := update_id clip_id (set_pin_order new_order) (rows s) in
            let rs2 := update_id (id target) (set_pin_order current_order) rs1 in
            let rs3 := update_id (id target) (set_pin_order current_order) rs2 in
            (true, _mark_dirty (with_rows s rs3))
        | None => (true, _mark_dirty s)
        end
    end
  else
    let clip_ids :=
      List.map id (order_by_updated_desc (List.filter (fun r => negb (is_pinned r)) (rows s))) in
    match index_of clip_id clip_ids with
    | None => (false, s)
    | Some idx =>
        let new_idx := Z.of_nat idx + direction in
        if (0 <=? new_idx) && (new_idx <? Z.of_nat (length clip_ids)) then
          let a := nth idx clip_ids 0 in
          let b := nth (Z.to_nat new_idx) clip_ids 0 in
          let swapped := <[Z.to_nat new_idx := a]> (<[idx := b]> clip_ids) in
          (true, _mark_dirty (with_rows s (rewrite_times stamp 0 swapped (rows s))))
        else (true, _mark_dirty s)
    end.

Definition clear_history (s : store) : Z * store :=
  let rs := delete_where (fun r => negb (is_pinned r)) (rows s) in
  (Z.of_nat (length (rows s)) - Z.of_nat (length rs), _mark_dirty (with_rows s rs)).

Definition clear_pinned (s : store) : Z * store :=
  let rs := delete_where is_pinned (rows s) in
  (Z.of_nat (length (rows s)) - Z.of_nat (length rs), _mark_dirty (with_rows s rs)).

(** *** Read operations *)

(** [dict(r)] for a row of [SELECT *] *)
Definition row_dict (r : row) : dict :=
  [("id", JNum (id r)); ("type", JStr (type r)); ("content", JStr (content r));
   ("hash", JStr (hash r));
   ("tag", match tag r with Some t => JStr t | None => JNull end);
   ("group_name", JStr (group_name r));
   ("is_pinned", JNum (if is_pinned r then 1 else 0));
   ("pin_order", JNum (pin_order r));
   ("created_at", JStr (created_at r)); ("updated_at", JStr (updated_at r))].

(** [dict(r)] for a row of [SELECT c1, c2, ...] *)
Definition select_columns (cols : list string) (r : row) : json :=
  JObj (List.filter (fun kv => existsb (String.eqb (fst kv)) cols) (row_dict r)).

(** [ORDER BY pin_order DESC]; rows with equal [pin_order], whose order
    SQL leaves open, stay in rowid order. *)
Fixpoint insert_by_pin_order (r : row) (rs : list row) : list row :=
  match rs with
  | [] => [r]
  | r' :: rs' =>
      if pin_order r' <=? pin_order r then r :: rs
      else r' :: insert_by_pin_order r rs'
  end.

Definition order_by_pin_order_desc (rs : list row) : list row :=
  fold_right insert_by_pin_order [] rs.

(** [LIMIT ? OFFSET ?]: a negative limit means no limit *)
Definition limit_offset {A} (limit offset : Z) (l : list A) : list A :=
  let l' := skipn (Z.to_nat offset) l in
  if limit <? 0 then l' else firstn (Z.to_nat limit) l'.

Definition get_history (limit offset : Z) (s : store) : list json :=
  List.map (select_columns ["id"; "type"; "content"; "hash"; "tag"; "created_at"; "updated_at"])
    (limit_offset limit offset
       (order_by_updated_desc (List.filter (fun r => negb (is_pinned r)) (rows s)))).

Definition get_pinned (limit offset : Z) (s : store) : list json :=
  List.map (select_columns ["id"; "type"; "content"; "hash"; "tag"; "group_name";
                            "created_at"; "updated_at"])
    (limit_offset limit offset (order_by_pin_order_desc (List.filter is_pinned (rows s)))).

(** [SELECT * FROM clips ORDER BY is_pinned DESC, updated_at DESC]: the
    pinned rows, then the others, each section by [updated_at]. *)
Definition get_all_clips (s : store) : list json :=
  List.map (fun r => JObj (row_dict r))
    (order_by_updated_desc (List.filter is_pinned (rows s)) ++
     order_by_updated_desc (List.filter (fun r => negb (is_pinned r)) (rows s))).

Definition get_clip_count (s : store) : Z := Z.of_nat (length (rows s)).

(** *** [import_clips] *)

(** A value stored in a column of TEXT affinity *)
Inductive sqlval : Type :=
| SqlNull
| SqlText (s : string).

(** Binding a Python value to such a column: [None] is NULL, an [int]
    (and so a [bool]) is converted to its text form, a list or dict is
    refused by the driver. *)
Definition bind_text (v : json) : res sqlval :=
  match v with
  | JNull => Ok SqlNull
  | JStr s => Ok (SqlText s)
  | JBool b => Ok (SqlText (if b then "1" else "0"))
  | JNum z =>
      if (- 2 ^ 63 <=? z) && (z <? 2 ^ 63) then Ok (SqlText (py_str_int z))
      else Raise OverflowError
  | JArr _ | JObj _ => Raise ProgrammingError
  end.

(** A row skipped by [OR IGNORE] has drawn its rowid before the
    constraints were checked; AUTOINCREMENT does not hand it out again. *)
Definition skip_rowid (s : store) : store :=
  Store (rows s) (sqlite_sequence s + 1) (need_backup s) (backup_callback s)
        (callback_calls s).

(** [INSERT OR IGNORE INTO clips (type, content, hash, tag, is_pinned,
    created_at, updated_at)]: a row that violates NOT NULL, the CHECK on
    [type] or the UNIQUE constraint on [hash] is skipped without error. *)
Definition insert_or_ignore (clip_type content content_hash tg : sqlval)
    (pinned : bool) (created updated : sqlval) (s : store) : store :=
  match clip_type, content, content_hash, created, updated with
  | SqlText t, SqlText c, SqlText h, SqlText cr, SqlText up =>
      if check_type t && negb (existsb (fun r => String.eqb (hash r) h) (rows s))
      then insert_row t c h (match tg with SqlText x => Some x | SqlNull => None end)
             pinned cr up s
      else skip_rowid s
  | _, _, _, _, _ => skip_rowid s
  end.

(** [conn.execute("INSERT OR IGNORE ...", (...))] *)
Definition execute_insert_or_ignore (clip_type content content_hash tg : json)
    (pinned : bool) (created updated : json) (s : store) : res store :=
  p_type ← bind_text clip_type;
  p_content ← bind_text content;
  p_hash ← bind_text content_hash;
  p_tag ← bind_text tg;
  p_created ← bind_text created;
  p_updated ← bind_text updated;
  Ok (insert_or_ignore p_type p_content p_hash p_tag pinned p_created p_updated s).

(** [clip.get("hash") or self.compute_hash(content)] *)
Definition hash_or_compute (d : dict) (content : json) : res json :=
  let h := dict_get_or d "hash" JNull in
  if py_truthy h then Ok h
  else match content with
       | JStr c => Ok (JStr (compute_hash c))
       | _ => Raise AttributeError
       end.

(** The loop of [import_clips]; [clock i] is [datetime.now().isoformat()]
    as read in iteration [i]. *)
Fixpoint import_loop (clock : nat -> string) (i : nat) (clips : list json)
    (count : Z) (s : store) : res (Z * store) :=
  match clips with
  | [] => Ok (count, s)
  | clip :: rest =>
      match clip with
      | JObj d =>
          let content := dict_get_or d "content" (JStr EmptyString) in
          let clip_type := dict_get_or d "type" (JStr "text") in
          let tg := dict_get_or d "tag" (JStr EmptyString) in
          let pinned := py_truthy (dict_get_or d "is_pinned" (JBool false)) in
          content_hash ← hash_or_compute d content;
          let created := dict_get_or d "created_at" (JStr (clock i)) in
          let updated := dict_get_or d "updated_at" created in
          match execute_insert_or_ignore clip_type content content_hash tg
                  pinned created updated s with
          | Ok s1 => import_loop clock (S i) rest (count + 1) s1
          | Raise IntegrityError => import_loop clock (S i) rest count s
          | Raise e => Raise e
          | Beyond => Beyond
          end
      | _ => Raise AttributeError
      end
  end.

(** An exception rolls the transaction back: the caller keeps its store. *)
Definition import_clips (clock : nat -> string) (clips : list json) (s : store)
  : res (Z * store) :=
  import_loop clock 0 clips 0 s.

(** ** The disk *)

(** What reading a file as UTF-8 and [json.load] make of its bytes:
    bytes that do not decode, text that does not parse, or a document. *)
Inductive file : Type :=
| Undecodable
| Garbage
| Document (data : json).

(** The disk: the bytes of each file, by path. *)
Abbreviation filesystem := (gmap string string).

(** [open(path, "r", encoding="utf-8")] followed by [json.load] *)
Definition read_file (bytes : string) : res file :=
  if Json.utf8_valid bytes then
    match Json.loads bytes with
    | Json.Parsed v _ => Ok (Document v)
    | Json.Invalid => Ok Garbage
    | Json.Unsupported => Beyond
    end
  else Ok Undecodable.

(** The same for a path that may not exist. *)
Definition read_path (fs : filesystem) (path : string) : res (option file) :=
  match fs !! path with
  | None => Ok None
  | Some bytes => f ← read_file bytes; Ok (Some f)
  end.

(** The byte at [offset] replaced by [c] *)
Fixpoint set_byte (offset : nat) (c : ascii) (s : string) : string :=
  match s with
  | EmptyString => EmptyString
  | String a s' =>
      match offset with
      | O => String c s'
      | S n => String a (set_byte n c s')
      end
  end.

(** In how many positions two texts of the same length differ *)
Fixpoint differing_bytes (s t : string) : nat :=
  match s, t with
  | String a s', String b t' =>
      ((if Ascii.eqb a b then 0 else 1) + differing_bytes s' t')%nat
  | _, _ => O
  end.

(** Which calls of the operating system fail with [OSError], by the
    path they write or remove. [write_fails d p]: the file [p] cannot be
    brought into being. For a file that is opened for writing, [open]
    fails. For a file that is put in place by [os.replace], the failure
    comes after its temporary file was opened: [partial_write d p] is
    [Some n] when the write into the temporary file stops after [n]
    bytes, and [None] when the write completes and the rename fails.
    [remove_fails d p]: [os.remove(p)] fails. *)
Record disk : Type := MkDisk {
  write_fails : string -> bool;
  remove_fails : string -> bool;
  partial_write : string -> option nat
}.

(** A disk on which a write that fails after [open] fails at the
    rename. *)
Definition Disk (write_fails remove_fails : string -> bool) : disk :=
  MkDisk write_fails remove_fails (fun _ => None).

(** [a >= b] on strings: comparison by code point. *)
Definition str_ge (a b : string) : Prop := String.leb b a = true.

#[global] Instance str_ge_dec : RelDecision str_ge :=
  fun a b => decide (String.leb b a = true).

(** [sorted(files, reverse=True)] *)
Definition sorted_reverse (files : list string) : list string :=
  merge_sort str_ge files.

(** [s.startswith(p)], returning the rest *)
Fixpoint strip_prefix (p s : string) : option string :=
  match p with
  | EmptyString => Some s
  | String a p' =>
      match s with
      | String b s' => if Ascii.eqb a b then strip_prefix p' s' else None
      | EmptyString => None
      end
  end.

(** [s.endswith(suf)] *)
Fixpoint ends_with (suf s : string) : bool :=
  String.eqb s suf ||
  match s with
  | String _ s' => ends_with suf s'
  | EmptyString => false
  end.

Fixpoint has_slash (s : string) : bool :=
  match s with
  | EmptyString => false
  | String c s' => Ascii.eqb c "/" || has_slash s'
  end.

(** [needle in haystack] for two strings *)
Fixpoint is_substring (needle hay : string) : bool :=
  String.prefix needle hay ||
  match hay with
  | String _ hay' => is_substring needle hay'
  | EmptyString => false
  end.

(** The characters of a [str]: the UTF-8 sequences of its bytes. *)
Definition is_continuation (c : ascii) : bool :=
  let n := Z.of_N (N_of_ascii c) in (128 <=? n) && (n <? 192).

Fixpoint utf8_chars (s : string) : list string :=
  match s with
  | EmptyString => []
  | String c s' =>
      match s' with
      | String c' _ =>
          if is_continuation c' then
            match utf8_chars s' with
            | h :: t => String c h :: t
            | [] => [String c EmptyString]
            end
          else String c EmptyString :: utf8_chars s'
      | EmptyString => [String c EmptyString]
      end
  end.

(** [for item in v]: [None] when [v] is not iterable. *)
Definition py_iter (v : json) : option (list json) :=
  match v with
  | JArr l => Some l
  | JStr s => Some (List.map JStr (utf8_chars s))
  | JObj d => Some (List.map (fun kv => JStr (fst kv)) d)
  | JNull | JBool _ | JNum _ => None
  end.

(** ** [backup_manager.py] *)

Module backup_manager.

Definition BACKUP_DIR : string := "backups".
Definition BACKUP_PREFIX : string := "clipboard_backup_".
Definition MAX_BACKUPS : nat := 10.

(** [os.path.join(BACKUP_DIR, name)] *)
Definition in_backup_dir (name : string) : string :=
  String.append BACKUP_DIR (String.append "/" name).

Definition compute_checksum (data : string) : string :=
  Hashlib.sha256_hexdigest data.

(** [glob.glob(os.path.join(BACKUP_DIR, "clipboard_backup_*.json"))]
    on one path *)
Definition glob_match (path : string) : bool :=
  match strip_prefix (in_backup_dir BACKUP_PREFIX) path with
  | Some rest => ends_with ".json" rest && negb (has_slash rest)
  | None => false
  end.

Definition get_backup_files (fs : filesystem) : list string :=
  sorted_reverse (List.filter glob_match (List.map fst (map_to_list fs))).

(** [os.remove(path)] inside [try ... except OSError: pass] *)
Definition try_remove (d : disk) (fs : filesystem) (path : string) : filesystem :=
  if remove_fails d path then fs else delete path fs.

Definition rotate_backups (d : disk) (fs : filesystem) : filesystem :=
  let files := get_backup_files fs in
  if (MAX_BACKUPS <? length files)%nat
  then fold_left (try_remove d) (skipn MAX_BACKUPS files) fs
  else fs.

(** The dictionary [backup_data] that [create_backup] serializes. *)
Definition backup_data (created_at : string) (clips : list json) : dict :=
  let clips_json := Json.dumps (JArr clips) in
  let checksum := compute_checksum clips_json in
  [("version", JNum 1); ("created_at", JStr created_at); ("clips", JArr clips);
   ("checksum", JStr checksum); ("clip_count", JNum (Z.of_nat (length clips)))].

(** The [except] branch of [create_backup]: the temporary file is
    removed if it exists, and the result is [None]. *)
Definition create_backup_failed (d : disk) (temp_filepath : string) (fs : filesystem)
  : option string * filesystem :=
  (None, match fs !! temp_filepath with
         | Some _ => try_remove d fs temp_filepath
         | None => fs
         end).

(** [timestamp] is [datetime.now().strftime("%Y%m%d_%H%M%S")] and
    [created_at] is [datetime.now().isoformat()]. Inside the [try], the
    [open] of the temporary file, the write of [json.dump] and
    [os.replace] can each fail; [rotate_backups] catches its own
    errors. *)
Definition create_backup (d : disk) (timestamp created_at : string)
    (clips : list json) (fs : filesystem) : option string * filesystem :=
  let filename := String.append BACKUP_PREFIX (String.append timestamp ".json") in
  let filepath := in_backup_dir filename in
  let temp_filepath := String.append filepath ".tmp" in
  let text := Json.dump (JObj (backup_data created_at clips)) in
  if write_fails d temp_filepath then
    (* open(temp_filepath, "w") raises *)
    create_backup_failed d temp_filepath fs
  else if write_fails d filepath then
    match partial_write d filepath with
    | Some n =>
        (* json.dump raises after n bytes *)
        create_backup_failed d temp_filepath
          (<[temp_filepath := String.substring 0 n text]> fs)
    | None =>
        (* os.replace raises *)
        create_backup_failed d temp_filepath (<[temp_filepath := text]> fs)
    end
  else
    let fs1 := <[temp_filepath := text]> fs in
    (* os.replace(temp_filepath, filepath) *)
    let fs2 := match fs1 !! temp_filepath with
               | Some f => <[filepath := f]> (delete temp_filepath fs1)
               | None => fs1
               end in
    (Some filepath, rotate_backups d fs2).

(** The body of [validate_backup] once the file has been opened and
    parsed; [None] stands for a file that cannot be opened. The
    [except] clause names [JSONDecodeError], [KeyError], [TypeError] and
    [OSError]: a [UnicodeDecodeError] passes through it. *)
Definition validate_data (f : option file) : res (bool * option json) :=
  match f with
  | Some (Document (JObj data)) =>
      if negb (dict_has data "clips") || negb (dict_has data "checksum")
      then Ok (false, None)
      else
        let clips := dict_get_or data "clips" JNull in
        let stored_checksum := dict_get_or data "checksum" JNull in
        let computed_checksum := compute_checksum (Json.dumps clips) in
        match stored_checksum with
        | JStr stored =>
            if String.eqb stored computed_checksum then Ok (true, Some clips)
            else Ok (false, None)
        | _ => Ok (false, None)
        end
  | Some (Document _) => Ok (false, None)  (* TypeError, caught *)
  | Some Garbage => Ok (false, None)       (* json.JSONDecodeError, caught *)
  | Some Undecodable => Raise UnicodeDecodeError
  | None => Ok (false, None)               (* OSError, caught *)
  end.

Definition validate_backup (fs : filesystem) (filepath : string)
  : res (bool * option json) :=
  f ← read_path fs filepath; validate_data f.

(** The loop of [find_valid_backup]: [if is_valid and clips is not
    None]. A [clips] entry that is JSON [null] reads as [None], so a file
    that validates with it is passed over. *)
Fixpoint first_valid (fs : filesystem) (files : list string)
  : res (option string * option json) :=
  match files with
  | [] => Ok (None, None)
  | filepath :: rest =>
      v ← validate_backup fs filepath;
      match v with
      | (true, Some JNull) => first_valid fs rest
      | (true, Some clips) => Ok (Some filepath, Some clips)
      | _ => first_valid fs rest
      end
  end.

Definition find_valid_backup (fs : filesystem)
  : res (option string * option json) :=
  first_valid fs (get_backup_files fs).

(** [str(item)] for an item that is not a dictionary *)
Definition py_str (item : json) : res string :=
  match item with
  | JStr s => Ok s
  | JNum z => Ok (py_str_int z)
  | JBool true => Ok "True"
  | JBool false => Ok "False"
  | JNull => Ok "None"
  | JArr _ | JObj _ => Beyond
  end.

Definition normalize_clip_item (item : json) : res dict :=
  match item with
  | JObj d =>
      Ok [("type", dict_get_or d "type" (JStr "text"));
          ("content", dict_get_or d "content" (JStr EmptyString));
          ("tag", dict_get_or d "tag" (JStr EmptyString))]
  | _ =>
      c ← py_str item;
      Ok [("type", JStr "text"); ("content", JStr c); ("tag", JStr EmptyString)]
  end.

(** One of the two loops of [import_legacy_json]; [pin_order_of i] is
    the rank given to the item at position [i]. *)
Fixpoint legacy_loop (now : string) (pinned : bool) (pin_order_of : nat -> Z)
    (i : nat) (items : list json) : res (list json) :=
  match items with
  | [] => Ok []
  | item :: rest =>
      clip ← normalize_clip_item item;
      let clip := dict_set clip "is_pinned" (JBool pinned) in
      let clip := dict_set clip "pin_order" (JNum (pin_order_of i)) in
      let clip := dict_set clip "created_at" (JStr now) in
      let clip := dict_set clip "updated_at" (JStr now) in
      clips ← legacy_loop now pinned pin_order_of (S i) rest;
      Ok (JObj clip :: clips)
  end.

(** [None] is the result of the [except] clause; an [AttributeError]
    (the document is not an object) is not caught there. *)
Definition import_legacy_json (now : string) (f : option file)
  : res (option (list json)) :=
  match f with
  | Some (Document (JObj data)) =>
      match py_iter (dict_get_or data "pinned" (JArr [])) with
      | None => Ok None                    (* TypeError, caught *)
      | Some pinned =>
          p ← legacy_loop now true
                (fun i => Z.of_nat (length pinned) - Z.of_nat i) 0 pinned;
          match py_iter (dict_get_or data "history" (JArr [])) with
          | None => Ok None
          | Some history =>
              h ← legacy_loop now false (fun _ => 0) 0 history;
              Ok (Some (p ++ h))
          end
      end
  | Some (Document _) => Raise AttributeError
  | Some Garbage => Ok None
  | Some Undecodable => Raise UnicodeDecodeError
  | None => Ok None
  end.

(** The path [create_backup] gives to the snapshot taken at
    [timestamp]. *)
Definition backup_path (timestamp : string) : string :=
  in_backup_dir (String.append BACKUP_PREFIX (String.append timestamp ".json")).

(** The shape of [strftime("%Y%m%d_%H%M%S")]: fifteen characters, each a
    digit or an underscore. *)
Definition is_timestamp_char (c : ascii) : bool :=
  let n := Z.of_N (N_of_ascii c) in ((48 <=? n) && (n <=? 57)) || (n =? 95).

Fixpoint all_chars (p : ascii -> bool) (s : string) : bool :=
  match s with
  | EmptyString => true
  | String c s' => p c && all_chars p s'
  end.

Definition is_timestamp (s : string) : bool :=
  (String.length s =? 15)%nat && all_chars is_timestamp_char s.

(** A snapshot to write: the two clock renderings and the clips. *)
Definition snapshot : Type := string * string * list json.

Definition snapshot_timestamp (x : snapshot) : string := fst (fst x).

(** [create_backup] called for each snapshot in turn. *)
Fixpoint create_backups (d : disk) (snapshots : list snapshot) (fs : filesystem)
  : filesystem :=
  match snapshots with
  | [] => fs
  | (timestamp, created_at, clips) :: rest =>
      create_backups d rest (snd (create_backup d timestamp created_at clips fs))
  end.

(** [a < b] on strings *)
Definition str_lt (a b : string) : Prop := String.ltb a b = true.

(** *** [BackupScheduler]

    Instants are integers, in milliseconds. The state is the instant at
    which the armed [threading.Timer] fires, if one is armed, and the
    instants at which [_backup_func] has been called. *)

Definition debounce_ms : Z := 30 * 1000.

Record scheduler : Type := Scheduler {
  timer : option Z;
  backups : list Z
}.

Definition idle : scheduler := Scheduler None [].

(** [schedule()] called at [now]: the previous timer is cancelled and a
    new one is started. *)
Definition schedule (now : Z) (sch : scheduler) : scheduler :=
  Scheduler (Some (now + debounce_ms)) (backups sch).

(** [_execute_backup()], run by the timer at [now] *)
Definition _execute_backup (now : Z) (sch : scheduler) : scheduler :=
  Scheduler None (backups sch ++ [now]).

Definition force_now (now : Z) (sch : scheduler) : scheduler :=
  Scheduler None (backups sch ++ [now]).

Definition cancel (sch : scheduler) : scheduler :=
  Scheduler None (backups sch).

(** Time passing until [now]: an armed timer whose instant has come
    fires at that instant. *)
Definition elapse (now : Z) (sch : scheduler) : scheduler :=
  match timer sch with
  | Some t => if t <=? now then _execute_backup t sch else sch
  | None => sch
  end.

(** [schedule()] called at each of the instants [calls], in order. *)
Fixpoint notify_all (calls : list Z) (sch : scheduler) : scheduler :=
  match calls with
  | [] => sch
  | t :: rest => notify_all rest (schedule t (elapse t sch))
  end.

(** Calls that follow one another by less than the debounce interval,
    the first of them at [t]. *)
Fixpoint closely_spaced (t : Z) (rest : list Z) : Prop :=
  match rest with
  | [] => True
  | t' :: rest' => t <= t' < t + debounce_ms /\ closely_spaced t' rest'
  end.

End backup_manager.

(** ** [backup.py]: the class [BackupManager] *)

Module backup.

Definition BACKUP_DIR : string := "backups".
Definition BACKUP_PREFIX : string := "clipboard_backup_".
Definition BACKUP_SUFFIX : string := ".json".
Definition MAX_BACKUPS : nat := 10.

(** [key in data]; a number, a boolean or [None] is not a container. *)
Definition py_contains (key : string) (data : json) : res bool :=
  match data with
  | JObj d => Ok (dict_has d key)
  | JArr l =>
      Ok (existsb (fun v => match v with JStr s => String.eqb s key | _ => false end) l)
  | JStr s => Ok (is_substring key s)
  | JNull | JBool _ | JNum _ => Raise TypeError
  end.

(** The digest of a document without its [checksum] entry. *)
Definition checksum_of (data : dict) : string :=
  Hashlib.sha256_hexdigest (Json.dumps (JObj (dict_without data "checksum"))).

(** The dictionary [backup_data] that [_do_backup] writes. *)
Definition backup_data (created_at : string) (clips : list json) : dict :=
  let is_pinned c :=
    match c with
    | JObj d => py_truthy (dict_get_or d "is_pinned" JNull)
    | _ => false
    end in
  let history := List.filter (fun c => negb (is_pinned c)) clips in
  let pinned := List.filter is_pinned clips in
  let data := [("version", JNum 2); ("created_at", JStr created_at);
               ("history", JArr history); ("pinned", JArr pinned);
               ("checksum", JStr EmptyString)] in
  dict_set data "checksum" (JStr (checksum_of data)).

(** The body of [validate_backup] once the file has been opened and
    parsed. [except Exception] catches every failure. *)
Definition validate_data (f : option file) : bool * option json :=
  match f with
  | Some (Document data) =>
      match py_contains "history" data, py_contains "pinned" data,
            py_contains "checksum" data with
      | Ok has_history, Ok has_pinned, Ok has_checksum =>
          if negb has_history && negb has_pinned then (false, None)
          else if has_checksum then
            match data with
            | JObj d =>
                match dict_get_or d "checksum" JNull with
                | JStr stored =>
                    if String.eqb stored (checksum_of d) then (true, Some data)
                    else (false, None)
                | _ => (false, None)
                end
            | _ => (false, None)           (* data["checksum"]: TypeError *)
            end
          else (true, Some data)
      | _, _, _ => (false, None)           (* TypeError *)
      end
  | Some Garbage => (false, None)
  | Some Undecodable => (false, None)
  | None => (false, None)
  end.

Definition validate_backup (fs : filesystem) (filepath : string)
  : res (bool * option json) :=
  f ← read_path fs filepath; Ok (validate_data f).

End backup.

(** ** [main.py]: recovery at start-up *)

Definition DATA_FILE : string := "data.json".

(** [storage.import_clips(clips)] for whatever value the caller holds;
    the call is made only when [clips] is truthy, so a string or an
    object has a first element, a [str], which has no [get]. *)
Definition import_clips_value (clock : nat -> string) (clips : json) (s : store)
  : res (Z * store) :=
  match clips with
  | JArr l => import_clips clock l s
  | JStr _ | JObj _ => Raise AttributeError
  | JNull | JBool _ | JNum _ => Raise TypeError
  end.

(** [ClientApp._init_data]: use the table if it holds a row, else the
    newest valid backup, else the legacy file. [now] is the reading taken
    by [import_legacy_json]. *)
Definition _init_data (clock : nat -> string) (now : string)
    (fs : filesystem) (s : store) : res store :=
  if 0 <? get_clip_count s then Ok s
  else
    found ← backup_manager.find_valid_backup fs;
    let clips := snd found in
    if match clips with Some c => py_truthy c | None => false end then
      x ← import_clips_value clock (default JNull clips) s; Ok (snd x)
    else
      match fs !! DATA_FILE with
      | Some bytes =>
          f ← read_file bytes;
          legacy ← backup_manager.import_legacy_json now (Some f);
          match legacy with
          | Some ((_ :: _) as l) => x ← import_clips clock l s; Ok (snd x)
          | _ => Ok s
          end
      | None => Ok s
      end.

(** ** Predicates used in the statements *)

(** The constraints of the table: PRIMARY KEY on [id], UNIQUE on [hash],
    and AUTOINCREMENT never handing out a rowid twice. *)
Definition wf_store (s : store) : Prop :=
  List.NoDup (List.map id (rows s)) /\
  List.NoDup (List.map hash (rows s)) /\
  Forall (fun r => id r <= sqlite_sequence s) (rows s).

(** [SELECT * FROM clips WHERE hash = ?] *)
Definition rows_with_hash (h : string) (s : store) : list row :=
  List.filter (fun r => String.eqb (hash r) h) (rows s).

(** No two pinned clips share a [pin_order]. *)
Definition pin_orders_distinct (s : store) : Prop :=
  forall r1 r2, In r1 (rows s) -> In r2 (rows s) ->
    is_pinned r1 = true -> is_pinned r2 = true ->
    pin_order r1 = pin_order r2 -> id r1 = id r2.


(** The write operations as commands, and the states they lead to. *)
Inductive op : Type :=
| AddClip (now clip_type content tg : string)
| PinClip (now : string) (clip_id : Z)
| UnpinClip (now : string) (clip_id : Z)
| DeleteClip (clip_id : Z)
| UpdateTag (clip_id : Z) (t : string)
| UpdateGroup (clip_id : Z) (g : string)
| MoveClip (stamp : nat -> string) (clip_id direction : Z) (pinned : bool)
| ClearHistory
| ClearPinned
| ImportClips (clock : nat -> string) (clips : list json).

Definition run_op (o : op) (s : store) : res store :=
  match o with
  | AddClip now clip_type content tg =>
      x ← add_clip now clip_type content tg s; Ok (snd x)
  | PinClip now clip_id => Ok (snd (pin_clip now clip_id s))
  | UnpinClip now clip_id => Ok (snd (unpin_clip now clip_id s))
  | DeleteClip clip_id => Ok (snd (delete_clip clip_id s))
  | UpdateTag clip_id t => Ok (snd (update_tag clip_id t s))
  | UpdateGroup clip_id g => Ok (snd (update_group clip_id g s))
  | MoveClip stamp clip_id direction pinned =>
      Ok (snd (move_clip stamp clip_id direction pinned s))
  | ClearHistory => Ok (snd (clear_history s))
  | ClearPinned => Ok (snd (clear_pinned s))
  | ImportClips clock clips => x ← import_clips clock clips s; Ok (snd x)
  end.

(** States reached from the empty store by operations that [allowed]
    admits; registering the callback and clearing the flag are always
    possible. *)
Inductive reachable_by (allowed : store -> op -> Prop) : store -> Prop :=
| reach_empty : reachable_by allowed empty_store
| reach_op s o s' :
    reachable_by allowed s -> allowed s o -> run_op o s = Ok s' ->
    reachable_by allowed s'
| reach_callback s :
    reachable_by allowed s -> reachable_by allowed (set_backup_callback s)
| reach_clear_flag s :
    reachable_by allowed s -> reachable_by allowed (clear_backup_flag s).

Definition reachable : store -> Prop := reachable_by (fun _ _ => True).

(** Every operation except [import_clips], with [move_clip] called in the
    pinned scope only for a clip that is pinned. *)
Definition interactive (s : store) (o : op) : Prop :=
  match o with
  | ImportClips _ _ => False
  | MoveClip _ clip_id _ true =>
      forall r, In r (rows s) -> id r = clip_id -> is_pinned r = true
  | _ => True
  end.

(** The table with the [pin_order] values of the clips [a] and [b]
    exchanged. *)
Definition swap_pin_orders (a b : row) (rs : list row) : list row :=
  List.map (fun x =>
              Row (id x) (type x) (content x) (hash x) (tag x) (group_name x) (is_pinned x)
                  (if id x =? id a then pin_order b
                   else if id x =? id b then pin_order a
                   else pin_order x)
                  (created_at x) (updated_at x)) rs.

(** ** Sample data for the closed examples *)

(** Two pinned clips, "a" pinned first and "b" second. *)
Definition two_pinned : store :=
  Store [Row 1 "text" "a" "0cc175b9c0f1b6a831c399e269772661" (Some EmptyString) EmptyString
             true 1 "2024-05-01T10:00:00" "2024-05-01T10:00:20";
         Row 2 "text" "b" "92eb5ffee6ae2fec3ad71c777531578f" (Some EmptyString) EmptyString
             true 2 "2024-05-01T10:00:10" "2024-05-01T10:00:30"]
        2 false false 0.

(** A sequence of operations, stopping at the first exception. *)
Fixpoint run_ops (os : list op) (s : store) : res store :=
  match os with
  | [] => Ok s
  | o :: os' => s1 ← run_op o s; run_ops os' s1
  end.

(** A legacy flat file with two pinned entries and no backups beside it. *)
Definition legacy_document : json :=
  JObj [("history", JArr []); ("pinned", JArr [JStr "a"; JStr "b"])].

Definition legacy_fs : filesystem := {[ DATA_FILE := Json.dump legacy_document ]}.

(** A disk on which no call fails. *)
Definition reliable : disk := Disk (fun _ => false) (fun _ => false).

(** Eleven snapshots of an empty store, thirty seconds apart. *)
Definition eleven_snapshots : list backup_manager.snapshot :=
  List.map (fun ts => (ts, "2024-05-01T10:00:00", []))
    ["20240501_100000"; "20240501_100030"; "20240501_100100"; "20240501_100130";
     "20240501_100200"; "20240501_100230"; "20240501_100300"; "20240501_100330";
     "20240501_100400"; "20240501_100430"; "20240501_100500"].

(** ** [storage.py]: the other read operations *)

(** [SELECT * FROM clips WHERE id = ?] then [fetchone()] *)
Definition get_clip_by_id (clip_id : Z) (s : store) : option json :=
  option_map (fun r => JObj (row_dict r)) (fetchone (fun r => id r =? clip_id) (rows s)).

(** [SELECT * FROM clips WHERE hash = ?] then [fetchone()] *)
Definition get_clip_by_hash (content_hash : string) (s : store) : option json :=
  option_map (fun r => JObj (row_dict r))
    (fetchone (fun r => String.eqb (hash r) content_hash) (rows s)).

Definition get_history_count (s : store) : Z :=
  Z.of_nat (length (List.filter (fun r => negb (is_pinned r)) (rows s))).

Definition get_pinned_count (s : store) : Z :=
  Z.of_nat (length (List.filter is_pinned (rows s))).

Definition is_duplicate (content : string) (s : store) : bool :=
  let content_hash := compute_hash content in
  match fetchone (fun r => String.eqb (hash r) content_hash) (rows s) with
  | Some _ => true
  | None => false
  end.

(** [SELECT DISTINCT group_name ... ORDER BY group_name]: one more name
    put in its place in a list that is sorted and has no name twice. *)
Fixpoint insert_group (g : string) (l : list string) : list string :=
  match l with
  | [] => [g]
  | h :: t =>
      match String.compare g h with
      | Lt => g :: l
      | Eq => l
      | Gt => h :: insert_group g t
      end
  end.

Definition get_groups (s : store) : list string :=
  fold_right insert_group []
    (List.map group_name
       (List.filter (fun r => negb (String.eqb (group_name r) EmptyString) && is_pinned r)
          (rows s))).

Definition pinned_columns : list string :=
  ["id"; "type"; "content"; "hash"; "tag"; "group_name"; "created_at"; "updated_at"].

Definition get_clips_by_group (g : string) (s : store) : list json :=
  List.map (select_columns pinned_columns)
    (order_by_pin_order_desc
       (List.filter (fun r => is_pinned r && String.eqb (group_name r) g) (rows s))).

(** The column [group_name] is never NULL here: every statement that
    writes it binds a [str]. *)
Definition get_ungrouped_pinned (limit offset : Z) (s : store) : list json :=
  List.map (select_columns pinned_columns)
    (limit_offset limit offset
       (order_by_pin_order_desc
          (List.filter (fun r => is_pinned r && String.eqb (group_name r) EmptyString)
             (rows s)))).

(** The ids of the history clips in the order in which [get_history] and
    the history branch of [move_clip] see them. *)
Definition history_ids (s : store) : list Z :=
  List.map id (order_by_updated_desc (List.filter (fun r => negb (is_pinned r)) (rows s))).

(** ** [main.py]: paging through the history list *)

Definition PAGE_SIZE_HISTORY : Z := 20.

(** The pagination state of [ClientApp] for the history list, and the
    clips shown in [list_history]. *)
Record history_view : Type := HistoryView {
  history_offset : Z;
  history_has_more : bool;
  list_history : list json
}.

(** What [refresh_lists] does to the history list. *)
Definition refresh_history (s : store) : history_view :=
  let history_clips := get_history PAGE_SIZE_HISTORY 0 s in
  HistoryView (Z.of_nat (length history_clips))
    (negb (Z.of_nat (length history_clips) <? PAGE_SIZE_HISTORY))
    history_clips.

Definition _load_more_history (s : store) (v : history_view) : history_view :=
  let clips := get_history PAGE_SIZE_HISTORY (history_offset v) s in
  let has_more :=
    if Z.of_nat (length clips) <? PAGE_SIZE_HISTORY then false else history_has_more v in
  match clips with
  | [] => HistoryView (history_offset v) has_more (list_history v)
  | _ :: _ =>
      HistoryView (history_offset v + Z.of_nat (length clips)) has_more
        (list_history v ++ clips)
  end.

(** [_on_history_scroll] once the scroll bar is near the bottom. *)
Definition _on_history_scroll (s : store) (v : history_view) : history_view :=
  if negb (history_has_more v) then v else _load_more_history s v.

(** What import keeps of a row: a new rowid, no group, [pin_order] 0. *)
Definition imported_row (rowid : Z) (r : row) : row :=
  Row rowid (type r) (content r) (hash r) (tag r) EmptyString (is_pinned r) 0
      (created_at r) (updated_at r).

Fixpoint imported_rows (rowid : Z) (l : list row) : list row :=
  match l with
  | [] => []
  | r :: l' => imported_row (rowid + 1) r :: imported_rows (rowid + 1) l'
  end.

(** The rows in the order of [get_all_clips]. *)
Definition all_clips_rows (s : store) : list row :=
  order_by_updated_desc (List.filter is_pinned (rows s)) ++
  order_by_updated_desc (List.filter (fun r => negb (is_pinned r)) (rows s)).

(** [ORDER BY is_pinned DESC, updated_at DESC] as the relation it asks
    for between a row and a row that comes after it; text is compared
    byte by byte. *)
Definition all_clips_order (a b : row) : Prop :=
  (is_pinned a = true /\ is_pinned b = false) \/
  (is_pinned a = is_pinned b /\ str_ge (updated_at a) (updated_at b)).

(** A row whose text columns hold Python strings: each decodes. *)
Definition row_decodes (r : row) : bool :=
  Json.utf8_valid (type r) && Json.utf8_valid (content r) && Json.utf8_valid (hash r) &&
  match tag r with Some t => Json.utf8_valid t | None => true end &&
  Json.utf8_valid (group_name r) && Json.utf8_valid (created_at r) &&
  Json.utf8_valid (updated_at r).

(** A row that [import_clips] can insert again: its type passes the CHECK
    and its hash is not the empty string (which [import_clips] would
    replace by the digest of the content). *)
Definition row_importable (r : row) : Prop :=
  check_type (type r) = true /\ hash r <> EmptyString.

(** A dictionary from which [import_clips] reads the columns of [r]. *)
Definition record_of (d : dict) (r : row) : Prop :=
  dict_get d "content" = Some (JStr (content r)) /\
  dict_get d "type" = Some (JStr (type r)) /\
  dict_get d "tag" = Some (match tag r with Some t => JStr t | None => JNull end) /\
  (exists v, dict_get d "is_pinned" = Some v /\ py_truthy v = is_pinned r) /\
  dict_get d "hash" = Some (JStr (hash r)) /\
  dict_get d "created_at" = Some (JStr (created_at r)) /\
  dict_get d "updated_at" = Some (JStr (updated_at r)).

(** ** [main.py]: writing a backup *)

(** [ClientApp._perform_backup], at the clock readings [timestamp] and
    [created_at] of [create_backup] *)
Definition _perform_backup (d : disk) (timestamp created_at : string)
    (s : store) (fs : filesystem) : store * filesystem :=
  let clips := get_all_clips s in
  let result := backup_manager.create_backup d timestamp created_at clips fs in
  (clear_backup_flag s, snd result).

(** ** [backup.py]: the other methods of [BackupManager] *)

Module BackupManager.

(** [sorted(glob.glob(pattern), reverse=True)]: the pattern is the one of
    [backup_manager.get_backup_files]. *)
Definition get_all_backups (fs : filesystem) : list string :=
  sorted_reverse (List.filter backup_manager.glob_match (List.map fst (map_to_list fs))).

Definition get_latest_backup (fs : filesystem) : option string :=
  match get_all_backups fs with
  | [] => None
  | newest :: _ => Some newest
  end.

(** [for old_backup in backups[MAX_BACKUPS:]: os.remove(old_backup)],
    each removal inside [try ... except Exception: pass] *)
Definition _rotate_backups (d : disk) (fs : filesystem) : filesystem :=
  fold_left (backup_manager.try_remove d) (skipn backup.MAX_BACKUPS (get_all_backups fs)) fs.

(** [_do_backup], at the clock readings [created_at] (taken first) and
    [timestamp]. A failure of [open], of the write of [json.dump] or of
    [os.replace] raises inside the [try]: the exception is printed, the
    flag stays set, and a temporary file that was opened stays where it
    is. *)
Definition _do_backup (d : disk) (created_at timestamp : string)
    (s : store) (fs : filesystem) : store * filesystem :=
  if negb (need_backup s) then (s, fs)
  else
    let clips := get_all_clips s in
    let backup_data := backup.backup_data created_at clips in
    let filename :=
      String.append backup.BACKUP_PREFIX (String.append timestamp backup.BACKUP_SUFFIX) in
    let filepath := backup_manager.in_backup_dir filename in
    let temp_filepath := String.append filepath ".tmp" in
    let text := Json.dump (JObj backup_data) in
    if write_fails d temp_filepath then (s, fs)
    else if write_fails d filepath then
      match partial_write d filepath with
      | Some n => (s, <[temp_filepath := String.substring 0 n text]> fs)
      | None => (s, <[temp_filepath := text]> fs)
      end
    else
      let fs1 := <[temp_filepath := text]> fs in
      let fs2 := match fs1 !! temp_filepath with
                 | Some f => <[filepath := f]> (delete temp_filepath fs1)
                 | None => fs1
                 end in
      (clear_backup_flag s, _rotate_backups d fs2).

(** [shutdown], the timer apart *)
Definition shutdown (d : disk) (created_at timestamp : string)
    (s : store) (fs : filesystem) : store * filesystem :=
  if need_backup s then _do_backup d created_at timestamp s fs else (s, fs).

(** [for item in v: item["is_pinned"] = pinned; clips.append(item)]: an
    item that is not a dictionary has no item assignment of this kind,
    and a value that cannot be iterated raises as well. *)
Fixpoint mark_items (pinned : bool) (items : list json) : res (list json) :=
  match items with
  | [] => Ok []
  | JObj d :: rest =>
      clips ← mark_items pinned rest;
      Ok (JObj (dict_set d "is_pinned" (JBool pinned)) :: clips)
  | _ :: _ => Raise TypeError
  end.

Definition mark_all (pinned : bool) (v : json) : res (list json) :=
  match py_iter v with
  | Some items => mark_items pinned items
  | None => Raise TypeError
  end.

(** [restore_from_backup(filepath)]; nothing catches what the loops or
    [import_clips] raise. *)
Definition restore_from_backup (clock : nat -> string) (filepath : option string)
    (s : store) (fs : filesystem) : res ((bool * Z) * store) :=
  let filepath :=
    match filepath with
    | None => get_latest_backup fs
    | Some p => Some p
    end in
  match filepath with
  | None => Ok ((false, 0), s)
  | Some p =>
      if String.eqb p EmptyString then Ok ((false, 0), s)
      else
        v ← backup.validate_backup fs p;
        match v with
        | (true, Some (JObj data)) =>
            pinned ← mark_all true (dict_get_or data "pinned" (JArr []));
            history ← mark_all false (dict_get_or data "history" (JArr []));
            x ← import_clips clock (pinned ++ history) s;
            Ok ((true, fst x), snd x)
        | (true, Some _) => Raise AttributeError
        | _ => Ok ((false, 0), s)
        end
  end.

(** The loop of [try_recovery] over the backups, newest first *)
Fixpoint try_backups (clock : nat -> string) (backups : list string)
    (s : store) (fs : filesystem) : res (option Z * store) :=
  match backups with
  | [] => Ok (None, s)
  | backup_path :: rest =>
      r ← restore_from_backup clock (Some backup_path) s fs;
      let '((success, count), s1) := r in
      if success && (0 <? count) then Ok (Some count, s1)
      else try_backups clock rest s1 fs
  end.

(** The clip built for a legacy entry: a dictionary is marked in place,
    anything else becomes the content of a text clip. *)
Definition legacy_item (pinned : bool) (item : json) : json :=
  match item with
  | JObj d => JObj (dict_set d "is_pinned" (JBool pinned))
  | _ => JObj [("type", JStr "text"); ("content", item); ("is_pinned", JBool pinned)]
  end.

(** [try_recovery]: the backups, then the legacy file, whose handling is
    inside [try ... except Exception: pass]. *)
Definition try_recovery (clock : nat -> string) (s : store) (fs : filesystem)
  : res ((bool * Z) * store) :=
  r ← try_backups clock (get_all_backups fs) s fs;
  match r with
  | (Some count, s1) => Ok ((true, count), s1)
  | (None, s1) =>
      match fs !! DATA_FILE with
      | None => Ok ((false, 0), s1)
      | Some bytes =>
          match read_file bytes with
          | Ok (Document (JObj data)) =>
              match py_iter (dict_get_or data "pinned" (JArr [])),
                    py_iter (dict_get_or data "history" (JArr [])) with
              | Some pinned, Some history =>
                  let clips :=
                    List.map (legacy_item true) pinned ++
                    List.map (legacy_item false) history in
                  match import_clips clock clips s1 with
                  | Ok (count, s2) =>
                      if 0 <? count then Ok ((true, count), s2) else Ok ((false, 0), s2)
                  | Raise _ => Ok ((false, 0), s1)
                  | Beyond => Beyond
                  end
              | _, _ => Ok ((false, 0), s1)
              end
          | Ok _ => Ok ((false, 0), s1)
          | Raise _ => Ok ((false, 0), s1)
          | Beyond => Beyond
          end
      end
  end.

End BackupManager.

(** ** More sample data *)

(** The snapshot file [create_backup] writes for [two_pinned]. *)
Definition two_pinned_snapshot : string :=
  Json.dump (JObj (backup_manager.backup_data "2024-05-01T10:00:00"
                     (get_all_clips two_pinned))).

(** A backup directory whose newest file has one byte of a clip's content
    changed (offset 131, the "b") and whose older file is intact. *)
Definition cascade_fs : filesystem :=
  <[ "backups/clipboard_backup_20240501_100030.json" := set_byte 131 "X" two_pinned_snapshot ]>
    {[ "backups/clipboard_backup_20240501_100000.json" := two_pinned_snapshot ]}.

(** A file that validates although its [clips] entry is [null]. *)
Definition null_clips_snapshot : string :=
  Json.dump (JObj [("clips", JNull);
                   ("checksum", JStr (backup_manager.compute_checksum (Json.dumps JNull)))]).

(** The same directory with such a file as the newest. *)
Definition null_first_fs : filesystem :=
  <[ "backups/clipboard_backup_20240501_100100.json" := null_clips_snapshot ]> cascade_fs.

(** * Properties *)

(** ** Test vectors for the library models *)

Example md5_empty :
  Hashlib.md5_hexdigest EmptyString = "d41d8cd98f00b204e9800998ecf8427e".
Proof. vm_compute. reflexivity. Qed.

Example md5_a :
  Hashlib.md5_hexdigest "a" = "0cc175b9c0f1b6a831c399e269772661".
Proof. vm_compute. reflexivity. Qed.

Example md5_two_blocks :
  Hashlib.md5_hexdigest
    "12345678901234567890123456789012345678901234567890123456789012345678901234567890"
  = "57edf4a22be3c955ac49da2e2107b67a".
Proof. vm_compute. reflexivity. Qed.

Example sha256_abc :
  Hashlib.sha256_hexdigest "abc"
  = "ba7816bf8f01cfea414140de5dae2223b00361a396177a9cb410ff61f20015ad".
Proof. vm_compute. reflexivity. Qed.

Example sha256_empty_list :
  Hashlib.sha256_hexdigest "[]"
  = "4f53cda18c2baa0c0354bb5f9a3ecbe5ed12ab4d8e11ba873c2f11161202b945".
Proof. vm_compute. reflexivity. Qed.

Example dumps_sample :
  Json.dumps (JArr [JObj [("tag", JNull); ("id", JNum 12); ("content", JStr "a")]])
  = String.append "[{" (String.append (Json.quote "content") (String.append ": "
      (String.append (Json.quote "a") (String.append ", " (String.append (Json.quote "id")
      (String.append ": 12, " (String.append (Json.quote "tag") ": null}]"))))))).
Proof. vm_compute. reflexivity. Qed.

(** ** Storage: rows, keys and the table constraints *)

Section RowLemmas.

Lemma update_id_keeps_ids clip_id f rs :
  (forall r, id (f r) = id r) ->
  List.map id (update_id clip_id f rs) = List.map id rs.
Proof.
  intros Hf. unfold update_id. rewrite List.map_map.
  apply List.map_ext. intros r. destruct (id r =? clip_id); auto.
Qed.

Lemma update_id_keeps_hashes clip_id f rs :
  (forall r, hash (f r) = hash r) ->
  List.map hash (update_id clip_id f rs) = List.map hash rs.
Proof.
  intros Hf. unfold update_id. rewrite List.map_map.
  apply List.map_ext. intros r. destruct (id r =? clip_id); auto.
Qed.

Lemma update_id_Forall_id (P : Z -> Prop) clip_id f rs :
  (forall r, id (f r) = id r) ->
  Forall (fun r => P (id r)) rs ->
  Forall (fun r => P (id r)) (update_id clip_id f rs).
Proof.
  intros Hf H. unfold update_id. apply List.Forall_forall. intros x Hx.
  apply List.in_map_iff in Hx as (r & <- & Hr).
  rewrite List.Forall_forall in H. specialize (H r Hr).
  destruct (id r =? clip_id); [rewrite Hf|]; exact H.
Qed.

(** Looking a row up by a key that the update leaves alone. *)
Lemma fetchone_update_id (p : row -> bool) clip_id f rs :
  (forall r, p (f r) = p r) ->
  fetchone p (update_id clip_id f rs)
  = option_map (fun r => if id r =? clip_id then f r else r) (fetchone p rs).
Proof.
  intros Hp. unfold fetchone, update_id.
  induction rs as [|r rs IH]; simpl; [reflexivity|].
  replace (p (if id r =? clip_id then f r else r)) with (p r)
    by (destruct (id r =? clip_id); [rewrite Hp|]; reflexivity).
  destruct (p r); [reflexivity | exact IH].
Qed.

Lemma filter_update_id (p : row -> bool) clip_id f rs :
  (forall r, p (f r) = p r) ->
  List.filter p (update_id clip_id f rs) = update_id clip_id f (List.filter p rs).
Proof.
  intros Hp. unfold update_id.
  induction rs as [|r rs IH]; simpl; [reflexivity|].
  replace (p (if id r =? clip_id then f r else r)) with (p r)
    by (destruct (id r =? clip_id); [rewrite Hp|]; reflexivity).
  destruct (p r); simpl; rewrite IH; reflexivity.
Qed.

Lemma filter_none (p : row -> bool) rs :
  (forall r, In r rs -> p r = false) -> List.filter p rs = [].
Proof.
  induction rs as [|r rs IH]; simpl; intros H; [reflexivity|].
  rewrite (H r (or_introl eq_refl)). apply IH. intros x Hx. apply H. now right.
Qed.

(** Under UNIQUE(hash) a hash selects exactly the row that carries it. *)
Lemma unique_hash_filter (e : row) rs :
  List.NoDup (List.map hash rs) -> In e rs ->
  List.filter (fun r => String.eqb (hash r) (hash e)) rs = [e].
Proof.
  induction rs as [|r rs IH]; simpl; intros Hnd Hin; [contradiction|].
  apply List.NoDup_cons_iff in Hnd as [Hnotin Hnd].
  destruct Hin as [-> | Hin].
  - rewrite String.eqb_refl. f_equal. apply filter_none.
    intros x Hx. apply String.eqb_neq. intros Heq. apply Hnotin.
    rewrite <- Heq. now apply List.in_map.
  - destruct (String.eqb (hash r) (hash e)) eqn:E.
    + apply String.eqb_eq in E. exfalso. apply Hnotin.
      rewrite E. now apply List.in_map.
    + now apply IH.
Qed.

Lemma fetchone_Some (p : row -> bool) rs r :
  fetchone p rs = Some r -> In r rs /\ p r = true.
Proof. apply List.find_some. Qed.

Lemma fetchone_None (p : row -> bool) rs :
  fetchone p rs = None -> forall r, In r rs -> p r = false.
Proof. apply List.find_none. Qed.

(** A condition met by one row only fetches that row. *)
Lemma fetchone_unique (p : row -> bool) rs t :
  In t rs -> p t = true -> (forall r, In r rs -> p r = true -> r = t) ->
  fetchone p rs = Some t.
Proof.
  intros Hin Hp Huniq. destruct (fetchone p rs) as [r|] eqn:E.
  - apply fetchone_Some in E as [Hr Hpr]. f_equal. now apply Huniq.
  - rewrite (fetchone_None _ _ E t Hin) in Hp. discriminate.
Qed.

End RowLemmas.

(** ** C1: deduplicating insertion *)

Lemma fetchone_app_r (p : row -> bool) rs r :
  List.filter p rs = [] -> p r = true -> fetchone p (rs ++ [r]) = Some r.
Proof.
  intros Hnone Hp. unfold fetchone.
  induction rs as [|x rs IH]; simpl in *.
  - now rewrite Hp.
  - destruct (p x); [discriminate | now apply IH].
Qed.

Lemma fetchone_filter_nil (p : row -> bool) rs :
  List.filter p rs = [] -> fetchone p rs = None.
Proof.
  unfold fetchone. induction rs as [|x rs IH]; simpl; [reflexivity|].
  destruct (p x); [discriminate | exact IH].
Qed.

(** C1. For every content string, two calls of [add_clip] return the same
    id, the second one with [is_new = False]; afterwards exactly one row
    carries the content's hash and its [updated_at] is the second call's
    clock reading. When no row carried the hash before, the first call
    returns a fresh id with [is_new = True] and appends a row that is
    unpinned, has [pin_order] 0 and both timestamps equal to the first
    reading; when a row [e] carried it, the first call returns [e]'s id
    with [is_new = False]. *)
Theorem add_clip_dedup (now1 now2 ty1 ty2 content tag1 tag2 : string) (s : store) :
  wf_store s ->
  check_type ty1 = true ->
  exists (i : Z) (is_new : bool) (s1 s2 : store) (r : row),
    add_clip now1 ty1 content tag1 s = Ok ((i, is_new), s1) /\
    add_clip now2 ty2 content tag2 s1 = Ok ((i, false), s2) /\
    rows_with_hash (compute_hash content) s2 = [r] /\
    id r = i /\ updated_at r = now2 /\
    (rows_with_hash (compute_hash content) s = [] ->
       is_new = true /\ ~ In i (List.map id (rows s)) /\
       rows s1 = rows s ++ [Row i ty1 content (compute_hash content) (Some tag1)
                                EmptyString false 0 now1 now1]) /\
    (forall e, In e (rows s) -> hash e = compute_hash content ->
       is_new = false /\ i = id e).
Proof.
  intros (Hid & Hhash & Hseq) Hty.
  set (h := compute_hash content).
  set (p := fun r : row => String.eqb (hash r) h).
  assert (Hp : forall ts r, p (set_updated_at ts r) = p r) by reflexivity.
  unfold add_clip. fold h. fold p.
  destruct (fetchone p (rows s)) as [e|] eqn:Efetch.
  - (* the content is already stored *)
    apply fetchone_Some in Efetch as [Hin He].
    assert (Hh : hash e = h) by (now apply String.eqb_eq).
    assert (Hfilter : List.filter p (rows s) = [e]).
    { unfold p. rewrite <- Hh. now apply unique_hash_filter. }
    eexists (id e), false, _, _, _. split; [reflexivity|].
    cbn [rows _mark_dirty with_rows].
    rewrite fetchone_update_id by apply Hp.
    assert (Hf : fetchone p (rows s) = Some e).
    { unfold fetchone. revert Hfilter. clear. induction (rows s) as [|x l IH]; simpl.
      - discriminate.
      - destruct (p x); [now intros [= ->] | exact IH]. }
    rewrite Hf. cbn [option_map]. rewrite Z.eqb_refl. cbn [id set_updated_at].
    split; [reflexivity|].
    unfold rows_with_hash. fold h. fold p. cbn [rows _mark_dirty with_rows].
    rewrite !filter_update_id by apply Hp. rewrite Hfilter.
    cbn [update_id List.map]. rewrite Z.eqb_refl. cbn [id set_updated_at]. rewrite Z.eqb_refl.
    split; [reflexivity|]. split; [reflexivity|]. split; [reflexivity|].
    split.
    + intros Hnil. rewrite Hnil in Hfilter. discriminate.
    + intros e' Hin' Hh'. split; [reflexivity|].
      assert (He' : In e' (List.filter p (rows s))).
      { apply List.filter_In. split; [exact Hin'|]. now apply String.eqb_eq. }
      rewrite Hfilter in He'. destruct He' as [<- | []]. reflexivity.
  - (* first submission of this content *)
    rewrite Hty.
    set (fresh := sqlite_sequence s + 1).
    set (new := Row fresh ty1 content h (Some tag1) EmptyString false 0 now1 now1).
    assert (Hnone : List.filter p (rows s) = []).
    { apply filter_none. now apply fetchone_None. }
    assert (Hfresh : ~ In fresh (List.map id (rows s))).
    { intros Hin. apply List.in_map_iff in Hin as (x & Hx & Hxin).
      rewrite List.Forall_forall in Hseq. specialize (Hseq x Hxin). unfold fresh in Hx. lia. }
    assert (Hlast : (if fresh =? 0 then 0 else fresh) = fresh).
    { destruct (Z.eqb_spec fresh 0) as [E|]; [now rewrite E | reflexivity]. }
    unfold insert_row. cbn [sqlite_sequence]. fold fresh. rewrite Hlast. fold new.
    eexists fresh, true, _, _, _. split; [reflexivity|].
    cbn [rows _mark_dirty with_rows].
    assert (Hpnew : p new = true) by (unfold p, new; cbn [hash]; apply String.eqb_refl).
    rewrite (fetchone_app_r p (rows s) new Hnone Hpnew). cbn [id new].
    split; [reflexivity|].
    unfold rows_with_hash. fold h. fold p. cbn [rows _mark_dirty with_rows].
    rewrite filter_update_id by apply Hp.
    rewrite List.filter_app, Hnone. cbn [List.filter app]. rewrite Hpnew.
    cbn [update_id List.map id new]. rewrite Z.eqb_refl.
    split; [reflexivity|]. split; [reflexivity|]. split; [reflexivity|].
    split.
    + intros _. split; [reflexivity|]. split; [exact Hfresh | reflexivity].
    + intros e Hin Hh. exfalso.
      assert (He : In e (List.filter p (rows s))).
      { apply List.filter_In. split; [exact Hin|]. now apply String.eqb_eq. }
      rewrite Hnone in He. exact He.
Qed.

Lemma add_clip_dedup_witness :
  wf_store empty_store /\ check_type "text" = true /\
  exists (i : Z) (is_new : bool) (s1 s2 : store) (r : row),
    add_clip "2024-05-01T10:00:00" "text" "hello" EmptyString empty_store
      = Ok ((i, is_new), s1) /\
    add_clip "2024-05-01T10:00:09" "text" "hello" EmptyString s1 = Ok ((i, false), s2) /\
    rows_with_hash (compute_hash "hello") s2 = [r] /\
    id r = i /\ updated_at r = "2024-05-01T10:00:09" /\
    (rows_with_hash (compute_hash "hello") empty_store = [] ->
       is_new = true /\ ~ In i (List.map id (rows empty_store)) /\
       rows s1 = rows empty_store ++
                 [Row i "text" "hello" (compute_hash "hello") (Some EmptyString)
                      EmptyString false 0 "2024-05-01T10:00:00" "2024-05-01T10:00:00"]) /\
    (forall e, In e (rows empty_store) -> hash e = compute_hash "hello" ->
       is_new = false /\ i = id e).
Proof.
  assert (Hwf : wf_store empty_store).
  { repeat split; simpl; constructor. }
  split; [exact Hwf|]. split; [reflexivity|].
  exact (add_clip_dedup "2024-05-01T10:00:00" "2024-05-01T10:00:09" "text" "text"
           "hello" EmptyString EmptyString empty_store Hwf eq_refl).
Defined.

(** ** C2: what [import_clips] counts *)

Lemma bind_text_not_integrity (v : json) : bind_text v <> Raise IntegrityError.
Proof.
  destruct v; simpl; try discriminate.
  destruct ((- 2 ^ 63 <=? z) && (z <? 2 ^ 63)); discriminate.
Qed.

Lemma bind_not_integrity {A B} (m : res A) (f : A -> res B) :
  m <> Raise IntegrityError -> (forall a, f a <> Raise IntegrityError) ->
  (m ≫= f) <> Raise IntegrityError.
Proof.
  intros Hm Hf. destruct m as [a|e|]; cbn [mbind res_bind]; [apply Hf | | discriminate].
  intros [= ->]. now apply Hm.
Qed.

Lemma execute_not_integrity ty c h t p cr up s :
  execute_insert_or_ignore ty c h t p cr up s <> Raise IntegrityError.
Proof.
  unfold execute_insert_or_ignore.
  repeat (apply bind_not_integrity; [apply bind_text_not_integrity | intros ?]).
  discriminate.
Qed.

(** The counter is bumped for every record the loop gets through, whether
    or not its row was inserted. *)
Lemma import_loop_count clock i clips count s n s' :
  import_loop clock i clips count s = Ok (n, s') ->
  n = count + Z.of_nat (length clips).
Proof.
  revert i count s. induction clips as [|clip rest IH]; intros i count s; simpl.
  - intros [= <- <-]. lia.
  - destruct clip; try discriminate.
    destruct (hash_or_compute d _) as [h| |]; cbn [mbind res_bind]; try discriminate.
    destruct (execute_insert_or_ignore _ _ _ _ _ _ _ s) as [s1|e|] eqn:E;
      try discriminate.
    + intros H. apply IH in H. lia.
    + destruct e; try discriminate.
      exfalso. exact (execute_not_integrity _ _ _ _ _ _ _ _ E).
Qed.

Lemma import_clips_count clock clips s n s' :
  import_clips clock clips s = Ok (n, s') -> n = Z.of_nat (length clips).
Proof. unfold import_clips. intros H. apply import_loop_count in H. lia. Qed.

(** C2. Importing the records [{"content": "a"}, {"content": "b"}] into
    the empty store inserts two rows and returns 2. Importing the same
    records again inserts nothing, the rows of the table are the same, and
    the call returns 2 again, not 0: the count is of records processed,
    not of rows inserted. *)
Theorem import_clips_second_call_counts_skipped :
  let now := "2024-05-01T10:00:00" in
  let records := [JObj [("content", JStr "a")]; JObj [("content", JStr "b")]] in
  let table :=
    [Row 1 "text" "a" "0cc175b9c0f1b6a831c399e269772661" (Some EmptyString)
         EmptyString false 0 now now;
     Row 2 "text" "b" "92eb5ffee6ae2fec3ad71c777531578f" (Some EmptyString)
         EmptyString false 0 now now] in
  import_clips (fun _ => now) records empty_store
    = Ok (2, Store table 2 false false 0) /\
  exists s2,
    import_clips (fun _ => now) records (Store table 2 false false 0) = Ok (2, s2) /\
    rows s2 = table.
Proof.
  cbv zeta. split; [vm_compute; reflexivity|].
  eexists. split; vm_compute; reflexivity.
Qed.

(** ** The table constraints hold in every reachable state *)

Section Constraints.

Lemma NoDup_snoc {A} (l : list A) (x : A) :
  List.NoDup l -> ~ In x l -> List.NoDup (l ++ [x]).
Proof.
  induction l as [|y l IH]; simpl; intros Hnd Hx.
  - constructor; [intros [] | constructor].
  - apply List.NoDup_cons_iff in Hnd as [Hy Hnd].
    constructor.
    + rewrite List.in_app_iff. intros [H | [-> | []]]; [now apply Hy | apply Hx; now left].
    + apply IH; [exact Hnd | intros H; apply Hx; now right].
Qed.

Lemma NoDup_map_filter {A B} (f : A -> B) (p : A -> bool) (l : list A) :
  List.NoDup (List.map f l) -> List.NoDup (List.map f (List.filter p l)).
Proof.
  induction l as [|x l IH]; simpl; intros Hnd; [constructor|].
  apply List.NoDup_cons_iff in Hnd as [Hx Hnd].
  destruct (p x); simpl; [|now apply IH].
  constructor; [|now apply IH].
  intros Hin. apply Hx. apply List.in_map_iff in Hin as (y & Hy & Hyin).
  apply List.filter_In in Hyin as [Hyin _]. rewrite <- Hy. now apply List.in_map.
Qed.

Lemma wf_mark_dirty s : wf_store s -> wf_store (_mark_dirty s).
Proof. intros H. exact H. Qed.

Lemma wf_same_keys s rs :
  wf_store s ->
  List.map id rs = List.map id (rows s) ->
  List.map hash rs = List.map hash (rows s) ->
  wf_store (with_rows s rs).
Proof.
  intros (Hid & Hh & Hseq) Eid Eh. unfold wf_store. cbn [rows with_rows sqlite_sequence].
  rewrite Eid, Eh. repeat split; try assumption.
  apply (List.Forall_map id (fun x => x <= sqlite_sequence s)).
  rewrite Eid. now apply List.Forall_map.
Qed.

Lemma wf_update_id s clip_id f :
  (forall r, id (f r) = id r) -> (forall r, hash (f r) = hash r) ->
  wf_store s -> wf_store (with_rows s (update_id clip_id f (rows s))).
Proof.
  intros Hid Hh Hwf. apply wf_same_keys; [exact Hwf | |].
  - now apply update_id_keeps_ids.
  - now apply update_id_keeps_hashes.
Qed.

Lemma wf_delete_where s p :
  wf_store s -> wf_store (with_rows s (delete_where p (rows s))).
Proof.
  intros (Hid & Hh & Hseq). unfold wf_store, delete_where.
  cbn [rows with_rows sqlite_sequence]. repeat split.
  - now apply NoDup_map_filter.
  - now apply NoDup_map_filter.
  - apply List.Forall_forall. intros r Hr. apply List.filter_In in Hr as [Hr _].
    rewrite List.Forall_forall in Hseq. now apply Hseq.
Qed.

Lemma wf_insert_row ty c h t p cr up s :
  wf_store s ->
  existsb (fun r => String.eqb (hash r) h) (rows s) = false ->
  wf_store (insert_row ty c h t p cr up s).
Proof.
  intros (Hid & Hh & Hseq) Hnew. unfold wf_store, insert_row.
  cbn [rows sqlite_sequence]. rewrite !List.map_app. cbn [List.map id hash].
  rewrite List.Forall_forall in Hseq. repeat split.
  - apply NoDup_snoc; [exact Hid|]. intros Hin.
    apply List.in_map_iff in Hin as (x & Hx & Hxin). specialize (Hseq x Hxin). lia.
  - apply NoDup_snoc; [exact Hh|]. intros Hin.
    apply List.in_map_iff in Hin as (x & Hx & Hxin).
    assert (existsb (fun r => String.eqb (hash r) h) (rows s) = true) as E.
    { apply List.existsb_exists. exists x. split; [exact Hxin|]. now apply String.eqb_eq. }
    congruence.
  - apply List.Forall_forall. intros r Hr. apply List.in_app_iff in Hr as [Hr | [<- | []]].
    + specialize (Hseq r Hr). lia.
    + cbn [id]. lia.
Qed.

Lemma rewrite_times_keys {K} (key : row -> K) stamp i ids rs :
  (forall ts r, key (set_updated_at ts r) = key r) ->
  List.map key (rewrite_times stamp i ids rs) = List.map key rs.
Proof.
  intros Hkey. revert i rs. induction ids as [|cid ids IH]; intros i rs; simpl.
  - reflexivity.
  - rewrite IH. unfold update_id. rewrite List.map_map. apply List.map_ext.
    intros r. destruct (id r =? cid); [apply Hkey | reflexivity].
Qed.

Lemma wf_add_clip now ty c t s x s' :
  wf_store s -> add_clip now ty c t s = Ok (x, s') -> wf_store s'.
Proof.
  intros Hwf. unfold add_clip.
  destruct (fetchone _ (rows s)) as [e|] eqn:E.
  - intros [= _ <-]. apply wf_mark_dirty. now apply wf_update_id.
  - destruct (check_type ty); [|discriminate].
    intros [= _ <-]. apply wf_mark_dirty. apply wf_insert_row; [exact Hwf|].
    destruct (existsb _ (rows s)) eqn:Ex; [|reflexivity].
    apply List.existsb_exists in Ex as (r & Hr & Hh).
    pose proof (fetchone_None _ _ E r Hr) as Hn. simpl in Hn. congruence.
Qed.

Lemma wf_move_clip stamp clip_id d p s :
  wf_store s -> wf_store (snd (move_clip stamp clip_id d p s)).
Proof.
  intros Hwf. unfold move_clip. destruct p.
  - destruct (fetchone _ (rows s)) as [cur|]; [|exact Hwf].
    destruct (fetchone _ (rows s)) as [target|]; [|exact Hwf].
    cbn [snd]. apply wf_mark_dirty. apply wf_same_keys; [exact Hwf | |].
    + now rewrite !update_id_keeps_ids.
    + now rewrite !update_id_keeps_hashes.
  - destruct (index_of _ _) as [idx|]; [|exact Hwf].
    destruct (_ && _); [|exact Hwf].
    cbn [snd]. apply wf_mark_dirty. apply wf_same_keys; [exact Hwf | |].
    + now apply rewrite_times_keys.
    + now apply rewrite_times_keys.
Qed.

Lemma wf_skip_rowid s : wf_store s -> wf_store (skip_rowid s).
Proof.
  intros (Hid & Hh & Hseq). repeat split; [exact Hid | exact Hh |].
  cbn [rows sqlite_sequence skip_rowid]. eapply List.Forall_impl; [|exact Hseq].
  cbn. intros r Hr. lia.
Qed.

Lemma wf_insert_or_ignore ty c h t p cr up s :
  wf_store s -> wf_store (insert_or_ignore ty c h t p cr up s).
Proof.
  intros Hwf. unfold insert_or_ignore.
  destruct ty, c, h, cr, up; try (now apply wf_skip_rowid).
  destruct (check_type _); cbn [andb]; [|now apply wf_skip_rowid].
  destruct (existsb _ (rows s)) eqn:E; cbn [negb]; [now apply wf_skip_rowid|].
  now apply wf_insert_row.
Qed.

Lemma execute_insert_or_ignore_Ok ty c h t p cr up s s1 :
  execute_insert_or_ignore ty c h t p cr up s = Ok s1 ->
  exists a b c' d e f, s1 = insert_or_ignore a b c' d p e f s.
Proof.
  unfold execute_insert_or_ignore.
  repeat match goal with
         | |- context [bind_text ?v] =>
             destruct (bind_text v) as [?| |]; cbn [mbind res_bind]; try discriminate
         end.
  intros [= <-]. eauto 10.
Qed.

Lemma wf_import_loop clock i clips count s n s' :
  wf_store s -> import_loop clock i clips count s = Ok (n, s') -> wf_store s'.
Proof.
  revert i count s. induction clips as [|clip rest IH]; intros i count s Hwf; simpl.
  - now intros [= _ <-].
  - destruct clip; try discriminate.
    destruct (hash_or_compute d _) as [h| |]; cbn [mbind res_bind]; try discriminate.
    destruct (execute_insert_or_ignore _ _ _ _ _ _ _ s) as [s1|e|] eqn:E;
      try discriminate.
    + apply IH. apply execute_insert_or_ignore_Ok in E as (? & ? & ? & ? & ? & ? & ->).
      now apply wf_insert_or_ignore.
    + destruct e; try discriminate. now apply IH.
Qed.

Lemma wf_run_op o s s' : wf_store s -> run_op o s = Ok s' -> wf_store s'.
Proof.
  intros Hwf. destruct o; cbn [run_op].
  - destruct (add_clip _ _ _ _ s) as [[x s1]| |] eqn:E; cbn [mbind res_bind]; try discriminate.
    intros [= <-]. cbn [snd]. eapply wf_add_clip; eauto.
  - intros [= <-]. cbn [snd pin_clip]. apply wf_mark_dirty. now apply wf_update_id.
  - intros [= <-]. cbn [snd unpin_clip]. apply wf_mark_dirty. now apply wf_update_id.
  - intros [= <-]. cbn [snd delete_clip]. apply wf_mark_dirty. now apply wf_delete_where.
  - intros [= <-]. cbn [snd update_tag]. apply wf_mark_dirty. now apply wf_update_id.
  - intros [= <-]. cbn [snd update_group]. apply wf_mark_dirty. now apply wf_update_id.
  - intros [= <-]. now apply wf_move_clip.
  - intros [= <-]. cbn [snd clear_history]. apply wf_mark_dirty. now apply wf_delete_where.
  - intros [= <-]. cbn [snd clear_pinned]. apply wf_mark_dirty. now apply wf_delete_where.
  - destruct (import_clips _ _ s) as [[n s1]| |] eqn:E; cbn [mbind res_bind]; try discriminate.
    intros [= <-]. cbn [snd]. eapply wf_import_loop; eauto.
Qed.

(** PRIMARY KEY and UNIQUE(hash) hold in every state the operations
    reach, whatever subset of them is used. *)
Lemma reachable_wf allowed s : reachable_by allowed s -> wf_store s.
Proof.
  induction 1 as [|s o s' _ IH _ Hrun|s _ IH|s _ IH].
  - repeat split; simpl; constructor.
  - eapply wf_run_op; eauto.
  - exact IH.
  - exact IH.
Qed.

End Constraints.

(** ** C7: the dirty flag and the change notification *)






(** [import_clips] never touches the flag or the callback. *)
Lemma import_loop_flag clock i clips count s n s' :
  import_loop clock i clips count s = Ok (n, s') ->
  need_backup s' = need_backup s /\ backup_callback s' = backup_callback s /\
  callback_calls s' = callback_calls s.
Proof.
  revert i count s. induction clips as [|clip rest IH]; intros i count s; simpl.
  - now intros [= _ <-].
  - destruct clip; try discriminate.
    destruct (hash_or_compute d _) as [h| |]; cbn [mbind res_bind]; try discriminate.
    destruct (execute_insert_or_ignore _ _ _ _ _ _ _ s) as [s1|e|] eqn:E;
      try discriminate.
    + intros H. apply IH in H as (-> & -> & ->).
      apply execute_insert_or_ignore_Ok in E as (a & b & c & t & cr & up & ->).
      unfold insert_or_ignore. destruct a, b, c, cr, up; try (repeat split; fail).
      destruct (_ && _); repeat split.
    + destruct e; try discriminate. apply IH.
Qed.




(** ** C8: reordering pinned clips *)

Section PinnedMove.

Lemma set_pin_order_same r : set_pin_order (pin_order r) r = r.
Proof. now destruct r. Qed.

Lemma set_pin_order_twice a b r :
  set_pin_order a (set_pin_order b r) = set_pin_order a r.
Proof. reflexivity. Qed.

(** PRIMARY KEY: a row is determined by its id. *)
Lemma id_determines_row rs a b :
  List.NoDup (List.map id rs) -> In a rs -> In b rs -> id a = id b -> a = b.
Proof.
  induction rs as [|r rs IH]; simpl; intros Hnd Ha Hb E; [contradiction|].
  apply List.NoDup_cons_iff in Hnd as [Hr Hnd].
  destruct Ha as [-> | Ha], Hb as [-> | Hb]; auto.
  - exfalso. apply Hr. rewrite E. now apply List.in_map.
  - exfalso. apply Hr. rewrite <- E. now apply List.in_map.
Qed.

Lemma fetchone_by_id s c :
  wf_store s -> In c (rows s) ->
  fetchone (fun r => id r =? id c) (rows s) = Some c.
Proof.
  intros (Hid & _) Hc. apply fetchone_unique; [exact Hc | apply Z.eqb_refl |].
  intros r Hr E. apply Z.eqb_eq in E. eapply id_determines_row; eauto.
Qed.

Lemma fetchone_by_pin_order s t :
  wf_store s -> pin_orders_distinct s -> In t (rows s) -> is_pinned t = true ->
  fetchone (fun r => is_pinned r && (pin_order r =? pin_order t)) (rows s) = Some t.
Proof.
  intros (Hid & _) Hd Ht Hp. apply fetchone_unique; [exact Ht | |].
  - now rewrite Hp, Z.eqb_refl.
  - intros r Hr E. apply andb_true_iff in E as [Hrp E]. apply Z.eqb_eq in E.
    eapply id_determines_row; eauto.
Qed.


(** What a pinned-scope move does to the table when both the clip and
    the holder of the target rank are known. *)
Lemma move_clip_pinned_rows stamp d s c t :
  wf_store s -> pin_orders_distinct s ->
  In c (rows s) -> In t (rows s) -> is_pinned t = true ->
  pin_order t = pin_order c + d ->
  move_clip stamp (id c) d true s
  = (true, _mark_dirty (with_rows s (swap_pin_orders c t (rows s)))).
Proof.
  intros Hwf Hd Hc Ht Htp Ho. unfold move_clip.
  rewrite (fetchone_by_id s c Hwf Hc). rewrite <- Ho.
  rewrite (fetchone_by_pin_order s t Hwf Hd Ht Htp).
  do 3 f_equal. unfold update_id, swap_pin_orders. rewrite !List.map_map.
  apply List.map_ext_in. intros x Hx. cbv beta.
  destruct (id x =? id c) eqn:Ec; cbn [id set_pin_order];
    destruct (id x =? id t) eqn:Et; cbn [id set_pin_order]; rewrite ?Et;
    try (now destruct x).
  apply Z.eqb_eq in Ec, Et.
  assert (c = t) as <-.
  { destruct Hwf as (Hid & _). eapply id_determines_row; eauto. congruence. }
  reflexivity.
Qed.

Lemma In_swap_pin_orders a b rs x' :
  In x' (swap_pin_orders a b rs) ->
  exists x, In x rs /\ id x' = id x /\ is_pinned x' = is_pinned x /\
    pin_order x' = (if id x =? id a then pin_order b
                    else if id x =? id b then pin_order a else pin_order x).
Proof.
  unfold swap_pin_orders. intros H. apply List.in_map_iff in H as (x & <- & Hx).
  exists x. split; [exact Hx|].
  destruct (id x =? id a); [now repeat split|].
  destruct (id x =? id b); now repeat split.
Qed.

(** Exchanging the ranks of two pinned clips keeps the ranks distinct. *)
Lemma swap_pin_orders_distinct s c t :
  pin_orders_distinct s ->
  In c (rows s) -> In t (rows s) -> is_pinned c = true -> is_pinned t = true ->
  pin_orders_distinct (with_rows s (swap_pin_orders c t (rows s))).
Proof.
  intros Hd Hc Ht Hcp Htp r1' r2' H1 H2 Hp1 Hp2 Ho.
  cbn [rows with_rows] in H1, H2.
  apply In_swap_pin_orders in H1 as (r1 & Hr1 & -> & Hq1 & Ho1).
  apply In_swap_pin_orders in H2 as (r2 & Hr2 & -> & Hq2 & Ho2).
  rewrite Hq1 in Hp1. rewrite Hq2 in Hp2. rewrite Ho1, Ho2 in Ho. clear Ho1 Ho2 Hq1 Hq2.
  pose proof (Hd r1 r2 Hr1 Hr2 Hp1 Hp2) as H12.
  pose proof (Hd r1 c Hr1 Hc Hp1 Hcp) as H1c.
  pose proof (Hd r1 t Hr1 Ht Hp1 Htp) as H1t.
  pose proof (Hd c r2 Hc Hr2 Hcp Hp2) as Hc2.
  pose proof (Hd t r2 Ht Hr2 Htp Hp2) as Ht2.
  pose proof (Hd c t Hc Ht Hcp Htp) as Hct.
  pose proof (Hd t c Ht Hc Htp Hcp) as Htc.
  destruct (Z.eqb_spec (id r1) (id c)), (Z.eqb_spec (id r1) (id t)),
           (Z.eqb_spec (id r2) (id c)), (Z.eqb_spec (id r2) (id t));
    try congruence;
    try (specialize (H12 Ho)); try (specialize (H1c Ho)); try (specialize (H1t Ho));
    try (specialize (Hc2 Ho)); try (specialize (Ht2 Ho)); try (specialize (Hct Ho));
    try (specialize (Htc Ho)); try (specialize (Hct (eq_sym Ho)));
    try (specialize (Htc (eq_sym Ho))); congruence.
Qed.


End PinnedMove.


Lemma two_pinned_wf : wf_store two_pinned.
Proof.
  repeat split; cbn.
  - repeat constructor; cbn; intuition discriminate.
  - repeat constructor; cbn; intuition discriminate.
  - repeat constructor; cbn; lia.
Qed.



(** On that store the move up and the move down that follows evaluate to
    this: "a" takes rank 2 and "b" rank 1, then both are back. *)
Example move_up_then_down :
  let stamp := fun _ : nat => "2024-05-01T10:01:00" in
  let s1 := snd (move_clip stamp 1 1 true two_pinned) in
  List.map (fun r => (id r, pin_order r)) (rows s1) = [(1, 2); (2, 1)] /\
  List.map (fun r => (id r, pin_order r))
    (rows (snd (move_clip stamp 1 (-1) true s1))) = [(1, 1); (2, 2)].
Proof. split; vm_compute; reflexivity. Qed.

(** ** C6: pin orders across the operations *)

Section PinOrders.

Lemma In_update_id clip_id f rs x' :
  In x' (update_id clip_id f rs) ->
  exists x, In x rs /\ x' = (if id x =? clip_id then f x else x).
Proof.
  unfold update_id. intros H. apply List.in_map_iff in H as (x & <- & Hx). eauto.
Qed.

(** Rows that come from old rows with the same id and, when pinned, the
    same rank keep the ranks distinct. *)
Lemma distinct_related s rs' :
  (forall x', In x' rs' -> is_pinned x' = true ->
     exists x, In x (rows s) /\ id x' = id x /\ is_pinned x = true /\
               pin_order x' = pin_order x) ->
  pin_orders_distinct s -> pin_orders_distinct (with_rows s rs').
Proof.
  intros Hrel Hd r1 r2 H1 H2 Hp1 Hp2 Ho. cbn [rows with_rows] in H1, H2.
  destruct (Hrel r1 H1 Hp1) as (x1 & Hx1 & -> & Hq1 & Ho1).
  destruct (Hrel r2 H2 Hp2) as (x2 & Hx2 & -> & Hq2 & Ho2).
  apply Hd; auto. congruence.
Qed.

Lemma distinct_mark_dirty s : pin_orders_distinct s -> pin_orders_distinct (_mark_dirty s).
Proof. intros H. exact H. Qed.

Lemma distinct_update_id s clip_id f :
  (forall r, id (f r) = id r) ->
  (forall r, is_pinned (f r) = true -> is_pinned r = true /\ pin_order (f r) = pin_order r) ->
  pin_orders_distinct s ->
  pin_orders_distinct (with_rows s (update_id clip_id f (rows s))).
Proof.
  intros Hid Hf. apply distinct_related. intros x' Hx' Hp.
  apply In_update_id in Hx' as (x & Hx & ->). exists x. split; [exact Hx|].
  destruct (id x =? clip_id).
  - destruct (Hf x Hp) as [Hq Ho]. now rewrite Hid.
  - now repeat split.
Qed.

Lemma distinct_delete_where s p :
  pin_orders_distinct s -> pin_orders_distinct (with_rows s (delete_where p (rows s))).
Proof.
  apply distinct_related. intros x' Hx' Hp. apply List.filter_In in Hx' as [Hx' _].
  exists x'. now repeat split.
Qed.

Lemma In_rewrite_times stamp i ids rs x' :
  In x' (rewrite_times stamp i ids rs) ->
  exists x, In x rs /\ id x' = id x /\ is_pinned x' = is_pinned x /\
            pin_order x' = pin_order x.
Proof.
  revert i rs. induction ids as [|cid ids IH]; intros i rs; simpl.
  - intros H. exists x'. now repeat split.
  - intros H. apply IH in H as (y & Hy & -> & -> & ->).
    apply In_update_id in Hy as (x & Hx & ->). exists x. split; [exact Hx|].
    destruct (id x =? cid); now repeat split.
Qed.

Lemma fold_left_max_ge (xs : list Z) (a : Z) :
  a <= fold_left Z.max xs a /\ forall v, In v xs -> v <= fold_left Z.max xs a.
Proof.
  revert a. induction xs as [|x xs IH]; intros a; simpl.
  - split; [lia | intros v []].
  - destruct (IH (Z.max a x)) as [H1 H2]. split; [lia|].
    intros v [<- | Hv]; [lia | now apply H2].
Qed.

(** [MAX(pin_order)] over the pinned rows bounds each of them. *)
Lemma max_pin_order_ge rs r :
  In r rs -> is_pinned r = true -> pin_order r <= max_pin_order rs.
Proof.
  intros Hr Hp. unfold max_pin_order.
  assert (Hin : In (pin_order r) (List.map pin_order (List.filter is_pinned rs))).
  { apply List.in_map. apply List.filter_In. now split. }
  destruct (List.map pin_order (List.filter is_pinned rs)) as [|x xs]; [contradiction|].
  destruct (fold_left_max_ge xs x) as [H1 H2].
  destruct Hin as [<- | Hin]; [exact H1 | now apply H2].
Qed.

Lemma distinct_pin_clip now clip_id s :
  pin_orders_distinct s -> pin_orders_distinct (snd (pin_clip now clip_id s)).
Proof.
  intros Hd r1 r2 H1 H2 Hp1 Hp2 Ho. cbn [snd pin_clip rows _mark_dirty with_rows] in H1, H2.
  apply In_update_id in H1 as (x1 & Hx1 & ->).
  apply In_update_id in H2 as (x2 & Hx2 & ->).
  destruct (Z.eqb_spec (id x1) clip_id) as [E1|E1],
           (Z.eqb_spec (id x2) clip_id) as [E2|E2];
    cbn [id set_pinned pin_order is_pinned] in *.
  - congruence.
  - pose proof (max_pin_order_ge _ _ Hx2 Hp2). lia.
  - pose proof (max_pin_order_ge _ _ Hx1 Hp1). lia.
  - now apply Hd.
Qed.

Lemma distinct_insert_unpinned ty c h t cr up s :
  pin_orders_distinct s -> pin_orders_distinct (insert_row ty c h t false cr up s).
Proof.
  intros Hd r1 r2 H1 H2 Hp1 Hp2 Ho. cbn [insert_row rows] in H1, H2.
  apply List.in_app_iff in H1 as [H1 | [<- | []]]; [|discriminate].
  apply List.in_app_iff in H2 as [H2 | [<- | []]]; [|discriminate].
  now apply Hd.
Qed.

Lemma distinct_add_clip now ty c t s x s' :
  pin_orders_distinct s -> add_clip now ty c t s = Ok (x, s') -> pin_orders_distinct s'.
Proof.
  intros Hd. unfold add_clip. destruct (fetchone _ (rows s)) as [e|].
  - intros [= _ <-]. apply distinct_mark_dirty. now apply distinct_update_id.
  - destruct (check_type ty); [|discriminate].
    intros [= _ <-]. apply distinct_mark_dirty. now apply distinct_insert_unpinned.
Qed.

Lemma distinct_move_clip stamp clip_id d p s :
  wf_store s -> pin_orders_distinct s ->
  interactive s (MoveClip stamp clip_id d p) ->
  pin_orders_distinct (snd (move_clip stamp clip_id d p s)).
Proof.
  intros Hwf Hd Hok. destruct p.
  - cbn [interactive] in Hok.
    destruct (fetchone (fun r => id r =? clip_id) (rows s)) as [c|] eqn:Ec.
    + apply fetchone_Some in Ec as [Hc Eid]. apply Z.eqb_eq in Eid. subst clip_id.
      destruct (fetchone (fun r => is_pinned r && (pin_order r =? pin_order c + d)) (rows s))
        as [t|] eqn:Et.
      * apply fetchone_Some in Et as [Ht Hp]. apply andb_true_iff in Hp as [Htp Ho].
        apply Z.eqb_eq in Ho.
        rewrite (move_clip_pinned_rows stamp d s c t Hwf Hd Hc Ht Htp Ho).
        cbn [snd]. apply distinct_mark_dirty.
        apply swap_pin_orders_distinct; auto.
      * unfold move_clip. rewrite (fetchone_by_id s c Hwf Hc), Et. exact Hd.
    + unfold move_clip. rewrite Ec. exact Hd.
  - unfold move_clip. destruct (index_of _ _) as [idx|]; [|exact Hd].
    destruct (_ && _); [|exact Hd].
    cbn [snd]. apply distinct_mark_dirty. apply distinct_related; [|exact Hd].
    intros x' Hx' Hp. apply In_rewrite_times in Hx' as (x & Hx & -> & Hq & ->).
    exists x. rewrite <- Hq. now repeat split.
Qed.

Lemma distinct_run_op o s s' :
  wf_store s -> pin_orders_distinct s -> interactive s o ->
  run_op o s = Ok s' -> pin_orders_distinct s'.
Proof.
  intros Hwf Hd Hok. destruct o; cbn [run_op].
  - destruct (add_clip _ _ _ _ s) as [[x s1]| |] eqn:E; cbn [mbind res_bind]; try discriminate.
    intros [= <-]. cbn [snd]. eapply distinct_add_clip; eauto.
  - intros [= <-]. now apply distinct_pin_clip.
  - intros [= <-]. cbn [snd unpin_clip]. apply distinct_mark_dirty.
    apply distinct_update_id; [reflexivity | discriminate | exact Hd].
  - intros [= <-]. cbn [snd delete_clip]. apply distinct_mark_dirty.
    now apply distinct_delete_where.
  - intros [= <-]. cbn [snd update_tag]. apply distinct_mark_dirty.
    now apply distinct_update_id.
  - intros [= <-]. cbn [snd update_group]. apply distinct_mark_dirty.
    now apply distinct_update_id.
  - intros [= <-]. now apply distinct_move_clip.
  - intros [= <-]. cbn [snd clear_history]. apply distinct_mark_dirty.
    now apply distinct_delete_where.
  - intros [= <-]. cbn [snd clear_pinned]. apply distinct_mark_dirty.
    now apply distinct_delete_where.
  - contradiction.
Qed.

(** What the operations other than [import_clips] maintain: starting
    from the empty store, pin orders stay pairwise distinct among the
    pinned clips, provided the pinned scope of [move_clip] is used on
    pinned clips only. *)
Lemma interactive_pin_orders_distinct s :
  reachable_by interactive s -> pin_orders_distinct s.
Proof.
  induction 1 as [|s o s' Hr IH Hok Hrun|s Hr IH|s Hr IH].
  - intros r1 r2 [].
  - apply (distinct_run_op o s s'); auto. exact (reachable_wf _ _ Hr).
  - exact IH.
  - exact IH.
Qed.

(** Unpinning sets [pin_order] back to 0. *)
Lemma unpin_clip_resets_order now clip_id s r :
  In r (rows (snd (unpin_clip now clip_id s))) -> id r = clip_id ->
  is_pinned r = false /\ pin_order r = 0.
Proof.
  cbn [snd unpin_clip rows _mark_dirty with_rows]. intros Hr E.
  apply In_update_id in Hr as (x & Hx & ->).
  destruct (Z.eqb_spec (id x) clip_id) as [|Hne]; [now split|]. contradiction.
Qed.

End PinOrders.


(** The backup payload of [two_pinned]: the pinned clips, most recently
    updated first, each with its [pin_order]. *)
Example two_pinned_backup_payload :
  get_all_clips two_pinned =
  [JObj [("id", JNum 2); ("type", JStr "text"); ("content", JStr "b");
         ("hash", JStr "92eb5ffee6ae2fec3ad71c777531578f"); ("tag", JStr EmptyString);
         ("group_name", JStr EmptyString); ("is_pinned", JNum 1); ("pin_order", JNum 2);
         ("created_at", JStr "2024-05-01T10:00:10");
         ("updated_at", JStr "2024-05-01T10:00:30")];
   JObj [("id", JNum 1); ("type", JStr "text"); ("content", JStr "a");
         ("hash", JStr "0cc175b9c0f1b6a831c399e269772661"); ("tag", JStr EmptyString);
         ("group_name", JStr EmptyString); ("is_pinned", JNum 1); ("pin_order", JNum 1);
         ("created_at", JStr "2024-05-01T10:00:00");
         ("updated_at", JStr "2024-05-01T10:00:20")]].
Proof. vm_compute. reflexivity. Qed.

(** C6 fails on [import_clips]. Restoring the backup payload of a store
    with two pinned clips of ranks 1 and 2 into the empty store yields a
    reachable state in which both clips are pinned with [pin_order] 0: the
    INSERT of [import_clips] names no [pin_order] column. *)
Theorem import_clips_duplicates_pin_order :
  let s' :=
    Store [Row 1 "text" "b" "92eb5ffee6ae2fec3ad71c777531578f" (Some EmptyString)
               EmptyString true 0 "2024-05-01T10:00:10" "2024-05-01T10:00:30";
           Row 2 "text" "a" "0cc175b9c0f1b6a831c399e269772661" (Some EmptyString)
               EmptyString true 0 "2024-05-01T10:00:00" "2024-05-01T10:00:20"]
          2 false false 0 in
  run_op (ImportClips (fun _ => "2024-05-02T09:00:00") (get_all_clips two_pinned))
    empty_store = Ok s' /\
  reachable s' /\
  ~ pin_orders_distinct s'.
Proof.
  cbv zeta.
  assert (E : run_op (ImportClips (fun _ => "2024-05-02T09:00:00") (get_all_clips two_pinned))
                empty_store
              = Ok (Store [Row 1 "text" "b" "92eb5ffee6ae2fec3ad71c777531578f"
                               (Some EmptyString) EmptyString true 0
                               "2024-05-01T10:00:10" "2024-05-01T10:00:30";
                           Row 2 "text" "a" "0cc175b9c0f1b6a831c399e269772661"
                               (Some EmptyString) EmptyString true 0
                               "2024-05-01T10:00:00" "2024-05-01T10:00:20"]
                          2 false false 0))
    by (vm_compute; reflexivity).
  split; [exact E|]. split.
  - exact (reach_op _ _ _ _ (reach_empty _) I E).
  - intros Hd.
    specialize (Hd _ _ (or_introl eq_refl) (or_intror (or_introl eq_refl))
                  eq_refl eq_refl eq_refl).
    discriminate Hd.
Qed.

(** The pinned scope of [move_clip] applied to a history clip breaks the
    ranks without any import: after these calls the clips 3 and 4 are both
    pinned with rank 1. *)
Example move_pinned_scope_on_history_clip :
  let now := "2024-05-01T10:00:00" in
  let stamp := fun _ : nat => now in
  exists s',
    run_ops [AddClip now "text" "a" EmptyString; AddClip now "text" "b" EmptyString;
             AddClip now "text" "c" EmptyString; AddClip now "text" "d" EmptyString;
             PinClip now 1; MoveClip stamp 2 1 true;
             PinClip now 3; PinClip now 4; MoveClip stamp 2 1 true] empty_store = Ok s' /\
    List.map (fun r => (id r, is_pinned r, pin_order r)) (rows s')
    = [(1, true, 0); (2, false, 2); (3, true, 1); (4, true, 1)].
Proof. eexists. split; vm_compute; reflexivity. Qed.


(** ** C9: debouncing *)

Section Debounce.

Import backup_manager.

Lemma last_nonempty_default (x : Z) (l : list Z) (d1 d2 : Z) :
  List.last (x :: l) d1 = List.last (x :: l) d2.
Proof.
  revert x. induction l as [|y l IH]; intros x; [reflexivity|].
  change (List.last (y :: l) d1 = List.last (y :: l) d2). apply IH.
Qed.

Lemma notify_all_armed (t : Z) (rest : list Z) (armed : Z) :
  armed = t + debounce_ms -> closely_spaced t rest ->
  notify_all rest (Scheduler (Some armed) [])
  = Scheduler (Some (List.last rest t + debounce_ms)) [].
Proof.
  revert t armed. induction rest as [|t' rest IH]; intros t armed -> Hs.
  - reflexivity.
  - destruct Hs as [Ht Hs]. cbn [notify_all]. unfold elapse. cbn [timer].
    destruct (Z.leb_spec (t + debounce_ms) t') as [Hle|Hlt]; [lia|].
    unfold schedule. cbn [backups].
    rewrite (IH t' _ eq_refl Hs).
    destruct rest as [|z rest]; [reflexivity|].
    do 3 f_equal. change (List.last (t' :: z :: rest) t) with (List.last (z :: rest) t).
    apply last_nonempty_default.
Qed.

End Debounce.

(** C9. For every non-empty sequence of [schedule()] calls on an idle
    scheduler, each less than 30 seconds after the one before, the backup
    function has not run at any instant earlier than 30 seconds after the
    last call, and from that instant on it has run exactly once, at that
    instant. *)
Theorem debounce_coalesces (first : Z) (rest : list Z) (now : Z) :
  backup_manager.closely_spaced first rest ->
  let last_call := List.last rest first in
  let sch := backup_manager.notify_all (first :: rest) backup_manager.idle in
  (now < last_call + 30 * 1000 ->
     backup_manager.backups (backup_manager.elapse now sch) = []) /\
  (last_call + 30 * 1000 <= now ->
     backup_manager.backups (backup_manager.elapse now sch) = [last_call + 30 * 1000]).
Proof.
  intros Hs. cbv zeta. cbn [backup_manager.notify_all].
  change (backup_manager.schedule first (backup_manager.elapse first backup_manager.idle))
    with (backup_manager.Scheduler (Some (first + backup_manager.debounce_ms)) []).
  rewrite (notify_all_armed first rest _ eq_refl Hs).
  unfold backup_manager.elapse, backup_manager.debounce_ms.
  cbn [backup_manager.timer].
  split; intros H.
  - destruct (Z.leb_spec (List.last rest first + 30 * 1000) now); [lia | reflexivity].
  - destruct (Z.leb_spec (List.last rest first + 30 * 1000) now); [reflexivity | lia].
Qed.

Lemma debounce_coalesces_witness :
  backup_manager.closely_spaced 0 [10000; 39000; 60000] /\
  let sch := backup_manager.notify_all [0; 10000; 39000; 60000] backup_manager.idle in
  (89999 < 60000 + 30 * 1000 ->
     backup_manager.backups (backup_manager.elapse 89999 sch) = []) /\
  (60000 + 30 * 1000 <= 90000 ->
     backup_manager.backups (backup_manager.elapse 90000 sch) = [60000 + 30 * 1000]).
Proof.
  assert (H : backup_manager.closely_spaced 0 [10000; 39000; 60000]).
  { cbn. unfold backup_manager.debounce_ms. lia. }
  split; [exact H|]. cbv zeta. split.
  - exact (proj1 (debounce_coalesces 0 [10000; 39000; 60000] 89999 H)).
  - exact (proj2 (debounce_coalesces 0 [10000; 39000; 60000] 90000 H)).
Defined.


(** ** The JSON codec: [loads] reads back what [dump] writes *)

Lemma string_length_append (a b : string) :
  String.length (String.append a b) = (String.length a + String.length b)%nat.
Proof. induction a as [|c a IH]; simpl; [reflexivity | now rewrite IH]. Qed.

Section JsonStrings.

Import Json.

Lemma byte_code (c : ascii) : byte (code c) = c.
Proof.
  unfold byte, code. rewrite N2Z.id. apply ascii_N_embedding.
Qed.

(** One source character: its escape sequence reads back as itself. *)
Lemma parse_char_step_escape (c : ascii) (k : string -> parsed string) (tail : string) :
  parse_char_step k (String.append (escape_char c) tail)
  = match k tail with
    | Parsed t r => Parsed (String c t) r
    | Invalid => Invalid
    | Unsupported => Unsupported
    end.
Proof.
  destruct c as [[] [] [] [] [] [] [] []]; vm_compute; reflexivity.
Qed.

Lemma append_assoc (a b c : string) :
  String.append (String.append a b) c = String.append a (String.append b c).
Proof.
  induction a as [|x a IH]; [reflexivity|].
  change (String x (String.append (String.append a b) c)
          = String x (String.append a (String.append b c))).
  now rewrite IH.
Qed.

Lemma append_nil_r (a : string) : String.append a EmptyString = a.
Proof.
  induction a as [|x a IH]; [reflexivity|].
  change (String x (String.append a EmptyString) = String x a). now rewrite IH.
Qed.

Lemma append_cons (x : ascii) (a b : string) :
  String.append (String x a) b = String x (String.append a b).
Proof. reflexivity. Qed.

Lemma escape_cons (c : ascii) (s : string) :
  escape (String c s) = String.append (escape_char c) (escape s).
Proof. reflexivity. Qed.

(** A string literal reads back as the string it was written from. *)
Lemma parse_chars_escape (s : string) (fuel : nat) (tail : string) :
  (String.length s < fuel)%nat ->
  parse_chars fuel (String.append (escape s) (String dquote tail)) = Parsed s tail.
Proof.
  revert fuel. induction s as [|c s IH]; intros [|f] Hf; try (simpl in Hf; lia).
  - reflexivity.
  - rewrite escape_cons, append_assoc. cbn [parse_chars].
    rewrite parse_char_step_escape, IH by (simpl in Hf; lia). reflexivity.
Qed.

Lemma escape_char_length (c : ascii) : (1 <= String.length (escape_char c))%nat.
Proof. destruct c as [[] [] [] [] [] [] [] []]; vm_compute; lia. Qed.

Lemma escape_length (s : string) : (String.length s <= String.length (escape s))%nat.
Proof.
  induction s as [|c s IH]; [reflexivity|].
  rewrite escape_cons, string_length_append. pose proof (escape_char_length c).
  simpl. lia.
Qed.

Lemma quote_eq (s : string) :
  quote s = String dquote (String.append (escape s) (String dquote EmptyString)).
Proof. reflexivity. Qed.

End JsonStrings.

Section JsonNumbers.

Import Json.

Lemma nzhead_not_D0 (d x : Decimal.uint) : Decimal.nzhead d <> Decimal.D0 x.
Proof. induction d; simpl; congruence. Qed.

Lemma to_uint_unorm (p : positive) : Decimal.unorm (Pos.to_uint p) = Pos.to_uint p.
Proof.
  rewrite <- (DecimalPos.Unsigned.to_of (Pos.to_uint p)).
  now rewrite DecimalPos.Unsigned.of_to.
Qed.

(** [str] of a positive integer has no leading zero. *)
Lemma to_uint_head (p : positive) :
  Pos.to_uint p <> Decimal.Nil /\ forall d, Pos.to_uint p <> Decimal.D0 d.
Proof.
  split; [apply DecimalPos.Unsigned.to_uint_nonnil|].
  intros d E. pose proof (to_uint_unorm p) as U.
  pose proof (DecimalPos.Unsigned.to_uint_nonzero p) as Z0.
  rewrite E in U, Z0. unfold Decimal.unorm in U. simpl in U.
  destruct (Decimal.nzhead d) eqn:N; try discriminate U.
  - apply Z0. symmetry. exact U.
  - injection U as ->. exact (nzhead_not_D0 _ _ N).
Qed.

Lemma parse_digits_not_digit (rest : string) :
  starts_with_digit rest = false -> parse_digits rest = (Decimal.Nil, rest).
Proof.
  destruct rest as [|c r]; [reflexivity|]. simpl.
  destruct c as [[] [] [] [] [] [] [] []]; vm_compute; congruence.
Qed.

Lemma parse_digits_string_of_uint (d : Decimal.uint) (rest : string) :
  starts_with_digit rest = false ->
  parse_digits (String.append (NilEmpty.string_of_uint d) rest) = (d, rest).
Proof.
  intros H. induction d; cbn [NilEmpty.string_of_uint];
    [apply parse_digits_not_digit, H | ..];
    rewrite append_cons; cbn [parse_digits]; rewrite IHd; reflexivity.
Qed.

Lemma value_end_not_digit (rest : string) :
  value_end rest -> starts_with_digit rest = false /\ float_follows rest = false.
Proof.
  destruct rest as [|c r]; [easy|]. unfold value_end, starts_with_digit, float_follows, is_digit.
  intros [E|E]; rewrite E; simpl; auto.
Qed.

Lemma parse_number_digits (c : ascii) (t : string) :
  is_digit c = true -> (code c =? 48) = false ->
  parse_number (String c t)
  = (let '(ds, rest) := parse_digits (String c t) in
     if float_follows rest then Unsupported else Parsed (Z.of_uint ds) rest)
  /\ parse_number (String (ascii_of_nat 45) (String c t))
     = (let '(ds, rest) := parse_digits (String c t) in
        if float_follows rest then Unsupported else Parsed (- Z.of_uint ds) rest).
Proof.
  intros Hd H0. assert (Hm : (code c =? 45) = false).
  { unfold is_digit in Hd. apply andb_true_iff in Hd as [Hd _]. lia. }
  split; unfold parse_number; cbv zeta.
  - rewrite Hm, Hd, H0. reflexivity.
  - change (code (ascii_of_nat 45) =? 45) with true. cbv iota.
    rewrite Hd, H0. reflexivity.
Qed.

Lemma parse_number_uint (d : Decimal.uint) (rest : string) :
  d <> Decimal.Nil -> (forall x, d <> Decimal.D0 x) -> value_end rest ->
  parse_number (String.append (NilEmpty.string_of_uint d) rest)
  = Parsed (Z.of_uint d) rest
  /\ parse_number (String (ascii_of_nat 45) (String.append (NilEmpty.string_of_uint d) rest))
     = Parsed (- Z.of_uint d) rest.
Proof.
  intros Hn Hz He. apply value_end_not_digit in He as [Hd Hf].
  pose proof (parse_digits_string_of_uint d rest Hd) as P.
  destruct d; try congruence; try (exfalso; eapply Hz; reflexivity);
    cbn [NilEmpty.string_of_uint] in *; rewrite append_cons in *;
    match goal with
    | |- context [String ?c ?t] =>
        destruct (parse_number_digits c t eq_refl eq_refl) as [-> ->]
    end; rewrite P, Hf; split; reflexivity.
Qed.

(** An integer literal reads back as the integer. *)
Lemma parse_number_str_int (z : Z) (rest : string) :
  value_end rest ->
  parse_number (String.append (py_str_int z) rest) = Parsed z rest.
Proof.
  intros He. destruct z as [|p|p].
  - apply value_end_not_digit in He as [Hd Hf].
    change (py_str_int 0) with "0". rewrite append_cons.
    unfold parse_number. cbv beta iota zeta.
    change (code "0" =? 45) with false. cbv iota.
    change (is_digit "0") with true. change (code "0" =? 48) with true. cbv iota.
    change (String.append EmptyString rest) with rest. now rewrite Hf.
  - destruct (to_uint_head p) as [Hn Hz].
    destruct (parse_number_uint (Pos.to_uint p) rest Hn Hz He) as [P _].
    unfold py_str_int, Z.to_int, NilZero.string_of_int, NilZero.string_of_uint.
    destruct (Pos.to_uint p) eqn:E; try congruence;
      rewrite P, <- E; f_equal; apply (DecimalZ.of_to (Zpos p)).
  - destruct (to_uint_head p) as [Hn Hz].
    destruct (parse_number_uint (Pos.to_uint p) rest Hn Hz He) as [_ P].
    unfold py_str_int, Z.to_int, NilZero.string_of_int, NilZero.string_of_uint.
    rewrite append_cons.
    change (String "-") with (String (ascii_of_nat 45)).
    destruct (Pos.to_uint p) eqn:E; try congruence;
      rewrite P, <- E; f_equal; apply (DecimalZ.of_to (Zneg p)).
Qed.

End JsonNumbers.

Section JsonValues.

Import Json.

(** Induction on a value, with the hypothesis for every element of an
    array and every member of an object. *)
Lemma json_induction (P : json -> Prop) :
  P JNull -> (forall b, P (JBool b)) -> (forall z, P (JNum z)) ->
  (forall s, P (JStr s)) ->
  (forall l, List.Forall P l -> P (JArr l)) ->
  (forall d, List.Forall (fun kv => P (snd kv)) d -> P (JObj d)) ->
  forall v, P v.
Proof.
  intros Hnull Hbool Hnum Hstr Harr Hobj. fix IH 1. intros [ |b|z|s|l|d].
  - exact Hnull.
  - apply Hbool.
  - apply Hnum.
  - apply Hstr.
  - apply Harr. induction l as [|x l IHl]; constructor; [apply IH | exact IHl].
  - apply Hobj. induction d as [|[k x] d IHd]; constructor; [apply IH | exact IHd].
Qed.

Lemma skip_ws_not_ws (c : ascii) (r : string) :
  is_ws c = false -> skip_ws (String c r) = String c r.
Proof. intros H. simpl. now rewrite H. Qed.

Lemma skip_ws_indent (k : nat) (s : string) :
  skip_ws (String.append (String.concat EmptyString (repeat "  " k)) s) = skip_ws s.
Proof.
  induction k as [|k IH]; [reflexivity|].
  destruct k as [|k].
  - reflexivity.
  - change (repeat "  " (S (S k))) with ("  " :: repeat "  " (S k)).
    change (String.concat EmptyString ("  " :: repeat "  " (S k)))
      with (String.append "  " (String.append EmptyString
              (String.concat EmptyString (repeat "  " (S k))))).
    change (String.append EmptyString ?x) with x.
    rewrite append_assoc. exact IH.
Qed.

Lemma skip_ws_newline_indent (k : nat) (s : string) :
  skip_ws (String.append (newline_indent k) s) = skip_ws s.
Proof.
  unfold newline_indent. rewrite append_cons.
  change (skip_ws (String (ascii_of_nat 10) ?x)) with (skip_ws x).
  apply skip_ws_indent.
Qed.

Lemma string_of_uint_head (d : Decimal.uint) :
  d <> Decimal.Nil ->
  exists c r, NilEmpty.string_of_uint d = String c r /\ is_digit c = true.
Proof.
  destruct d; [congruence | ..]; intros _; eexists _, _; split; reflexivity.
Qed.

Lemma py_str_int_head (z : Z) :
  exists c r, py_str_int z = String c r /\ (is_digit c || (code c =? 45)) = true.
Proof.
  destruct z as [|p|p].
  - eexists _, _. split; reflexivity.
  - destruct (string_of_uint_head (Pos.to_uint p)) as (c & r & E & H);
      [apply DecimalPos.Unsigned.to_uint_nonnil|].
    exists c, r. split; [|now rewrite H].
    unfold py_str_int, Z.to_int, NilZero.string_of_int, NilZero.string_of_uint.
    rewrite <- E. destruct (Pos.to_uint p) eqn:U; try reflexivity.
    now apply DecimalPos.Unsigned.to_uint_nonnil in U.
  - eexists _, _. split; reflexivity.
Qed.

Lemma number_opens (c : ascii) :
  (is_digit c || (code c =? 45)) = true -> opens_value c.
Proof.
  destruct c as [[] [] [] [] [] [] [] []]; intros H; vm_compute in H;
    try discriminate H; repeat split.
Qed.

Lemma dump_indent_head (n : nat) (v : json) :
  exists c r, dump_indent n v = String c r /\ opens_value c.
Proof.
  destruct v as [ |[]|z|s|[|x l]|[|kv d]];
    try (eexists _, _; split; [reflexivity | repeat split]).
  destruct (py_str_int_head z) as (c & r & E & H).
  exists c, r. split; [exact E | now apply number_opens].
Qed.

Lemma join_head (sep : string) (x : string) (l : list string) (c : ascii) (r : string) :
  x = String c r -> exists r', join sep (x :: l) = String c r'.
Proof.
  intros ->. destruct l as [|y l]; [now exists r|].
  eexists. change (join sep (String c r :: y :: l))
    with (String.append (String c r) (String.append sep (join sep (y :: l)))).
  apply append_cons.
Qed.

Lemma substring_all (s : string) (m : nat) :
  (String.length s <= m)%nat -> String.substring 0 m s = s.
Proof.
  revert m. induction s as [|c s IH]; intros [|m] H; simpl in *; try reflexivity; try lia.
  rewrite IH by lia. reflexivity.
Qed.

(** The value branches of [parse_value], one by one. *)
Lemma parse_value_number (f : nat) (c : ascii) (t : string) :
  (is_digit c || (code c =? 45)) = true ->
  parse_value (S f) (String c t)
  = match parse_number (String c t) with
    | Parsed z rest => Parsed (JNum z) rest
    | Invalid => Invalid
    | Unsupported => Unsupported
    end.
Proof.
  destruct c as [[] [] [] [] [] [] [] []]; intros H; vm_compute in H;
    try discriminate H; reflexivity.
Qed.

Lemma prefix_append (s r : string) : String.prefix s (String.append s r) = true.
Proof.
  induction s as [|a s IH]; [now destruct r|].
  rewrite append_cons. simpl. destruct (ascii_dec a a); [exact IH | congruence].
Qed.

Lemma parse_value_literals (f : nat) (rest : string) :
  parse_value (S f) (String.append "null" rest) = Parsed JNull rest
  /\ parse_value (S f) (String.append "true" rest) = Parsed (JBool true) rest
  /\ parse_value (S f) (String.append "false" rest) = Parsed (JBool false) rest.
Proof.
  assert (D4 : String.substring 0 (4 + String.length rest) rest = rest)
    by (apply substring_all; lia).
  assert (D5 : String.substring 0 (5 + String.length rest) rest = rest)
    by (apply substring_all; lia).
  repeat split.
  - rewrite append_cons. cbn [parse_value]. rewrite <- append_cons.
    change (code "n" =? 34) with false. change (code "n" =? 91) with false.
    change (code "n" =? 123) with false. cbv iota.
    rewrite prefix_append.
    change (String.substring 4 _ (String.append "null" rest))
      with (String.substring 0 (4 + String.length rest) rest).
    now rewrite D4.
  - rewrite append_cons. cbn [parse_value]. rewrite <- append_cons.
    change (code "t" =? 34) with false. change (code "t" =? 91) with false.
    change (code "t" =? 123) with false. cbv iota.
    change (String.prefix "null" (String.append "true" rest)) with false. cbv iota.
    rewrite prefix_append.
    change (String.substring 4 _ (String.append "true" rest))
      with (String.substring 0 (4 + String.length rest) rest).
    now rewrite D4.
  - rewrite append_cons. cbn [parse_value]. rewrite <- append_cons.
    change (code "f" =? 34) with false. change (code "f" =? 91) with false.
    change (code "f" =? 123) with false. cbv iota.
    change (String.prefix "null" (String.append "false" rest)) with false.
    change (String.prefix "true" (String.append "false" rest)) with false. cbv iota.
    rewrite prefix_append.
    change (String.substring 5 _ (String.append "false" rest))
      with (String.substring 0 (5 + String.length rest) rest).
    now rewrite D5.
Qed.

Lemma parse_value_string (f : nat) (s rest : string) :
  parse_value (S f) (String.append (quote s) rest) = Parsed (JStr s) rest.
Proof.
  rewrite quote_eq, append_cons, append_assoc, append_cons.
  change (String.append EmptyString rest) with rest.
  cbn [parse_value]. change (code dquote =? 34) with true. cbv iota.
  rewrite parse_chars_escape; [reflexivity|].
  rewrite string_length_append. pose proof (escape_length s). simpl. lia.
Qed.

Lemma parse_value_array (f : nat) (s' : string) (c : ascii) (r : string)
    (l : list json) (rest : string) :
  skip_ws s' = String c r -> (code c =? 93) = false ->
  parse_elements f (String c r) = Parsed l rest ->
  parse_value (S f) (String "[" s') = Parsed (JArr l) rest.
Proof.
  intros Hs Hc Hl. cbn [parse_value].
  change (code "[" =? 34) with false. change (code "[" =? 91) with true. cbv iota.
  now rewrite Hs, Hc, Hl.
Qed.

Lemma parse_value_object (f : nat) (s' : string) (c : ascii) (r : string)
    (d : list (string * json)) (rest : string) :
  skip_ws s' = String c r -> (code c =? 125) = false ->
  parse_members f (String c r) = Parsed d rest ->
  parse_value (S f) (String "{" s') = Parsed (JObj (dict_of_pairs d)) rest.
Proof.
  intros Hs Hc Hl. cbn [parse_value].
  change (code "{" =? 34) with false. change (code "{" =? 91) with false.
  change (code "{" =? 123) with true. cbv iota.
  now rewrite Hs, Hc, Hl.
Qed.

Lemma parse_elements_last (f : nat) (s : string) (v : json) (rest r : string) :
  parse_value f s = Parsed v rest -> skip_ws rest = String "]" r ->
  parse_elements (S f) s = Parsed [v] r.
Proof. intros Hv Hr. cbn [parse_elements]. now rewrite Hv, Hr. Qed.

Lemma parse_elements_more (f : nat) (s : string) (v : json) (rest r : string)
    (l : list json) (rest' : string) :
  parse_value f s = Parsed v rest -> skip_ws rest = String "," r ->
  parse_elements f (skip_ws r) = Parsed l rest' ->
  parse_elements (S f) s = Parsed (v :: l) rest'.
Proof. intros Hv Hr Hl. cbn [parse_elements]. now rewrite Hv, Hr, Hl. Qed.

Lemma parse_members_last (f : nat) (s' : string) (k : string) (v : json)
    (rest0 r0 rest r : string) :
  parse_chars (S (String.length s')) s' = Parsed k rest0 ->
  skip_ws rest0 = String ":" r0 ->
  parse_value f (skip_ws r0) = Parsed v rest -> skip_ws rest = String "}" r ->
  parse_members (S f) (String dquote s') = Parsed [(k, v)] r.
Proof.
  intros Hk H0 Hv Hr. cbn [parse_members].
  change (code dquote =? 34) with true. cbv iota.
  now rewrite Hk, H0, Hv, Hr.
Qed.

Lemma parse_members_more (f : nat) (s' : string) (k : string) (v : json)
    (rest0 r0 rest r : string) (d : list (string * json)) (rest' : string) :
  parse_chars (S (String.length s')) s' = Parsed k rest0 ->
  skip_ws rest0 = String ":" r0 ->
  parse_value f (skip_ws r0) = Parsed v rest -> skip_ws rest = String "," r ->
  parse_members f (skip_ws r) = Parsed d rest' ->
  parse_members (S f) (String dquote s') = Parsed ((k, v) :: d) rest'.
Proof.
  intros Hk H0 Hv Hr Hd. cbn [parse_members].
  change (code dquote =? 34) with true. cbv iota.
  now rewrite Hk, H0, Hv, Hr, Hd.
Qed.

Lemma value_end_newline (k : nat) (s : string) :
  value_end (String.append (newline_indent k) s).
Proof. right. reflexivity. Qed.

Lemma value_end_comma (s : string) : value_end (String "," s).
Proof. left. reflexivity. Qed.

Lemma join_cons_cons (sep x y : string) (l : list string) :
  join sep (x :: y :: l) = String.append x (String.append sep (join sep (y :: l))).
Proof. reflexivity. Qed.

Lemma skip_ws_opens (s tail : string) (c : ascii) (r : string) :
  s = String c r -> opens_value c ->
  skip_ws (String.append s tail) = String.append s tail.
Proof. intros -> (H & _). rewrite append_cons. now apply skip_ws_not_ws. Qed.

Lemma skip_ws_elements (n : nat) (sep : string) (x : json) (l : list json) (tail : string) :
  skip_ws (String.append (join sep (List.map (dump_indent n) (x :: l))) tail)
  = String.append (join sep (List.map (dump_indent n) (x :: l))) tail.
Proof.
  destruct (dump_indent_head n x) as (c & r & E & H).
  destruct (join_head sep _ (List.map (dump_indent n) l) c r E) as (r' & E').
  exact (skip_ws_opens _ tail c r' E' H).
Qed.

(** The elements of an array, up to and including its closing bracket *)
Lemma parse_elements_join (n : nat) (l : list json) :
  List.Forall reads_back l -> l <> [] ->
  forall (fuel : nat) (rest : string),
    (list_sum (List.map (fun x => S (size x)) l) < fuel)%nat ->
    parse_elements fuel
      (String.append (join (array_separator n) (List.map (dump_indent (S n)) l))
         (String.append (newline_indent n) (String "]" rest)))
    = Parsed l rest.
Proof.
  induction l as [|v l IH]; [congruence|]. intros Hall _ fuel rest Hfuel.
  apply List.Forall_cons_iff in Hall as [Hv Hall].
  destruct fuel as [|f]; [lia|].
  change (S (size v + list_sum (List.map (fun x => S (size x)) l)) < S f)%nat in Hfuel.
  destruct l as [|w l].
  - eapply parse_elements_last.
    + apply Hv; [apply value_end_newline | simpl in Hfuel; lia].
    + now rewrite skip_ws_newline_indent.
  - change (List.map (dump_indent (S n)) (v :: w :: l))
      with (dump_indent (S n) v :: List.map (dump_indent (S n)) (w :: l)).
    change (List.map (dump_indent (S n)) (w :: l))
      with (dump_indent (S n) w :: List.map (dump_indent (S n)) l).
    rewrite join_cons_cons, !append_assoc.
    change (List.map (dump_indent (S n)) (w :: l))
      with (dump_indent (S n) w :: List.map (dump_indent (S n)) l) in IH.
    unfold array_separator at 1. rewrite !append_cons.
    change (String.append EmptyString ?x) with x.
    eapply parse_elements_more.
    + apply Hv; [apply value_end_comma | lia].
    + reflexivity.
    + rewrite skip_ws_newline_indent.
      change (dump_indent (S n) w :: List.map (dump_indent (S n)) l)
        with (List.map (dump_indent (S n)) (w :: l)).
      rewrite skip_ws_elements. apply IH; [exact Hall | congruence | lia].
Qed.

Lemma parse_key (k tail : string) :
  parse_chars (S (String.length (String.append (escape k) (String dquote tail))))
    (String.append (escape k) (String dquote tail))
  = Parsed k tail.
Proof.
  apply parse_chars_escape. rewrite string_length_append.
  pose proof (escape_length k). lia.
Qed.

Lemma object_item_text (n : nat) (k : string) (v : json) (tail : string) :
  String.append (object_item n (k, v)) tail
  = String dquote
      (String.append (escape k)
         (String dquote (String ":" (String " "
            (String.append (dump_indent (S n) v) tail))))).
Proof.
  unfold object_item. cbn [fst snd].
  rewrite quote_eq, !append_assoc, !append_cons, !append_assoc, !append_cons.
  reflexivity.
Qed.

Lemma skip_ws_value (n : nat) (v : json) (tail : string) :
  skip_ws (String.append (dump_indent n v) tail) = String.append (dump_indent n v) tail.
Proof.
  destruct (dump_indent_head n v) as (c & r & E & H). exact (skip_ws_opens _ tail c r E H).
Qed.

(** The members of an object, up to and including its closing brace *)
Lemma parse_members_join (n : nat) (d : list (string * json)) :
  List.Forall (fun kv => reads_back (snd kv)) d -> d <> [] ->
  forall (fuel : nat) (rest : string),
    (list_sum (List.map (fun kv => S (size (snd kv))) d) < fuel)%nat ->
    parse_members fuel
      (String.append (join (array_separator n) (List.map (object_item n) d))
         (String.append (newline_indent n) (String "}" rest)))
    = Parsed d rest.
Proof.
  induction d as [|[k v] d IH]; [congruence|]. intros Hall _ fuel rest Hfuel.
  apply List.Forall_cons_iff in Hall as [Hv Hall]. cbn [snd] in Hv.
  destruct fuel as [|f]; [lia|].
  change (S (size v + list_sum (List.map (fun kv => S (size (snd kv))) d)) < S f)%nat
    in Hfuel.
  destruct d as [|[k' w] d].
  - change (join (array_separator n) (List.map (object_item n) [(k, v)]))
      with (object_item n (k, v)).
    rewrite object_item_text.
    eapply parse_members_last.
    + apply parse_key.
    + reflexivity.
    + change (skip_ws (String " " ?x)) with (skip_ws x). rewrite skip_ws_value.
      apply Hv; [apply value_end_newline | simpl in Hfuel; lia].
    + now rewrite skip_ws_newline_indent.
  - change (List.map (object_item n) ((k, v) :: (k', w) :: d))
      with (object_item n (k, v) :: object_item n (k', w) :: List.map (object_item n) d).
    rewrite join_cons_cons, append_assoc, object_item_text.
    unfold array_separator at 1. rewrite !append_assoc, !append_cons.
    change (String.append EmptyString ?x) with x.
    eapply parse_members_more.
    + apply parse_key.
    + reflexivity.
    + change (skip_ws (String " " ?x)) with (skip_ws x). rewrite skip_ws_value.
      apply Hv; [apply value_end_comma | lia].
    + reflexivity.
    + rewrite skip_ws_newline_indent.
      change (object_item n (k', w) :: List.map (object_item n) d)
        with (List.map (object_item n) ((k', w) :: d)).
      assert (Hq : skip_ws (String.append
                      (join (array_separator n) (List.map (object_item n) ((k', w) :: d)))
                      (String.append (newline_indent n) (String "}" rest)))
                   = String.append
                      (join (array_separator n) (List.map (object_item n) ((k', w) :: d)))
                      (String.append (newline_indent n) (String "}" rest))).
      { destruct (join_head (array_separator n) (object_item n (k', w))
                    (List.map (object_item n) d) dquote
                    (String.append (escape k')
                       (String dquote (String ":" (String " " (dump_indent (S n) w))))))
          as (r' & E).
        - rewrite <- (append_nil_r (object_item n (k', w))), object_item_text.
          now rewrite append_nil_r.
        - change (List.map (object_item n) ((k', w) :: d))
            with (object_item n (k', w) :: List.map (object_item n) d).
          rewrite E. reflexivity. }
      rewrite Hq. apply IH; [exact Hall | congruence | lia].
Qed.

Lemma existsb_eqb_In (k : string) (l : list string) :
  existsb (String.eqb k) l = false -> ~ In k l.
Proof.
  induction l as [|x l IH]; simpl; [tauto|].
  intros H [->|Hin].
  - now rewrite String.eqb_refl in H.
  - apply orb_false_iff in H as [_ H]. now apply IH.
Qed.

Lemma keys_distinct_NoDup (l : list string) :
  keys_distinct l = true -> List.NoDup l.
Proof.
  induction l as [|k l IH]; simpl; [constructor|].
  intros H. apply andb_true_iff in H as [Hk Hl]. constructor.
  - apply existsb_eqb_In. now apply negb_true_iff.
  - now apply IH.
Qed.

Lemma dict_set_fresh (d : dict) (k : string) (v : json) :
  ~ In k (List.map fst d) -> dict_set d k v = d ++ [(k, v)].
Proof.
  induction d as [|[k' v'] d IH]; simpl; [reflexivity|].
  intros H. destruct (String.eqb_spec k' k) as [->|Hne]; [tauto|].
  rewrite IH by tauto. reflexivity.
Qed.

Lemma dict_of_pairs_acc (pairs acc : dict) :
  List.NoDup (List.map fst (acc ++ pairs)) ->
  fold_left (fun d kv => dict_set d (fst kv) (snd kv)) pairs acc = acc ++ pairs.
Proof.
  revert acc. induction pairs as [|[k v] pairs IH]; intros acc H; simpl.
  - now rewrite app_nil_r.
  - rewrite dict_set_fresh.
    + rewrite IH; rewrite <- app_assoc; [reflexivity | exact H].
    + rewrite List.map_app in H. simpl in H.
      apply List.NoDup_remove_2 in H. intros Hin. apply H, in_or_app. now left.
Qed.

(** [dict(pairs)] of pairs with distinct keys is the pairs. *)
Lemma dict_of_pairs_distinct (d : dict) :
  keys_distinct (List.map fst d) = true -> dict_of_pairs d = d.
Proof.
  intros H. unfold dict_of_pairs. rewrite dict_of_pairs_acc; [reflexivity|].
  now apply keys_distinct_NoDup.
Qed.

Lemma dump_indent_array (n : nat) (x : json) (l : list json) (rest : string) :
  String.append (dump_indent n (JArr (x :: l))) rest
  = String "["
      (String.append (newline_indent (S n))
         (String.append (join (array_separator n) (List.map (dump_indent (S n)) (x :: l)))
            (String.append (newline_indent n) (String "]" rest)))).
Proof.
  change (dump_indent n (JArr (x :: l)))
    with (String.append "["
            (String.append (newline_indent (S n))
               (String.append
                  (join (array_separator n) (List.map (dump_indent (S n)) (x :: l)))
                  (String.append (newline_indent n) "]")))).
  rewrite !append_assoc, !append_cons. reflexivity.
Qed.

Lemma dump_indent_object (n : nat) (kv : string * json) (d : dict) (rest : string) :
  String.append (dump_indent n (JObj (kv :: d))) rest
  = String "{"
      (String.append (newline_indent (S n))
         (String.append (join (array_separator n) (List.map (object_item n) (kv :: d)))
            (String.append (newline_indent n) (String "}" rest)))).
Proof.
  change (dump_indent n (JObj (kv :: d)))
    with (String.append "{"
            (String.append (newline_indent (S n))
               (String.append
                  (join (array_separator n) (List.map (object_item n) (kv :: d)))
                  (String.append (newline_indent n) "}")))).
  rewrite !append_assoc, !append_cons. reflexivity.
Qed.

(** Every well-formed value reads back from its text. *)
Lemma well_formed_reads_back (v : json) : well_formed v = true -> reads_back v.
Proof.
  induction v as [ |b|z|s|l IH|d IH] using json_induction; intros Hwf n fuel rest He Hf;
    (destruct fuel as [|f]; [simpl in Hf; lia|]).
  - apply parse_value_literals.
  - destruct b; apply parse_value_literals.
  - change (dump_indent n (JNum z)) with (py_str_int z).
    destruct (py_str_int_head z) as (c & r & E & H).
    pose proof (parse_number_str_int z rest He) as P.
    rewrite E, append_cons in *. rewrite parse_value_number by exact H.
    now rewrite P.
  - apply parse_value_string.
  - destruct l as [|x l]; [reflexivity|].
    rewrite dump_indent_array.
    assert (Hall : List.Forall reads_back (x :: l)).
    { cbn [well_formed] in Hwf. rewrite forallb_forall in Hwf.
      rewrite List.Forall_forall in IH |- *. intros y Hy. apply IH; auto. }
    pose proof (parse_elements_join n (x :: l) Hall ltac:(congruence) f rest) as P.
    destruct (dump_indent_head (S n) x) as (c & r & E & (Hws & H93 & _)).
    destruct (join_head (array_separator n) _ (List.map (dump_indent (S n)) l) c r E)
      as (r' & E').
    change (List.map (dump_indent (S n)) (x :: l))
      with (dump_indent (S n) x :: List.map (dump_indent (S n)) l) in *.
    rewrite E' in *. rewrite append_cons in *.
    eapply parse_value_array.
    + rewrite skip_ws_newline_indent. now apply skip_ws_not_ws.
    + exact H93.
    + apply P. simpl in Hf. simpl. lia.
  - destruct d as [|[k x] d]; [reflexivity|].
    rewrite dump_indent_object.
    cbn [well_formed] in Hwf. apply andb_true_iff in Hwf as [Hkeys Hwf].
    assert (Hall : List.Forall (fun kv => reads_back (snd kv)) ((k, x) :: d)).
    { rewrite forallb_forall in Hwf.
      rewrite List.Forall_forall in IH |- *. intros y Hy. apply IH; auto.
      specialize (Hwf y Hy). now apply andb_true_iff in Hwf. }
    pose proof (parse_members_join n ((k, x) :: d) Hall ltac:(congruence) f rest) as P.
    destruct (join_head (array_separator n) (object_item n (k, x))
                (List.map (object_item n) d) dquote
                (String.append (escape k)
                   (String dquote (String ":" (String " " (dump_indent (S n) x))))))
      as (r' & E').
    { rewrite <- (append_nil_r (object_item n (k, x))), object_item_text.
      now rewrite append_nil_r. }
    change (List.map (object_item n) ((k, x) :: d))
      with (object_item n (k, x) :: List.map (object_item n) d) in *.
    rewrite E' in *. rewrite append_cons in *.
    transitivity (Parsed (JObj (dict_of_pairs ((k, x) :: d))) rest);
      [| now rewrite dict_of_pairs_distinct].
    eapply parse_value_object.
    + rewrite skip_ws_newline_indent. now apply skip_ws_not_ws.
    + reflexivity.
    + apply P. simpl in Hf. simpl. lia.
Qed.

Lemma join_size {A : Type} (f : A -> string) (sz : A -> nat) (sep : string) (l : list A) :
  (1 <= String.length sep)%nat ->
  List.Forall (fun x => (sz x <= String.length (f x))%nat) l ->
  (list_sum (List.map (fun x => S (sz x)) l) <= S (String.length (join sep (List.map f l))))%nat.
Proof.
  intros Hsep. induction l as [|x l IH]; intros Hall; [simpl; lia|].
  apply List.Forall_cons_iff in Hall as [Hx Hall]. specialize (IH Hall).
  change (list_sum (List.map (fun x => S (sz x)) (x :: l)))
    with (S (sz x + list_sum (List.map (fun x => S (sz x)) l)))%nat.
  destruct l as [|y l].
  - simpl. lia.
  - change (List.map f (x :: y :: l)) with (f x :: f y :: List.map f l).
    rewrite join_cons_cons, !string_length_append.
    change (f y :: List.map f l) with (List.map f (y :: l)). lia.
Qed.

Lemma newline_indent_length (k : nat) : (1 <= String.length (newline_indent k))%nat.
Proof. unfold newline_indent. simpl. lia. Qed.

Lemma array_separator_length (k : nat) : (1 <= String.length (array_separator k))%nat.
Proof. unfold array_separator. rewrite append_cons. simpl. lia. Qed.

(** A value's text has at least one character for each of its nodes. *)
Lemma size_le_length (v : json) :
  forall n, (size v <= String.length (dump_indent n v))%nat.
Proof.
  induction v as [ |b|z|s|l IH|d IH] using json_induction; intros n.
  - simpl. lia.
  - destruct b; simpl; lia.
  - change (dump_indent n (JNum z)) with (py_str_int z).
    destruct (py_str_int_head z) as (c & r & E & _). rewrite E. simpl. lia.
  - simpl. lia.
  - destruct l as [|x l]; [simpl; lia|].
    rewrite <- (append_nil_r (dump_indent n (JArr (x :: l)))), dump_indent_array.
    pose proof (join_size (dump_indent (S n)) size (array_separator n) (x :: l)
                  (array_separator_length n)) as J.
    cbn [String.length]. rewrite !string_length_append.
    pose proof (newline_indent_length (S n)).
    change (size (JArr (x :: l)))
      with (S (list_sum (List.map (fun y => S (size y)) (x :: l)))).
    assert (list_sum (List.map (fun y => S (size y)) (x :: l))
            <= S (String.length (join (array_separator n)
                                   (List.map (dump_indent (S n)) (x :: l)))))%nat; [|lia].
    apply J. rewrite List.Forall_forall in IH |- *. intros y Hy. apply IH, Hy.
  - destruct d as [|kv d]; [simpl; lia|].
    rewrite <- (append_nil_r (dump_indent n (JObj (kv :: d)))), dump_indent_object.
    pose proof (join_size (object_item n) (fun kv => size (snd kv)) (array_separator n)
                  (kv :: d) (array_separator_length n)) as J.
    cbn [String.length]. rewrite !string_length_append.
    pose proof (newline_indent_length (S n)).
    change (size (JObj (kv :: d)))
      with (S (list_sum (List.map (fun y => S (size (snd y))) (kv :: d)))).
    assert (list_sum (List.map (fun y => S (size (snd y))) (kv :: d))
            <= S (String.length (join (array_separator n)
                                   (List.map (object_item n) (kv :: d)))))%nat; [|lia].
    apply J. rewrite List.Forall_forall in IH |- *. intros y Hy.
    unfold object_item. rewrite !string_length_append. specialize (IH y Hy (S n)). lia.
Qed.

(** [json.loads(json.dumps(v, indent=2, ensure_ascii=False)) == v] *)
Lemma loads_dump (v : json) :
  well_formed v = true -> loads (dump v) = Parsed v EmptyString.
Proof.
  intros Hwf. unfold loads, dump.
  pose proof (skip_ws_value 0%nat v EmptyString) as Hs. rewrite append_nil_r in Hs.
  rewrite Hs. rewrite <- (append_nil_r (dump_indent 0 v)) at 2.
  rewrite (well_formed_reads_back v Hwf 0%nat); [reflexivity | exact I |].
  pose proof (size_le_length v 0%nat). lia.
Qed.

End JsonValues.

Section JsonEncoding.

Import Json.

Lemma escape_app (a b : string) :
  escape (String.append a b) = String.append (escape a) (escape b).
Proof.
  induction a as [|c a IH]; [reflexivity|].
  rewrite append_cons, !escape_cons, IH, append_assoc. reflexivity.
Qed.

Lemma escape_char_high (c : ascii) :
  (code c <? 128) = false -> escape_char c = String c EmptyString.
Proof.
  destruct c as [[] [] [] [] [] [] [] []]; intros H; vm_compute in H;
    try discriminate H; reflexivity.
Qed.

Lemma in_range_high (lo hi : Z) (c : ascii) :
  128 <= lo -> in_range lo hi c = true -> (code c <? 128) = false.
Proof. unfold in_range. intros Hlo H. apply andb_true_iff in H as [H _]. lia. Qed.

(** One encoded code point is a single ASCII byte, or a run of bytes
    above 127 that [escape] leaves alone. *)
Lemma utf8_step_cases (s rest : string) :
  utf8_step s = Some rest ->
  (exists a, s = String a rest /\ (code a <? 128) = true)
  \/ (exists p, s = String.append p rest /\ escape p = p
                /\ forall t, utf8_step (String.append p t) = Some t).
Proof.
  unfold utf8_step. destruct s as [|a s1]; [discriminate|].
  destruct (code a <? 128) eqn:Ha; [intros [= <-]; left; eauto|].
  pose proof (escape_char_high a Ha) as Ea.
  destruct s1 as [|b s2]; [discriminate|].
  destruct (in_range 194 223 a) eqn:R2.
  { destruct (in_range 128 191 b) eqn:Rb; [|discriminate]. intros [= <-]. right.
    exists (String a (String b EmptyString)). split; [reflexivity|]. split.
    - rewrite !escape_cons, Ea, (escape_char_high b); [reflexivity|].
      eapply in_range_high; [|exact Rb]; lia.
    - intros t. rewrite !append_cons. change (String.append EmptyString t) with t.
      now rewrite Ha, R2, Rb. }
  destruct s2 as [|c s3]; [discriminate|].
  destruct (in_range 224 239 a) eqn:R3.
  { destruct ((if code a =? 224 then in_range 160 191 b
               else if code a =? 237 then in_range 128 159 b
               else in_range 128 191 b) && in_range 128 191 c) eqn:Rbc; [|discriminate].
    intros [= <-]. right.
    exists (String a (String b (String c EmptyString))). split; [reflexivity|]. split.
    - apply andb_true_iff in Rbc as [Rb Rc].
      rewrite !escape_cons, Ea, (escape_char_high b), (escape_char_high c); [reflexivity|..].
      + eapply in_range_high; [|exact Rc]; lia.
      + destruct (code a =? 224); [|destruct (code a =? 237)];
          (eapply in_range_high; [|exact Rb]; lia).
    - intros t. rewrite !append_cons. change (String.append EmptyString t) with t.
      now rewrite Ha, R2, R3, Rbc. }
  destruct s3 as [|d s4]; [discriminate|].
  destruct (in_range 240 244 a
            && (if code a =? 240 then in_range 144 191 b
                else if code a =? 244 then in_range 128 143 b
                else in_range 128 191 b)
            && in_range 128 191 c && in_range 128 191 d) eqn:R4; [|discriminate].
  intros [= <-]. right.
  exists (String a (String b (String c (String d EmptyString)))).
  split; [reflexivity|]. split.
  - apply andb_true_iff in R4 as [R4 Rd]. apply andb_true_iff in R4 as [R4 Rc].
    apply andb_true_iff in R4 as [_ Rb].
    rewrite !escape_cons, Ea, (escape_char_high b), (escape_char_high c),
      (escape_char_high d); [reflexivity|..].
    + eapply in_range_high; [|exact Rd]; lia.
    + eapply in_range_high; [|exact Rc]; lia.
    + destruct (code a =? 240); [|destruct (code a =? 244)];
        (eapply in_range_high; [|exact Rb]; lia).
  - intros t. rewrite !append_cons. change (String.append EmptyString t) with t.
    now rewrite Ha, R2, R3, R4.
Qed.

Lemma utf8_step_ascii (a : ascii) (rest : string) :
  (code a <? 128) = true -> utf8_step (String a rest) = Some rest.
Proof. intros H. unfold utf8_step. now rewrite H. Qed.

Lemma utf8_step_app (s rest t : string) :
  utf8_step s = Some rest ->
  utf8_step (String.append s t) = Some (String.append rest t).
Proof.
  intros H. destruct (utf8_step_cases s rest H) as [(a & -> & Ha)|(p & -> & _ & Hp)].
  - rewrite append_cons. now apply utf8_step_ascii.
  - rewrite append_assoc. apply Hp.
Qed.

Lemma utf8_step_length (s rest : string) :
  utf8_step s = Some rest -> (String.length rest < String.length s)%nat.
Proof.
  intros H. destruct (utf8_step_cases s rest H) as [(a & -> & Ha)|(p & -> & _ & Hp)].
  - simpl. lia.
  - rewrite string_length_append. destruct p as [|c p]; [|simpl; lia].
    specialize (Hp EmptyString). discriminate Hp.
Qed.

Lemma utf8_app (a b : string) : utf8 a -> utf8 b -> utf8 (String.append a b).
Proof.
  intros Ha Hb. induction Ha as [|s rest Hs Hrest IH]; [exact Hb|].
  eapply utf8_more; [apply utf8_step_app, Hs | exact IH].
Qed.

Lemma utf8_ascii (s : string) : ascii_only s = true -> utf8 s.
Proof.
  induction s as [|c s IH]; [constructor|]. cbn [ascii_only].
  intros H. apply andb_true_iff in H as [Hc Hs].
  eapply utf8_more; [apply utf8_step_ascii, Hc | apply IH, Hs].
Qed.

Lemma escape_char_ascii (c : ascii) :
  (code c <? 128) = true -> ascii_only (escape_char c) = true.
Proof.
  destruct c as [[] [] [] [] [] [] [] []]; intros H; vm_compute in H;
    try discriminate H; reflexivity.
Qed.

Lemma utf8_escape (s : string) : utf8 s -> utf8 (escape s).
Proof.
  induction 1 as [|s rest Hs Hrest IH]; [constructor|].
  destruct (utf8_step_cases s rest Hs) as [(a & -> & Ha)|(p & -> & Ep & Hp)].
  - rewrite escape_cons. apply utf8_app; [|exact IH].
    apply utf8_ascii, escape_char_ascii, Ha.
  - rewrite escape_app, Ep. eapply utf8_more; [apply Hp | exact IH].
Qed.

Lemma utf8_valid_fuel_complete (f : nat) (s : string) :
  (String.length s <= f)%nat -> utf8 s -> utf8_valid_fuel f s = true.
Proof.
  intros Hf Hs. revert f Hf. induction Hs as [|s rest Hs Hrest IH]; intros f Hf.
  - now destruct f.
  - pose proof (utf8_step_length s rest Hs) as L.
    destruct s as [|c s]; [discriminate|]. destruct f as [|f]; [simpl in Hf; lia|].
    cbn [utf8_valid_fuel]. rewrite Hs. apply IH. simpl in *. lia.
Qed.

Lemma utf8_valid_fuel_sound (f : nat) (s : string) :
  utf8_valid_fuel f s = true -> utf8 s.
Proof.
  revert s. induction f as [|f IH]; intros [|c s] H; try constructor; try discriminate H.
  cbn [utf8_valid_fuel] in H. destruct (utf8_step (String c s)) as [rest|] eqn:E;
    [|discriminate]. eapply utf8_more; [exact E | apply IH, H].
Qed.

(** [bytes.decode('utf-8')] succeeds exactly on sequences of encoded
    code points. *)
Lemma utf8_valid_iff (s : string) : utf8_valid s = true <-> utf8 s.
Proof.
  split; [apply utf8_valid_fuel_sound | apply utf8_valid_fuel_complete; lia].
Qed.

Lemma ascii_only_app (a b : string) :
  ascii_only (String.append a b) = ascii_only a && ascii_only b.
Proof.
  induction a as [|c a IH]; [reflexivity|].
  rewrite append_cons. cbn [ascii_only]. rewrite IH. apply andb_assoc.
Qed.

Lemma string_of_uint_ascii (d : Decimal.uint) :
  ascii_only (NilEmpty.string_of_uint d) = true.
Proof.
  induction d; [reflexivity | ..];
    cbn [NilEmpty.string_of_uint ascii_only]; rewrite IHd; reflexivity.
Qed.

Lemma py_str_int_ascii (z : Z) : ascii_only (py_str_int z) = true.
Proof.
  unfold py_str_int, NilZero.string_of_int, NilZero.string_of_uint.
  destruct (Z.to_int z) as [d|d]; destruct d eqn:E; try reflexivity;
    rewrite <- E; cbn [ascii_only]; rewrite string_of_uint_ascii; reflexivity.
Qed.

Lemma newline_indent_ascii (k : nat) : ascii_only (newline_indent k) = true.
Proof.
  unfold newline_indent. cbn [ascii_only].
  change (code (ascii_of_nat 10) <? 128) with true. cbv iota beta.
  change (ascii_only (String.concat EmptyString (repeat "  " k)) = true).
  induction k as [|k IH]; [reflexivity|]. destruct k as [|k]; [reflexivity|].
  change (repeat "  " (S (S k))) with ("  " :: repeat "  " (S k)).
  change (String.concat EmptyString ("  " :: repeat "  " (S k)))
    with (String.append "  " (String.append EmptyString
            (String.concat EmptyString (repeat "  " (S k))))).
  change (String.append EmptyString ?x) with x.
  rewrite ascii_only_app, IH. reflexivity.
Qed.

Lemma utf8_cons_ascii (c : ascii) (s : string) :
  (code c <? 128) = true -> utf8 s -> utf8 (String c s).
Proof. intros Hc Hs. eapply utf8_more; [apply utf8_step_ascii, Hc | exact Hs]. Qed.

Lemma utf8_quote (s : string) : utf8 s -> utf8 (quote s).
Proof.
  intros H. rewrite quote_eq. apply utf8_cons_ascii; [reflexivity|].
  apply utf8_app; [apply utf8_escape, H | now apply utf8_ascii].
Qed.

Lemma utf8_join (sep : string) (l : list string) :
  utf8 sep -> List.Forall utf8 l -> utf8 (join sep l).
Proof.
  intros Hsep. induction l as [|x l IH]; intros Hall; [constructor|].
  apply List.Forall_cons_iff in Hall as [Hx Hall]. specialize (IH Hall).
  destruct l as [|y l]; [exact Hx|].
  rewrite join_cons_cons. now repeat apply utf8_app.
Qed.

Lemma utf8_newline_indent (k : nat) : utf8 (newline_indent k).
Proof. apply utf8_ascii, newline_indent_ascii. Qed.

Lemma utf8_array_separator (k : nat) : utf8 (array_separator k).
Proof.
  unfold array_separator. apply utf8_app; [now apply utf8_ascii | apply utf8_newline_indent].
Qed.

(** The text of a well-formed value is well-formed UTF-8. *)
Lemma utf8_dump_indent (v : json) :
  well_formed v = true -> forall n, utf8 (dump_indent n v).
Proof.
  induction v as [ |b|z|s|l IH|d IH] using json_induction; intros Hwf n.
  - now apply utf8_ascii.
  - destruct b; now apply utf8_ascii.
  - apply utf8_ascii, py_str_int_ascii.
  - apply utf8_quote, utf8_valid_iff, Hwf.
  - destruct l as [|x l]; [now apply utf8_ascii|].
    rewrite <- (append_nil_r (dump_indent n (JArr (x :: l)))), dump_indent_array.
    apply utf8_cons_ascii; [reflexivity|].
    apply utf8_app; [apply utf8_newline_indent|].
    apply utf8_app; [|apply utf8_app; [apply utf8_newline_indent | now apply utf8_ascii]].
    apply utf8_join; [apply utf8_array_separator|].
    cbn [well_formed] in Hwf. rewrite forallb_forall in Hwf.
    rewrite List.Forall_forall in IH |- *. intros t Ht.
    apply List.in_map_iff in Ht as (y & <- & Hy). apply IH; auto.
  - destruct d as [|kv d]; [now apply utf8_ascii|].
    rewrite <- (append_nil_r (dump_indent n (JObj (kv :: d)))), dump_indent_object.
    apply utf8_cons_ascii; [reflexivity|].
    apply utf8_app; [apply utf8_newline_indent|].
    apply utf8_app; [|apply utf8_app; [apply utf8_newline_indent | now apply utf8_ascii]].
    apply utf8_join; [apply utf8_array_separator|].
    cbn [well_formed] in Hwf. apply andb_true_iff in Hwf as [_ Hwf].
    rewrite forallb_forall in Hwf.
    rewrite List.Forall_forall in IH |- *. intros t Ht.
    apply List.in_map_iff in Ht as (y & <- & Hy).
    specialize (Hwf y Hy). apply andb_true_iff in Hwf as [Hk Hy'].
    unfold object_item. apply utf8_app; [apply utf8_quote, utf8_valid_iff, Hk|].
    apply utf8_app; [now apply utf8_ascii | apply IH; auto].
Qed.

(** Reading a file that holds [json.dump(v, f, ensure_ascii=False,
    indent=2)] gives [v] back. *)
Lemma read_file_dump (v : json) :
  Json.well_formed v = true -> read_file (Json.dump v) = Ok (Document v).
Proof.
  intros Hwf. unfold read_file.
  assert (U : utf8_valid (dump v) = true)
    by (apply utf8_valid_iff, utf8_dump_indent, Hwf).
  rewrite U, (loads_dump v Hwf). reflexivity.
Qed.

End JsonEncoding.
(** ** C3 and C5: the checksum and the two validators *)

Section Validation.

(** What [backup_manager.validate_backup] decides for a JSON object: it
    looks at [clips] and [checksum] and at nothing else. *)
Lemma validate_data_object (d : dict) :
  backup_manager.validate_data (Some (Document (JObj d))) =
  match dict_get d "clips", dict_get d "checksum" with
  | Some clips, Some (JStr stored) =>
      if String.eqb stored (backup_manager.compute_checksum (Json.dumps clips))
      then Ok (true, Some clips) else Ok (false, None)
  | _, _ => Ok (false, None)
  end.
Proof.
  unfold backup_manager.validate_data, dict_has, dict_get_or.
  destruct (dict_get d "clips") as [clips|]; cbn [negb orb]; [|reflexivity].
  destruct (dict_get d "checksum") as [stored|]; cbn [negb orb]; [|reflexivity].
  destruct stored; reflexivity.
Qed.

Lemma backup_data_fields created_at clips :
  dict_get (backup_manager.backup_data created_at clips) "clips" = Some (JArr clips) /\
  dict_get (backup_manager.backup_data created_at clips) "checksum"
  = Some (JStr (backup_manager.compute_checksum (Json.dumps (JArr clips)))).
Proof. split; reflexivity. Qed.

(** Rotation only removes files. *)
Lemma rotate_backups_lookup d fs p f :
  backup_manager.rotate_backups d fs !! p = Some f -> fs !! p = Some f.
Proof.
  unfold backup_manager.rotate_backups.
  destruct (_ <? _)%nat; [|auto].
  generalize (skipn backup_manager.MAX_BACKUPS (backup_manager.get_backup_files fs)).
  intros olds. revert fs. induction olds as [|o olds IH]; intros fs; simpl; [auto|].
  intros H. apply IH in H. unfold backup_manager.try_remove in H.
  destruct (remove_fails d o); [exact H|].
  destruct (decide (o = p)) as [->|Hne].
  - rewrite lookup_delete_eq in H. discriminate.
  - now rewrite lookup_delete_ne in H.
Qed.

Lemma backup_data_validates (created_at : string) (clips : list json) :
  backup_manager.validate_data
    (Some (Document (JObj (backup_manager.backup_data created_at clips))))
  = Ok (true, Some (JArr clips)).
Proof.
  rewrite validate_data_object.
  destruct (backup_data_fields created_at clips) as [-> ->].
  now rewrite String.eqb_refl.
Qed.

(** A digest is rendered in hexadecimal digits. *)
Lemma hex_digit_ascii (n : Z) :
  0 <= n < 16 -> (Json.code (Hashlib.hex_digit n) <? 128) = true.
Proof.
  intros H. rewrite <- (Z2Nat.id n) by lia.
  assert (Hk : (Z.to_nat n < 16)%nat) by lia.
  revert Hk. generalize (Z.to_nat n). intros k Hk.
  do 16 (destruct k as [|k]; [reflexivity|]). lia.
Qed.

Lemma hex_byte_ascii (b : Z) :
  0 <= b < 256 -> Json.ascii_only (Hashlib.hex_byte b) = true.
Proof.
  intros H. unfold Hashlib.hex_byte. cbn [Json.ascii_only].
  rewrite !hex_digit_ascii; [reflexivity|..].
  - change 15 with (Z.ones 4). rewrite Z.land_ones by lia.
    apply Z.mod_pos_bound. lia.
  - rewrite Z.shiftr_div_pow2 by lia. change (2 ^ 4) with 16.
    split; [apply Z.div_pos; lia | apply Z.div_lt_upper_bound; lia].
Qed.

Lemma hex_of_ascii (bs : list Z) :
  List.Forall (fun b => 0 <= b < 256) bs -> Json.ascii_only (Hashlib.hex_of bs) = true.
Proof.
  induction 1 as [|b bs Hb Hbs IH]; [reflexivity|].
  change (Hashlib.hex_of (b :: bs))
    with (String.append (Hashlib.hex_byte b) (Hashlib.hex_of bs)).
  now rewrite ascii_only_app, hex_byte_ascii, IH.
Qed.

Lemma le_bytes_range (n : nat) (x : Z) :
  List.Forall (fun b => 0 <= b < 256) (Hashlib.le_bytes n x).
Proof.
  revert x. induction n as [|n IH]; intros x; constructor; [|apply IH].
  change 255 with (Z.ones 8). rewrite Z.land_ones by lia. apply Z.mod_pos_bound. lia.
Qed.

Lemma sha256_hexdigest_ascii (s : string) :
  Json.ascii_only (Hashlib.sha256_hexdigest s) = true.
Proof.
  unfold Hashlib.sha256_hexdigest, Hashlib.sha256. apply hex_of_ascii.
  apply List.Forall_flat_map, List.Forall_forall. intros x _.
  unfold Hashlib.be_bytes. apply List.Forall_rev, le_bytes_range.
Qed.

(** The document [create_backup] serializes holds Python values whenever
    the clips and the time stamp do. *)
Lemma backup_data_well_formed (created_at : string) (clips : list json) :
  Json.well_formed (JArr clips) = true -> Json.utf8_valid created_at = true ->
  Json.well_formed (JObj (backup_manager.backup_data created_at clips)) = true.
Proof.
  intros Hclips Hat. unfold backup_manager.backup_data.
  cbn [Json.well_formed List.map fst snd forallb] in *.
  rewrite Hclips, Hat.
  assert (Hsum : Json.utf8_valid
            (backup_manager.compute_checksum (Json.dumps (JArr clips))) = true).
  { apply utf8_valid_iff, utf8_ascii, sha256_hexdigest_ascii. }
  rewrite Hsum. reflexivity.
Qed.

(** Reading the snapshot file back gives the document that was written. *)
Lemma read_backup (created_at : string) (clips : list json) :
  Json.well_formed (JArr clips) = true -> Json.utf8_valid created_at = true ->
  read_file (Json.dump (JObj (backup_manager.backup_data created_at clips)))
  = Ok (Document (JObj (backup_manager.backup_data created_at clips))).
Proof. intros Hclips Hat. now apply read_file_dump, backup_data_well_formed. Qed.

End Validation.

(** C3, as the code has it. For clips and a time stamp that are Python
    values, reading and validating the bytes that [create_backup] writes
    succeeds and returns the clip collection it was given, also through
    the file system whenever the file is still there after rotation. The
    checksum is the digest of the canonical serialization of the [clips]
    list alone: for any JSON object the verdict is a function of its
    [clips] and [checksum] entries, so a change confined to [version],
    [created_at] or [clip_count] goes unnoticed, and an object whose
    [checksum] is not the digest of its [clips] is rejected with the same
    [(False, None)] as an unreadable or incomplete one. *)
Theorem create_backup_validates (created_at : string) (clips : list json) :
  Json.well_formed (JArr clips) = true -> Json.utf8_valid created_at = true ->
  (f ← read_file (Json.dump (JObj (backup_manager.backup_data created_at clips)));
   backup_manager.validate_data (Some f)) = Ok (true, Some (JArr clips)) /\
  (forall d timestamp fs path fs',
     backup_manager.create_backup d timestamp created_at clips fs = (Some path, fs') ->
     is_Some (fs' !! path) ->
     backup_manager.validate_backup fs' path = Ok (true, Some (JArr clips))) /\
  (forall (d : dict) (c : json) (stored : string),
     dict_get d "clips" = Some c -> dict_get d "checksum" = Some (JStr stored) ->
     backup_manager.validate_data (Some (Document (JObj d)))
     = if String.eqb stored (backup_manager.compute_checksum (Json.dumps c))
       then Ok (true, Some c) else Ok (false, None)).
Proof.
  intros Hclips Hat.
  pose proof (read_backup created_at clips Hclips Hat) as Hread.
  split; [|split].
  - rewrite Hread. apply backup_data_validates.
  - intros d timestamp fs path fs'.
    unfold backup_manager.create_backup, backup_manager.create_backup_failed.
    destruct (write_fails d _); [discriminate|].
    destruct (write_fails d _); [destruct (partial_write d _); discriminate|].
    rewrite lookup_insert_eq. intros [= <- <-] [f Hf].
    unfold backup_manager.validate_backup, read_path. rewrite Hf.
    apply rotate_backups_lookup in Hf. rewrite lookup_insert_eq in Hf.
    injection Hf as <-. rewrite Hread. apply backup_data_validates.
  - intros d c stored Hc Hk. rewrite validate_data_object, Hc, Hk. reflexivity.
Qed.

Lemma create_backup_validates_witness :
  let clips := get_all_clips two_pinned in
  let path := "backups/clipboard_backup_20240501_100000.json" in
  let text := Json.dump (JObj (backup_manager.backup_data "2024-05-01T10:00:00" clips)) in
  Json.well_formed (JArr clips) = true /\
  backup_manager.create_backup reliable "20240501_100000" "2024-05-01T10:00:00" clips ∅
  = (Some path, {[ path := text ]}) /\
  backup_manager.validate_backup {[ path := text ]} path = Ok (true, Some (JArr clips)).
Proof.
  cbv zeta.
  assert (W : Json.well_formed (JArr (get_all_clips two_pinned)) = true)
    by (vm_compute; reflexivity).
  assert (E : backup_manager.create_backup reliable "20240501_100000"
                "2024-05-01T10:00:00" (get_all_clips two_pinned) ∅
              = (Some "backups/clipboard_backup_20240501_100000.json",
                 {[ "backups/clipboard_backup_20240501_100000.json" :=
                      Json.dump (JObj (backup_manager.backup_data "2024-05-01T10:00:00"
                                         (get_all_clips two_pinned))) ]}))
    by (vm_compute; reflexivity).
  split; [exact W|]. split; [exact E|].
  refine (proj1 (proj2 (create_backup_validates "2024-05-01T10:00:00"
                          (get_all_clips two_pinned) W eq_refl)) _ _ _ _ _ E _).
  rewrite lookup_singleton_eq. eexists. reflexivity.
Defined.

(** C3 as stated fails. In the file written for [two_pinned], the byte at
    offset 53 is the last digit of [created_at]; replace that 0 by 1. One
    byte differs, it lies outside the checksum field, the file reads as
    the same document with another [created_at], and validation still
    succeeds and returns the clips. *)
Lemma checksum_ignores_created_at :
  let clips := get_all_clips two_pinned in
  let path := "backups/clipboard_backup_20240501_100000.json" in
  let written := backup_manager.backup_data "2024-05-01T10:00:00" clips in
  let text := Json.dump (JObj written) in
  let flipped := set_byte 53 "1" text in
  differing_bytes text flipped = 1%nat /\
  read_file flipped
  = Ok (Document (JObj (dict_set written "created_at" (JStr "2024-05-01T10:00:01")))) /\
  dict_get (dict_set written "created_at" (JStr "2024-05-01T10:00:01")) "checksum"
  = dict_get written "checksum" /\
  backup_manager.validate_backup {[ path := flipped ]} path = Ok (true, Some (JArr clips)).
Proof. cbv zeta. repeat split; vm_compute; reflexivity. Qed.

(** What a changed byte does otherwise: inside [clips] the checksum no
    longer matches, a byte of the syntax leaves text that does not parse,
    and both give [(False, None)]; a byte that breaks the encoding makes
    [validate_backup] raise [UnicodeDecodeError]. *)
Example changed_bytes_elsewhere :
  let clips := get_all_clips two_pinned in
  let path := "backups/clipboard_backup_20240501_100000.json" in
  let text := Json.dump (JObj (backup_manager.backup_data "2024-05-01T10:00:00" clips)) in
  backup_manager.validate_backup {[ path := set_byte 0 "[" text ]} path = Ok (false, None) /\
  backup_manager.validate_backup {[ path := set_byte 53 (ascii_of_nat 200) text ]} path
  = Raise UnicodeDecodeError.
Proof. cbv zeta. split; vm_compute; reflexivity. Qed.

(** C5 as stated fails: neither validator reads both layouts. The
    validator the application uses rejects the version 2 document (split
    [history] and [pinned]) that [BackupManager._do_backup] writes, and
    [BackupManager.validate_backup] rejects the version 1 document (flat
    [clips]) that [create_backup] writes. *)
Lemma validators_reject_the_other_layout :
  let clips := get_all_clips two_pinned in
  let v1 := Document (JObj (backup_manager.backup_data "2024-05-01T10:00:00" clips)) in
  let v2 := Document (JObj (backup.backup_data "2024-05-01T10:00:00" clips)) in
  backup_manager.validate_data (Some v2) = Ok (false, None) /\
  backup.validate_data (Some v1) = (false, None).
Proof. cbv zeta. split; vm_compute; reflexivity. Qed.

(** C5, as the code has it. Each validator reads the layout of its own
    writer only. For a JSON object, [backup_manager.validate_backup]
    accepts exactly when [clips] and [checksum] are present and
    [checksum] is the digest of [clips]; [BackupManager.validate_backup]
    accepts exactly when [history] or [pinned] is present and [checksum]
    is either absent or the digest of the object without it. Each accepts
    what its writer produces. A rejection is the pair [(False, None)],
    whether the file cannot be opened, does not parse, lacks an entry or
    fails the checksum. The two differ on what is not an object and on
    what is not text. [backup_manager.validate_backup] rejects every JSON
    value that is not an object, and a file that is not UTF-8 makes it
    raise [UnicodeDecodeError], which its [except] clause does not name.
    [BackupManager.validate_backup] catches every exception, so it
    rejects the file that is not UTF-8; a number, a boolean and [null]
    are rejected, but a list or a string is accepted when it contains
    [history] or [pinned] and does not contain [checksum]. *)
Theorem validators_by_layout (d : dict) (created_at : string) (clips : list json) :
  backup_manager.validate_data (Some (Document (JObj d))) =
    match dict_get d "clips", dict_get d "checksum" with
    | Some c, Some (JStr stored) =>
        if String.eqb stored (backup_manager.compute_checksum (Json.dumps c))
        then Ok (true, Some c) else Ok (false, None)
    | _, _ => Ok (false, None)
    end /\
  backup.validate_data (Some (Document (JObj d))) =
    (if negb (dict_has d "history") && negb (dict_has d "pinned") then (false, None)
     else match dict_get d "checksum" with
          | None => (true, Some (JObj d))
          | Some (JStr stored) =>
              if String.eqb stored (backup.checksum_of d)
              then (true, Some (JObj d)) else (false, None)
          | Some _ => (false, None)
          end) /\
  backup_manager.validate_data
    (Some (Document (JObj (backup_manager.backup_data created_at clips))))
  = Ok (true, Some (JArr clips)) /\
  backup.validate_data (Some (Document (JObj (backup.backup_data created_at clips))))
  = (true, Some (JObj (backup.backup_data created_at clips))) /\
  backup_manager.validate_data (Some Garbage) = Ok (false, None) /\
  backup_manager.validate_data None = Ok (false, None) /\
  backup.validate_data (Some Garbage) = (false, None) /\
  backup.validate_data None = (false, None) /\
  backup_manager.validate_data (Some Undecodable) = Raise UnicodeDecodeError /\
  backup.validate_data (Some Undecodable) = (false, None) /\
  (forall v, (forall o, v <> JObj o) ->
     backup_manager.validate_data (Some (Document v)) = Ok (false, None)) /\
  (forall l : list json,
     let has := fun k : string =>
       existsb (fun v => match v with JStr s => String.eqb s k | _ => false end) l in
     backup.validate_data (Some (Document (JArr l)))
     = if (has "history" || has "pinned") && negb (has "checksum")
       then (true, Some (JArr l)) else (false, None)) /\
  (forall s : string,
     backup.validate_data (Some (Document (JStr s)))
     = if (is_substring "history" s || is_substring "pinned" s)
          && negb (is_substring "checksum" s)
       then (true, Some (JStr s)) else (false, None)) /\
  (forall (b : bool) (z : Z),
     backup.validate_data (Some (Document JNull)) = (false, None) /\
     backup.validate_data (Some (Document (JBool b))) = (false, None) /\
     backup.validate_data (Some (Document (JNum z))) = (false, None)).
Proof.
  split; [apply validate_data_object|]. split.
  { unfold backup.validate_data, backup.py_contains, dict_has, dict_get_or.
    destruct (dict_get d "history"), (dict_get d "pinned"); cbn [negb andb];
      destruct (dict_get d "checksum") as [[]|]; reflexivity. }
  split; [apply backup_data_validates|]. split.
  { unfold backup.validate_data, backup.py_contains, backup.backup_data.
    cbn [dict_set dict_has dict_get dict_get_or String.eqb Ascii.eqb Bool.eqb negb andb].
    unfold backup.checksum_of.
    cbn [dict_without List.filter fst String.eqb Ascii.eqb Bool.eqb negb].
    now rewrite String.eqb_refl. }
  do 6 (split; [reflexivity|]). split.
  { intros v Hv. destruct v; try reflexivity. now elim (Hv d0). }
  split.
  { intros l. cbv zeta. unfold backup.validate_data, backup.py_contains.
    do 3 (destruct (existsb _ l)); reflexivity. }
  split.
  { intros s. unfold backup.validate_data, backup.py_contains.
    do 3 (destruct (is_substring _ s)); reflexivity. }
  intros b z. repeat split.
Qed.

(** ** C10: rotation *)

Section StringOrder.

Lemma leb_iff (a b : string) : String.leb a b = true <-> String_as_OT.lt a b \/ a = b.
Proof.
  unfold String.leb. destruct (String.compare a b) eqn:E.
  - apply String_as_OT.cmp_eq in E. intuition.
  - apply String_as_OT.cmp_lt in E. intuition.
  - split; [discriminate|]. intros [H | ->].
    + apply String_as_OT.cmp_lt in H. unfold String_as_OT.cmp in H. congruence.
    + assert (String.compare b b = Eq) by (now apply String_as_OT.cmp_eq). congruence.
Qed.

Lemma ltb_iff (a b : string) : String.ltb a b = true <-> String_as_OT.lt a b.
Proof.
  unfold String.ltb. rewrite <- String_as_OT.cmp_lt. unfold String_as_OT.cmp.
  destruct (String.compare a b); intuition discriminate.
Qed.

#[global] Instance str_ge_trans : Transitive str_ge.
Proof.
  intros a b c. unfold str_ge. rewrite !leb_iff. intros [H1 | ->] [H2 | ->]; auto.
  left. eapply String_as_OT.lt_trans; eauto.
Qed.

#[global] Instance str_ge_antisym : AntiSymm (=) str_ge.
Proof. intros a b H1 H2. now apply String.leb_antisym. Qed.

#[global] Instance str_ge_total : Total str_ge.
Proof. intros a b. unfold str_ge. destruct (String.leb_total a b); auto. Qed.

#[global] Instance str_lt_trans : Transitive backup_manager.str_lt.
Proof.
  intros a b c. unfold backup_manager.str_lt. rewrite !ltb_iff.
  apply String_as_OT.lt_trans.
Qed.

Lemma str_lt_ge (a b : string) : backup_manager.str_lt a b -> str_ge b a.
Proof. unfold backup_manager.str_lt, str_ge. rewrite ltb_iff, leb_iff. auto. Qed.

Lemma str_lt_neq (a b : string) : backup_manager.str_lt a b -> a <> b.
Proof.
  unfold backup_manager.str_lt. rewrite ltb_iff. intros H ->.
  exact (String_as_OT.lt_not_eq _ _ H eq_refl).
Qed.

Lemma compare_refl (a : string) : String.compare a a = Eq.
Proof. now apply String_as_OT.cmp_eq. Qed.

Lemma compare_app_l (p a b : string) :
  String.compare (String.append p a) (String.append p b) = String.compare a b.
Proof.
  induction p as [|c p IH]; simpl; [reflexivity|].
  unfold Ascii.compare. now rewrite N.compare_refl.
Qed.

Lemma compare_app_r (a b s : string) :
  String.length a = String.length b ->
  String.compare (String.append a s) (String.append b s) = String.compare a b.
Proof.
  revert b. induction a as [|x a IH]; intros [|y b]; simpl; try discriminate.
  - intros _. apply compare_refl.
  - intros [= H]. destruct (Ascii.compare x y); auto.
Qed.

End StringOrder.

Section Listing.

Import backup_manager.

Lemma sorted_reverse_spec (l : list string) :
  Sorted str_ge (sorted_reverse l) /\ sorted_reverse l ≡ₚ l.
Proof.
  unfold sorted_reverse. split.
  - apply Sorted_merge_sort. apply _.
  - apply merge_sort_Permutation.
Qed.

(** The keys of the file system that match the glob pattern. *)
Lemma elem_of_glob_keys (fs : filesystem) (p : string) :
  p ∈ List.filter glob_match (List.map fst (map_to_list fs))
  <-> glob_match p = true /\ is_Some (fs !! p).
Proof.
  rewrite list_elem_of_In, List.filter_In, <- list_elem_of_In.
  change (List.map fst (map_to_list fs)) with ((map_to_list fs).*1).
  rewrite list_elem_of_fmap. split.
  - intros [([q f] & -> & Hin) Hg]. apply elem_of_map_to_list in Hin.
    split; [exact Hg | eauto].
  - intros [Hg [f Hf]]. split; [|exact Hg]. exists (p, f). split; [reflexivity|].
    now apply elem_of_map_to_list.
Qed.

Lemma NoDup_glob_keys (fs : filesystem) :
  NoDup (List.filter glob_match (List.map fst (map_to_list fs))).
Proof.
  apply NoDup_ListNoDup, List.NoDup_filter, NoDup_ListNoDup.
  apply (NoDup_fst_map_to_list fs).
Qed.

(** [get_backup_files] returns the matching paths, each once, newest
    first. *)
Lemma get_backup_files_sorted fs : Sorted str_ge (get_backup_files fs).
Proof. apply sorted_reverse_spec. Qed.

Lemma get_backup_files_NoDup fs : NoDup (get_backup_files fs).
Proof.
  unfold get_backup_files.
  rewrite (proj2 (sorted_reverse_spec _)). apply NoDup_glob_keys.
Qed.

Lemma elem_of_get_backup_files fs p :
  p ∈ get_backup_files fs <-> glob_match p = true /\ is_Some (fs !! p).
Proof.
  unfold get_backup_files.
  rewrite (proj2 (sorted_reverse_spec _)). apply elem_of_glob_keys.
Qed.

(** A list with these three properties is the listing. *)
Lemma get_backup_files_unique fs (L : list string) :
  Sorted str_ge L -> NoDup L ->
  (forall p, p ∈ L <-> glob_match p = true /\ is_Some (fs !! p)) ->
  get_backup_files fs = L.
Proof.
  intros Hs Hnd Hin. apply (Sorted_unique str_ge).
  - apply get_backup_files_sorted.
  - exact Hs.
  - apply NoDup_Permutation; [apply get_backup_files_NoDup | exact Hnd |].
    intros p. rewrite elem_of_get_backup_files. symmetry. apply Hin.
Qed.

Lemma lookup_fold_delete (fs : filesystem) (dels : list string) (p : string) :
  fold_left (fun m k => delete k m) dels fs !! p
  = if decide (p ∈ dels) then None else fs !! p.
Proof.
  revert fs. induction dels as [|k dels IH]; intros fs; cbn [fold_left].
  - destruct (decide (p ∈ [])) as [H|_]; [|reflexivity].
    now apply not_elem_of_nil in H.
  - rewrite IH.
    destruct (decide (p ∈ dels)) as [Hin|Hnin], (decide (p ∈ k :: dels)) as [Hin'|Hnin'];
      try reflexivity.
    + exfalso. apply Hnin'. now right.
    + apply elem_of_cons in Hin' as [->|?]; [|contradiction].
      apply lookup_delete_eq.
    + apply lookup_delete_ne. intros ->. apply Hnin'. left.
Qed.

Lemma Sorted_take {A} (R : relation A) (n : nat) (l : list A) :
  Sorted R l -> Sorted R (take n l).
Proof.
  revert n. induction l as [|x l IH]; intros [|n] H; simpl; try constructor.
  - apply IH. now inversion H.
  - inversion H as [|? ? _ Hhd]; subst. destruct l as [|y l]; destruct n; simpl; constructor.
    now inversion Hhd.
Qed.

(** On a disk where removals succeed, rotation leaves the ten newest
    files of the listing. *)
Lemma get_backup_files_rotate d fs :
  (forall p, remove_fails d p = false) ->
  get_backup_files (rotate_backups d fs) = take MAX_BACKUPS (get_backup_files fs).
Proof.
  intros Hrm. unfold rotate_backups.
  set (files := get_backup_files fs).
  destruct (Nat.ltb_spec MAX_BACKUPS (length files)) as [Hlt|Hge].
  - assert (Hfold : fold_left (try_remove d) (skipn MAX_BACKUPS files) fs
                    = fold_left (fun m k => delete k m) (skipn MAX_BACKUPS files) fs).
    { generalize (skipn MAX_BACKUPS files). generalize fs. intros fs0 l. revert fs0.
      induction l as [|k l IH]; intros fs0; simpl; [reflexivity|].
      unfold try_remove at 2. rewrite Hrm. apply IH. }
    rewrite Hfold. clear Hfold.
    pose proof (get_backup_files_NoDup fs) as Hnd. fold files in Hnd.
    rewrite <- (take_drop MAX_BACKUPS files) in Hnd.
    apply NoDup_app in Hnd as (Hnd1 & Hdisj & Hnd2).
    apply get_backup_files_unique.
    + apply Sorted_take, get_backup_files_sorted.
    + exact Hnd1.
    + intros p. rewrite lookup_fold_delete. split.
      * intros Hp. pose proof (Hdisj p Hp) as Hnot.
        change (skipn MAX_BACKUPS files) with (drop MAX_BACKUPS files).
        rewrite decide_False by exact Hnot.
        apply elem_of_get_backup_files. fold files.
        rewrite <- (take_drop MAX_BACKUPS files). apply elem_of_app. now left.
      * change (skipn MAX_BACKUPS files) with (drop MAX_BACKUPS files).
        intros [Hg Hsome]. destruct (decide (p ∈ drop MAX_BACKUPS files)) as [Hin|Hnin].
        { destruct Hsome as [? ?]. discriminate. }
        assert (Hp : p ∈ files) by (apply elem_of_get_backup_files; auto).
        rewrite <- (take_drop MAX_BACKUPS files) in Hp.
        apply elem_of_app in Hp as [Hp|Hp]; [exact Hp | contradiction].
  - rewrite take_ge by lia. reflexivity.
Qed.

End Listing.

Section Rotation.

Import backup_manager.

Lemma ends_with_append (a suf : string) : ends_with suf (String.append a suf) = true.
Proof.
  induction a as [|c a IH]; simpl.
  - destruct suf; simpl; rewrite ?Ascii.eqb_refl, ?String.eqb_refl; reflexivity.
  - rewrite IH. apply orb_true_r.
Qed.

Lemma has_slash_append (a b : string) :
  has_slash (String.append a b) = has_slash a || has_slash b.
Proof.
  induction a as [|c a IH]; simpl; [reflexivity|].
  rewrite IH. apply orb_assoc.
Qed.

Lemma is_timestamp_length ts : is_timestamp ts = true -> String.length ts = 15%nat.
Proof.
  unfold is_timestamp. intros H. apply andb_true_iff in H as [H _].
  now apply Nat.eqb_eq.
Qed.

Lemma is_timestamp_no_slash ts : is_timestamp ts = true -> has_slash ts = false.
Proof.
  unfold is_timestamp. intros H. apply andb_true_iff in H as [_ H].
  induction ts as [|c ts IH]; simpl in *; [reflexivity|].
  apply andb_true_iff in H as [Hc H]. rewrite (IH H), orb_false_r.
  destruct (Ascii.eqb_spec c "/") as [->|]; [discriminate Hc | reflexivity].
Qed.

Lemma strip_prefix_append_l (a b s : string) :
  strip_prefix (String.append a b) (String.append a s) = strip_prefix b s.
Proof.
  induction a as [|c a IH]; [reflexivity|].
  change (strip_prefix (String c (String.append a b)) (String c (String.append a s))
          = strip_prefix b s).
  cbn [strip_prefix]. now rewrite Ascii.eqb_refl.
Qed.

Lemma strip_prefix_self (p s : string) : strip_prefix p (String.append p s) = Some s.
Proof.
  induction p as [|c p IH]; [reflexivity|].
  change (strip_prefix (String c p) (String c (String.append p s)) = Some s).
  cbn [strip_prefix]. now rewrite Ascii.eqb_refl.
Qed.

(** The path of a snapshot matches the pattern that lists the backups. *)
Lemma glob_match_backup_path ts :
  is_timestamp ts = true -> glob_match (backup_path ts) = true.
Proof.
  intros H. unfold glob_match, backup_path, in_backup_dir.
  rewrite !strip_prefix_append_l, strip_prefix_self.
  rewrite ends_with_append, has_slash_append, (is_timestamp_no_slash ts H).
  reflexivity.
Qed.

Lemma backup_path_length ts :
  String.length (backup_path ts) = (30 + String.length ts)%nat.
Proof.
  unfold backup_path, in_backup_dir, BACKUP_DIR, BACKUP_PREFIX.
  rewrite !string_length_append. simpl. lia.
Qed.

(** Fixed-width timestamps: the paths are ordered as the timestamps are. *)
Lemma compare_backup_path a b :
  String.length a = String.length b ->
  String.compare (backup_path a) (backup_path b) = String.compare a b.
Proof.
  intros H. unfold backup_path, in_backup_dir.
  rewrite !compare_app_l. now apply compare_app_r.
Qed.

Lemma str_lt_backup_path a b :
  is_timestamp a = true -> is_timestamp b = true ->
  str_lt a b -> str_lt (backup_path a) (backup_path b).
Proof.
  intros Ha Hb. unfold str_lt, String.ltb.
  rewrite compare_backup_path; [auto|].
  now rewrite (is_timestamp_length a), (is_timestamp_length b).
Qed.

Lemma take_cons_take {A} (n : nat) (x : A) (l : list A) :
  (0 < n)%nat -> take n (x :: take n l) = take n (x :: l).
Proof.
  destruct n as [|n]; [lia|]. intros _. cbn [take]. f_equal.
  rewrite take_take. f_equal. lia.
Qed.

(** One successful [create_backup]: the new file heads the listing and
    rotation cuts the listing to the ten newest. *)
Lemma get_backup_files_create d ts created_at clips fs :
  (forall p, write_fails d p = false) -> (forall p, remove_fails d p = false) ->
  is_timestamp ts = true ->
  (forall p, p ∈ get_backup_files fs ->
     exists o, p = backup_path o /\ is_timestamp o = true /\ str_lt o ts) ->
  get_backup_files (snd (create_backup d ts created_at clips fs))
  = take MAX_BACKUPS (backup_path ts :: get_backup_files fs).
Proof.
  intros Hw Hrm Hts Hold. unfold create_backup. rewrite !Hw, lookup_insert_eq.
  cbn [snd]. rewrite (get_backup_files_rotate d _ Hrm). f_equal.
  change (in_backup_dir (String.append BACKUP_PREFIX (String.append ts ".json")))
    with (backup_path ts).
  set (tmp := String.append (backup_path ts) ".tmp").
  set (doc := Json.dump (JObj (backup_data created_at clips))).
  assert (Hlook : forall p,
            (<[backup_path ts := doc]> (delete tmp (<[tmp := doc]> fs))) !! p
            = if decide (p = backup_path ts) then Some doc
              else if decide (p = tmp) then None else fs !! p).
  { intros p. destruct (decide (p = backup_path ts)) as [->|Hne].
    - apply lookup_insert_eq.
    - rewrite lookup_insert_ne by auto.
      destruct (decide (p = tmp)) as [->|Hne'].
      + apply lookup_delete_eq.
      + rewrite lookup_delete_ne by auto. now rewrite lookup_insert_ne by auto. }
  assert (Hnew : forall p, p ∈ get_backup_files fs -> str_lt p (backup_path ts)).
  { intros p Hp. destruct (Hold p Hp) as (o & -> & Ho & Hlt).
    now apply str_lt_backup_path. }
  assert (Htmp : forall p, p ∈ get_backup_files fs -> p <> tmp).
  { intros p Hp. destruct (Hold p Hp) as (o & -> & Ho & _). intros E.
    apply (f_equal String.length) in E. unfold tmp in E.
    rewrite string_length_append, !backup_path_length in E.
    rewrite (is_timestamp_length o Ho), (is_timestamp_length ts Hts) in E.
    simpl in E. lia. }
  apply get_backup_files_unique.
  - constructor; [apply get_backup_files_sorted|].
    pose proof Hnew as Hnew'.
    destruct (get_backup_files fs) as [|h l]; constructor.
    apply str_lt_ge, Hnew'. left.
  - apply NoDup_cons. split; [|apply get_backup_files_NoDup].
    intros Hin. exact (str_lt_neq _ _ (Hnew _ Hin) eq_refl).
  - intros p. rewrite Hlook, elem_of_cons. split.
    + intros [->|Hp].
      * split; [now apply glob_match_backup_path|].
        rewrite decide_True by reflexivity. eauto.
      * pose proof (proj1 (elem_of_get_backup_files fs p) Hp) as [Hg Hsome].
        split; [exact Hg|].
        destruct (decide (p = backup_path ts)); [eauto|].
        rewrite decide_False by (now apply Htmp). exact Hsome.
    + intros [Hg Hsome].
      destruct (decide (p = backup_path ts)) as [->|Hne]; [now left|]. right.
      destruct (decide (p = tmp)); [destruct Hsome; discriminate|].
      apply elem_of_get_backup_files. now split.
Qed.

(** Snapshots written at increasing instants: the listing is the ten
    newest of everything written so far. *)
Lemma create_backups_listing d (snaps : list snapshot) fs (olds : list string) :
  (forall p, write_fails d p = false) -> (forall p, remove_fails d p = false) ->
  get_backup_files fs = take MAX_BACKUPS (rev (List.map backup_path olds)) ->
  Forall (fun t => is_timestamp t = true) (olds ++ List.map snapshot_timestamp snaps) ->
  StronglySorted str_lt (olds ++ List.map snapshot_timestamp snaps) ->
  get_backup_files (create_backups d snaps fs)
  = take MAX_BACKUPS (rev (List.map backup_path (olds ++ List.map snapshot_timestamp snaps))).
Proof.
  intros Hw Hrm. revert fs olds.
  induction snaps as [|[[ts created_at] clips] rest IH]; intros fs olds Hfs Hvalid Hsorted.
  - cbn [List.map create_backups] in *. now rewrite app_nil_r in *.
  - cbn [List.map create_backups snapshot_timestamp fst] in *.
    change (snapshot_timestamp (ts, created_at, clips)) with ts in *.
    replace (olds ++ ts :: List.map snapshot_timestamp rest)
      with ((olds ++ [ts]) ++ List.map snapshot_timestamp rest) in *
      by (now rewrite <- app_assoc).
    apply IH; [|exact Hvalid|exact Hsorted].
    assert (Hts : is_timestamp ts = true).
    { rewrite List.Forall_forall in Hvalid. apply Hvalid.
      rewrite !List.in_app_iff. left. right. now left. }
    rewrite (get_backup_files_create d ts created_at clips fs Hw Hrm Hts).
    + rewrite Hfs, List.map_app, List.rev_app_distr. cbn [List.map rev app].
      apply take_cons_take. unfold MAX_BACKUPS. lia.
    + intros p Hp. rewrite Hfs in Hp. apply subseteq_take in Hp.
      apply list_elem_of_In, List.in_rev, List.in_map_iff in Hp as (o & <- & Ho).
      exists o. split; [reflexivity|]. split.
      * rewrite List.Forall_forall in Hvalid. apply Hvalid.
        rewrite !List.in_app_iff. left. now left.
      * apply StronglySorted_app_1_l in Hsorted.
        apply (StronglySorted_app_1_elem_of str_lt olds [ts]); [exact Hsorted | |].
        -- now apply list_elem_of_In.
        -- left.
Qed.

End Rotation.

(** C10. Let the backup directory hold no backup file, let the disk not
    fail, and let [MAX_BACKUPS + k] snapshots be written by
    [create_backup] at strictly increasing timestamps of the fixed-width
    [strftime] shape. Then the directory lists exactly [MAX_BACKUPS]
    backup files, and they are those of the [MAX_BACKUPS] snapshots
    written last, newest first. *)
Theorem rotation_keeps_newest (d : disk) (snaps : list backup_manager.snapshot)
    (fs : filesystem) (k : nat) :
  (forall p, write_fails d p = false) -> (forall p, remove_fails d p = false) ->
  backup_manager.get_backup_files fs = [] ->
  Forall (fun x => backup_manager.is_timestamp (backup_manager.snapshot_timestamp x) = true)
    snaps ->
  Sorted backup_manager.str_lt (List.map backup_manager.snapshot_timestamp snaps) ->
  length snaps = (backup_manager.MAX_BACKUPS + k)%nat ->
  let files := backup_manager.get_backup_files (backup_manager.create_backups d snaps fs) in
  length files = backup_manager.MAX_BACKUPS /\
  files = rev (List.map backup_manager.backup_path
                 (skipn k (List.map backup_manager.snapshot_timestamp snaps))).
Proof.
  intros Hw Hrm Hfs Hvalid Hsorted Hlen. cbv zeta.
  assert (E : backup_manager.get_backup_files (backup_manager.create_backups d snaps fs)
              = rev (List.map backup_manager.backup_path
                       (skipn k (List.map backup_manager.snapshot_timestamp snaps)))).
  { rewrite (create_backups_listing d snaps fs [] Hw Hrm).
    - cbn [app]. change (@take string) with (@firstn string).
      rewrite List.firstn_rev, List.length_map, List.length_map, Hlen.
      replace (backup_manager.MAX_BACKUPS + k - backup_manager.MAX_BACKUPS)%nat with k by lia.
      now rewrite List.skipn_map.
    - rewrite Hfs. now destruct backup_manager.MAX_BACKUPS.
    - cbn [app]. apply List.Forall_map. exact Hvalid.
    - cbn [app]. now apply Sorted_StronglySorted; [apply _|]. }
  split; [|exact E].
  rewrite E, List.length_rev, List.length_map, List.length_skipn, List.length_map. lia.
Qed.

Lemma rotation_keeps_newest_witness :
  (forall p, write_fails reliable p = false) /\
  (forall p, remove_fails reliable p = false) /\
  backup_manager.get_backup_files ∅ = [] /\
  Forall (fun x => backup_manager.is_timestamp (backup_manager.snapshot_timestamp x) = true)
    eleven_snapshots /\
  Sorted backup_manager.str_lt (List.map backup_manager.snapshot_timestamp eleven_snapshots) /\
  length eleven_snapshots = (backup_manager.MAX_BACKUPS + 1)%nat /\
  let files :=
    backup_manager.get_backup_files (backup_manager.create_backups reliable eleven_snapshots ∅) in
  length files = backup_manager.MAX_BACKUPS /\
  files = rev (List.map backup_manager.backup_path
                 (skipn 1 (List.map backup_manager.snapshot_timestamp eleven_snapshots))).
Proof.
  assert (Hw : forall p, write_fails reliable p = false) by reflexivity.
  assert (Hrm : forall p, remove_fails reliable p = false) by reflexivity.
  assert (Hfs : backup_manager.get_backup_files ∅ = []) by reflexivity.
  assert (Hvalid : Forall (fun x => backup_manager.is_timestamp
                                      (backup_manager.snapshot_timestamp x) = true)
                     eleven_snapshots).
  { repeat constructor. }
  assert (Hsorted : Sorted backup_manager.str_lt
                      (List.map backup_manager.snapshot_timestamp eleven_snapshots)).
  { repeat constructor. }
  assert (Hlen : length eleven_snapshots = (backup_manager.MAX_BACKUPS + 1)%nat)
    by reflexivity.
  repeat (split; [assumption|]).
  exact (rotation_keeps_newest reliable eleven_snapshots ∅ 1 Hw Hrm Hfs Hvalid Hsorted Hlen).
Defined.

(** The same run, evaluated: the oldest file is gone. *)
Example eleven_snapshots_listing :
  backup_manager.get_backup_files (backup_manager.create_backups reliable eleven_snapshots ∅)
  = ["backups/clipboard_backup_20240501_100500.json";
     "backups/clipboard_backup_20240501_100430.json";
     "backups/clipboard_backup_20240501_100400.json";
     "backups/clipboard_backup_20240501_100330.json";
     "backups/clipboard_backup_20240501_100300.json";
     "backups/clipboard_backup_20240501_100230.json";
     "backups/clipboard_backup_20240501_100200.json";
     "backups/clipboard_backup_20240501_100130.json";
     "backups/clipboard_backup_20240501_100100.json";
     "backups/clipboard_backup_20240501_100030.json"].
Proof. vm_compute. reflexivity. Qed.
(** ** C4: recovery from the legacy flat file *)

(** C4 fails on the code. With no backups and a legacy file whose
    [pinned] list is ["a", "b"], [import_legacy_json] does produce two
    pinned records with [pin_order] 2 and 1, but [import_clips], which
    [_init_data] feeds them to, inserts no [pin_order] column: the
    recovered table holds both clips pinned with [pin_order] 0. *)
Theorem legacy_recovery_loses_pin_order :
  let now := "2024-05-02T09:00:00" in
  let legacy_clip (c : string) (order : Z) :=
    JObj [("type", JStr "text"); ("content", JStr c); ("tag", JStr EmptyString);
          ("is_pinned", JBool true); ("pin_order", JNum order);
          ("created_at", JStr now); ("updated_at", JStr now)] in
  backup_manager.get_backup_files legacy_fs = [] /\
  read_path legacy_fs DATA_FILE = Ok (Some (Document legacy_document)) /\
  backup_manager.import_legacy_json now (Some (Document legacy_document))
    = Ok (Some [legacy_clip "a" 2; legacy_clip "b" 1]) /\
  _init_data (fun _ => now) now legacy_fs empty_store
    = Ok (Store [Row 1 "text" "a" "0cc175b9c0f1b6a831c399e269772661" (Some EmptyString)
                     EmptyString true 0 now now;
                 Row 2 "text" "b" "92eb5ffee6ae2fec3ad71c777531578f" (Some EmptyString)
                     EmptyString true 0 now now]
                2 false false 0).
Proof. cbv zeta. repeat split; vm_compute; reflexivity. Qed.


(** * Further properties of the storage engine, the backups and the recovery *)

(** ** [storage.py]: looking up what was written *)

Section Lookups.

Lemma fetchone_delete_where (p q : row -> bool) (rs : list row) :
  (forall r, p r = true -> q r = false) ->
  fetchone p (delete_where q rs) = fetchone p rs.
Proof.
  intros H. unfold fetchone, delete_where.
  induction rs as [|r rs IH]; simpl; [reflexivity|].
  destruct (q r) eqn:Q; simpl.
  - destruct (p r) eqn:P; [rewrite (H r P) in Q; discriminate | exact IH].
  - destruct (p r); [reflexivity | exact IH].
Qed.

Lemma fetchone_delete_where_none (p : row -> bool) (rs : list row) :
  fetchone p (delete_where p rs) = None.
Proof.
  unfold fetchone, delete_where.
  induction rs as [|r rs IH]; simpl; [reflexivity|].
  destruct (p r) eqn:P; simpl; [exact IH | now rewrite P].
Qed.

(** An update by id, seen from a lookup by id. *)
Lemma fetchone_id_update_id (j clip_id : Z) (f : row -> row) (rs : list row) :
  (forall r, id (f r) = id r) ->
  fetchone (fun r => id r =? j) (update_id clip_id f rs)
  = option_map (fun r => if j =? clip_id then f r else r)
      (fetchone (fun r => id r =? j) rs).
Proof.
  intros Hf. rewrite fetchone_update_id by (intros r; now rewrite Hf).
  destruct (fetchone (fun r => id r =? j) rs) as [r|] eqn:E; [|reflexivity].
  apply fetchone_Some in E as [_ E]. apply Z.eqb_eq in E. cbn [option_map].
  now rewrite E.
Qed.

Lemma filter_length_split {A} (p : A -> bool) (l : list A) :
  (length (List.filter p l) + length (List.filter (fun x => negb (p x)) l))%nat = length l.
Proof.
  induction l as [|x l IH]; simpl; [reflexivity|]. destruct (p x); simpl; lia.
Qed.

Lemma filter_filter_negb {A} (p : A -> bool) (l : list A) :
  List.filter p (List.filter (fun x => negb (p x)) l) = [].
Proof.
  induction l as [|x l IH]; simpl; [reflexivity|].
  destruct (p x) eqn:P; simpl; [exact IH | now rewrite P].
Qed.

Lemma filter_idem {A} (p : A -> bool) (l : list A) :
  List.filter p (List.filter p l) = List.filter p l.
Proof.
  induction l as [|x l IH]; simpl; [reflexivity|].
  destruct (p x) eqn:P; simpl; [rewrite P, IH; reflexivity | exact IH].
Qed.

End Lookups.

(** X1. When [add_clip] returns, [is_new] tells whether the content was
    absent before the call; afterwards [is_duplicate] answers [True] for
    the content, and [get_clip_by_hash] of its MD5 finds the clip with the
    returned id, last updated at the call's clock reading. A new clip is
    stored with the given type, content and tag, unpinned, in no group. *)
Theorem add_clip_then_lookup (now ty content tg : string) (s s' : store)
    (i : Z) (is_new : bool) :
  add_clip now ty content tg s = Ok ((i, is_new), s') ->
  is_new = negb (is_duplicate content s) /\
  is_duplicate content s' = true /\
  exists r, get_clip_by_hash (compute_hash content) s' = Some (JObj (row_dict r)) /\
            id r = i /\ updated_at r = now /\
            (is_new = true ->
             r = Row i ty content (compute_hash content) (Some tg) EmptyString
                     false 0 now now).
Proof.
  unfold add_clip, is_duplicate, get_clip_by_hash.
  set (p := fun r : row => String.eqb (hash r) (compute_hash content)).
  destruct (fetchone p (rows s)) as [e|] eqn:E.
  - intros [= <- <- <-]. cbn [rows _mark_dirty with_rows].
    rewrite fetchone_update_id by reflexivity. rewrite E. cbn [option_map].
    rewrite Z.eqb_refl. repeat split.
    exists (set_updated_at now e). repeat split. discriminate.
  - destruct (check_type ty); [|discriminate].
    intros [= <- <- <-]. unfold insert_row. cbn [rows _mark_dirty with_rows sqlite_sequence].
    assert (Hnone : List.filter p (rows s) = []).
    { apply filter_none. now apply fetchone_None. }
    set (new := Row (sqlite_sequence s + 1) ty content (compute_hash content) (Some tg)
                    EmptyString false 0 now now).
    assert (Hp : p new = true) by (unfold p, new; cbn [hash]; apply String.eqb_refl).
    rewrite (fetchone_app_r p (rows s) new Hnone Hp). cbn [option_map].
    assert (Hid : (if sqlite_sequence s + 1 =? 0 then 0 else sqlite_sequence s + 1)
                  = sqlite_sequence s + 1).
    { destruct (Z.eqb_spec (sqlite_sequence s + 1) 0) as [->|]; reflexivity. }
    repeat split. exists new. rewrite Hid. repeat split.
Qed.

Lemma add_clip_then_lookup_witness :
  let now := "2024-05-01T10:00:00" in
  let s' := Store [Row 1 "text" "a" "0cc175b9c0f1b6a831c399e269772661" (Some "work")
                       EmptyString false 0 now now] 1 true false 0 in
  add_clip now "text" "a" "work" empty_store = Ok ((1, true), s') /\
  is_duplicate "a" s' = true.
Proof.
  cbv zeta.
  assert (E : add_clip "2024-05-01T10:00:00" "text" "a" "work" empty_store
              = Ok ((1, true),
                    Store [Row 1 "text" "a" "0cc175b9c0f1b6a831c399e269772661" (Some "work")
                               EmptyString false 0 "2024-05-01T10:00:00"
                               "2024-05-01T10:00:00"] 1 true false 0))
    by (vm_compute; reflexivity).
  split; [exact E|].
  exact (proj1 (proj2 (add_clip_then_lookup _ _ _ _ _ _ _ _ E))).
Defined.

(** X2. After [delete_clip] no clip has the deleted id, and a lookup by
    any other id gives what it gave before; deleting an id that is not
    there changes no row. *)
Theorem delete_clip_then_lookup (clip_id : Z) (s : store) :
  get_clip_by_id clip_id (snd (delete_clip clip_id s)) = None /\
  (forall j, j <> clip_id ->
     get_clip_by_id j (snd (delete_clip clip_id s)) = get_clip_by_id j s) /\
  (get_clip_by_id clip_id s = None -> rows (snd (delete_clip clip_id s)) = rows s).
Proof.
  unfold get_clip_by_id, delete_clip. cbn [snd rows _mark_dirty with_rows].
  split; [|split].
  - now rewrite fetchone_delete_where_none.
  - intros j Hj. rewrite fetchone_delete_where; [reflexivity|].
    intros r Hr. apply Z.eqb_eq in Hr. apply Z.eqb_neq. congruence.
  - intros H. destruct (fetchone _ (rows s)) as [r|] eqn:E; [discriminate|].
    pose proof (fetchone_None _ _ E) as Hnone. unfold delete_where.
    clear -Hnone. induction (rows s) as [|r rs IH]; simpl; [reflexivity|].
    rewrite (Hnone r (or_introl eq_refl)). simpl. f_equal. apply IH.
    intros x Hx. apply Hnone. now right.
Qed.

(** X3. [update_tag] and [update_group] change one column of one clip:
    the clip with the given id reads back with the new tag (or group) and
    everything else as before, and every other clip reads back
    unchanged. *)
Theorem update_tag_group_then_lookup (clip_id j : Z) (t g : string) (s : store) :
  get_clip_by_id j (snd (update_tag clip_id t s))
  = (if j =? clip_id
     then option_map (fun r => JObj (row_dict (set_tag t r)))
            (fetchone (fun r => id r =? j) (rows s))
     else get_clip_by_id j s) /\
  get_clip_by_id j (snd (update_group clip_id g s))
  = (if j =? clip_id
     then option_map (fun r => JObj (row_dict (set_group_name g r)))
            (fetchone (fun r => id r =? j) (rows s))
     else get_clip_by_id j s) /\
  (forall r, row_dict (set_tag t r) = dict_set (row_dict r) "tag" (JStr t)) /\
  (forall r, row_dict (set_group_name g r) = dict_set (row_dict r) "group_name" (JStr g)).
Proof.
  unfold get_clip_by_id, update_tag, update_group. cbn [snd rows _mark_dirty with_rows].
  rewrite !fetchone_id_update_id by reflexivity.
  repeat split; try (destruct (j =? clip_id);
    destruct (fetchone (fun r => id r =? j) (rows s)); reflexivity).
Qed.

(** X4. Every clip is in exactly one of the two lists: the history count
    and the pinned count add up to the clip count. [clear_history] returns
    the history count, leaves no history clip and keeps every pinned clip;
    [clear_pinned] does the same with the roles exchanged. *)
Theorem counts_and_clearing (s : store) :
  get_history_count s + get_pinned_count s = get_clip_count s /\
  fst (clear_history s) = get_history_count s /\
  get_history_count (snd (clear_history s)) = 0 /\
  List.filter is_pinned (rows (snd (clear_history s))) = List.filter is_pinned (rows s) /\
  fst (clear_pinned s) = get_pinned_count s /\
  get_pinned_count (snd (clear_pinned s)) = 0 /\
  List.filter (fun r => negb (is_pinned r)) (rows (snd (clear_pinned s)))
  = List.filter (fun r => negb (is_pinned r)) (rows s).
Proof.
  unfold get_history_count, get_pinned_count, get_clip_count, clear_history, clear_pinned,
    delete_where.
  cbn [fst snd rows _mark_dirty with_rows].
  pose proof (filter_length_split is_pinned (rows s)) as L.
  assert (E : List.filter (fun r => negb (negb (is_pinned r))) (rows s)
              = List.filter is_pinned (rows s)).
  { apply List.filter_ext. intros r. apply negb_involutive. }
  rewrite E, filter_idem, filter_idem.
  rewrite (filter_filter_negb is_pinned).
  assert (E2 : List.filter (fun r => negb (is_pinned r)) (List.filter is_pinned (rows s)) = []).
  { clear. induction (rows s) as [|r rs IH]; simpl; [reflexivity|].
    destruct (is_pinned r) eqn:P; simpl; [now rewrite P|exact IH]. }
  rewrite E2. cbn [length]. repeat split; lia.
Qed.

(** ** [storage.py]: what comes first in each list *)

Section ListOrder.

Lemma In_insert_by_pin_order (x r : row) (rs : list row) :
  In x (insert_by_pin_order r rs) <-> x = r \/ In x rs.
Proof.
  induction rs as [|a rs IH]; simpl; [intuition|].
  destruct (pin_order a <=? pin_order r); simpl; [intuition|].
  rewrite IH. intuition.
Qed.

Lemma In_order_by_pin_order_desc (x : row) (rs : list row) :
  In x (order_by_pin_order_desc rs) <-> In x rs.
Proof.
  unfold order_by_pin_order_desc. induction rs as [|a rs IH]; simpl; [tauto|].
  rewrite In_insert_by_pin_order, IH. intuition.
Qed.

(** A row whose [pin_order] exceeds that of every other row is the first
    of [ORDER BY pin_order DESC]. *)
Lemma order_by_pin_order_desc_head (x : row) (rs : list row) :
  In x rs -> (forall y, In y rs -> y = x \/ pin_order y < pin_order x) ->
  exists rest, order_by_pin_order_desc rs = x :: rest.
Proof.
  unfold order_by_pin_order_desc.
  induction rs as [|a rs IH]; simpl; intros Hin Hmax; [contradiction|].
  destruct (Hmax a (or_introl eq_refl)) as [-> | Hlt].
  - destruct (fold_right insert_by_pin_order [] rs) as [|h t] eqn:E; simpl; [eauto|].
    assert (Hh : In h rs).
    { apply In_order_by_pin_order_desc. unfold order_by_pin_order_desc. rewrite E. now left. }
    destruct (Hmax h (or_intror Hh)) as [-> | Hh'].
    + rewrite Z.leb_refl. eauto.
    + replace (pin_order h <=? pin_order x) with true by lia. eauto.
  - destruct Hin as [-> | Hin]; [lia|].
    destruct (IH Hin) as (rest & ->); [intros y Hy; apply Hmax; now right|].
    simpl. replace (pin_order x <=? pin_order a) with false by lia. eauto.
Qed.

Lemma In_insert_by_updated (x r : row) (rs : list row) :
  In x (insert_by_updated r rs) <-> x = r \/ In x rs.
Proof.
  induction rs as [|a rs IH]; simpl; [intuition|].
  destruct (String.leb (updated_at a) (updated_at r)); simpl; [intuition|].
  rewrite IH. intuition.
Qed.

Lemma In_order_by_updated_desc (x : row) (rs : list row) :
  In x (order_by_updated_desc rs) <-> In x rs.
Proof.
  unfold order_by_updated_desc. induction rs as [|a rs IH]; simpl; [tauto|].
  rewrite In_insert_by_updated, IH. intuition.
Qed.

Lemma ltb_leb (a b : string) :
  String.ltb a b = true -> String.leb a b = true /\ String.leb b a = false.
Proof.
  unfold String.ltb, String.leb. rewrite (String.compare_antisym a b).
  destruct (String.compare b a); simpl; intros H; try discriminate H. now split.
Qed.

Lemma leb_refl (a : string) : String.leb a a = true.
Proof. unfold String.leb. now rewrite compare_refl. Qed.

(** A row updated later than every other row is the first of
    [ORDER BY updated_at DESC]. *)
Lemma order_by_updated_desc_head (x : row) (rs : list row) :
  In x rs ->
  (forall y, In y rs -> y = x \/ String.ltb (updated_at y) (updated_at x) = true) ->
  exists rest, order_by_updated_desc rs = x :: rest.
Proof.
  unfold order_by_updated_desc.
  induction rs as [|a rs IH]; simpl; intros Hin Hmax; [contradiction|].
  destruct (Hmax a (or_introl eq_refl)) as [-> | Hlt].
  - destruct (fold_right insert_by_updated [] rs) as [|h t] eqn:E; simpl; [eauto|].
    assert (Hh : In h rs).
    { apply In_order_by_updated_desc. unfold order_by_updated_desc. rewrite E. now left. }
    destruct (Hmax h (or_intror Hh)) as [-> | Hh'].
    + rewrite leb_refl. eauto.
    + apply ltb_leb in Hh' as [-> _]. eauto.
  - destruct Hin as [-> | Hin].
    + apply ltb_leb in Hlt as [_ Hlt]. rewrite leb_refl in Hlt. discriminate.
    + destruct (IH Hin) as (rest & ->); [intros y Hy; apply Hmax; now right|].
      simpl. apply ltb_leb in Hlt as [_ ->]. eauto.
Qed.

Lemma limit_offset_head {A} (limit : Z) (x : A) (l : list A) :
  limit <> 0 -> exists rest, limit_offset limit 0 (x :: l) = x :: rest.
Proof.
  intros H. unfold limit_offset. cbn [Z.to_nat skipn].
  destruct (limit <? 0) eqn:E; [eauto|].
  destruct (Z.to_nat limit) as [|k] eqn:K; [lia|]. simpl. eauto.
Qed.

(** Under PRIMARY KEY(id), the rows an update by id leaves alone. *)
Lemma In_update_id_unique (clip_id : Z) (f : row -> row) (rs : list row) (r y : row) :
  List.NoDup (List.map id rs) -> In r rs -> id r = clip_id ->
  In y (update_id clip_id f rs) -> y = f r \/ (In y rs /\ id y <> clip_id).
Proof.
  intros Hnd Hr Hid Hy. unfold update_id in Hy.
  apply List.in_map_iff in Hy as (x & <- & Hx).
  destruct (Z.eqb_spec (id x) clip_id) as [E|E]; [left | right; now split].
  f_equal. eapply id_determines_row; eauto. congruence.
Qed.

End ListOrder.

(** X5. [pin_clip] puts the clip at the head of the pinned list. For a
    table that satisfies the key constraint and holds the clip, the clip
    reads back through [get_clip_by_id] as pinned, updated at the call's
    clock reading, with a [pin_order] one above [MAX(pin_order)] of the
    pinned clips and so above the [pin_order] of every clip that was
    pinned, and with its other columns as before; every other clip reads
    back unchanged; and the first clip [get_pinned] returns afterwards
    (for any limit but 0) is that clip. *)
Theorem pin_clip_moves_to_top (now : string) (clip_id limit : Z) (s : store) (r : row) :
  wf_store s -> In r (rows s) -> id r = clip_id -> limit <> 0 ->
  let pinned :=
    Row (id r) (type r) (content r) (hash r) (tag r) (group_name r)
        true (max_pin_order (rows s) + 1) (created_at r) now in
  get_clip_by_id clip_id (snd (pin_clip now clip_id s)) = Some (JObj (row_dict pinned)) /\
  (forall x, In x (rows s) -> is_pinned x = true -> pin_order x < pin_order pinned) /\
  (forall j, j <> clip_id ->
     get_clip_by_id j (snd (pin_clip now clip_id s)) = get_clip_by_id j s) /\
  exists rest,
    get_pinned limit 0 (snd (pin_clip now clip_id s))
    = select_columns pinned_columns pinned :: rest.
Proof.
  intros Hwf Hr Hid Hlimit. cbv zeta.
  pose proof Hwf as (Hnd & _ & _).
  change (Row (id r) (type r) (content r) (hash r) (tag r) (group_name r)
              true (max_pin_order (rows s) + 1) (created_at r) now)
    with (set_pinned true (max_pin_order (rows s) + 1) now r).
  assert (Hlook : forall j,
            get_clip_by_id j (snd (pin_clip now clip_id s))
            = option_map (fun x => JObj (row_dict
                (if j =? clip_id then set_pinned true (max_pin_order (rows s) + 1) now x
                 else x)))
                (fetchone (fun x => id x =? j) (rows s))).
  { intros j. unfold get_clip_by_id, pin_clip. cbn [snd rows _mark_dirty with_rows].
    rewrite fetchone_id_update_id by reflexivity.
    now destruct (fetchone (fun x => id x =? j) (rows s)). }
  split; [|split; [|split]].
  - rewrite Hlook, Z.eqb_refl. rewrite <- Hid, (fetchone_by_id s r Hwf Hr). reflexivity.
  - intros x Hx Hp. cbn [pin_order set_pinned].
    pose proof (max_pin_order_ge (rows s) x Hx Hp). lia.
  - intros j Hj. rewrite Hlook. unfold get_clip_by_id.
    replace (j =? clip_id) with false by (symmetry; now apply Z.eqb_neq). reflexivity.
  - unfold get_pinned, pin_clip.
    cbn [snd rows _mark_dirty with_rows].
    set (m := max_pin_order (rows s)).
    set (r' := set_pinned true (m + 1) now r).
    set (rs' := update_id clip_id (set_pinned true (m + 1) now) (rows s)).
    destruct (order_by_pin_order_desc_head r' (List.filter is_pinned rs')) as (rest & ->).
    + apply List.filter_In. split; [|reflexivity]. unfold rs', update_id.
      apply List.in_map_iff. exists r. split; [|exact Hr].
      now replace (id r =? clip_id) with true by lia.
    + intros y Hy. apply List.filter_In in Hy as [Hy Hp].
      destruct (In_update_id_unique _ _ _ r y Hnd Hr Hid Hy) as [-> | [Hin _]]; [now left|].
      right. pose proof (max_pin_order_ge (rows s) y Hin Hp). unfold r'.
      cbn [pin_order set_pinned]. fold m in H. lia.
    + destruct (limit_offset_head limit r' rest Hlimit) as (rest' & ->). simpl. eauto.
Qed.

Lemma pin_clip_moves_to_top_witness :
  let pinned := Row 1 "text" "a" "0cc175b9c0f1b6a831c399e269772661" (Some EmptyString)
                    EmptyString true 3 "2024-05-01T10:00:00" "2024-05-01T10:01:00" in
  get_clip_by_id 1 (snd (pin_clip "2024-05-01T10:01:00" 1 two_pinned))
  = Some (JObj (row_dict pinned)) /\
  exists rest,
    get_pinned 50 0 (snd (pin_clip "2024-05-01T10:01:00" 1 two_pinned))
    = select_columns pinned_columns pinned :: rest.
Proof.
  cbv zeta.
  pose proof (pin_clip_moves_to_top "2024-05-01T10:01:00" 1 50 two_pinned
                (Row 1 "text" "a" "0cc175b9c0f1b6a831c399e269772661" (Some EmptyString)
                     EmptyString true 1 "2024-05-01T10:00:00" "2024-05-01T10:00:20")
                two_pinned_wf (or_introl eq_refl) eq_refl ltac:(discriminate)) as H.
  cbv zeta in H. destruct H as (Hget & _ & _ & Hhead).
  split; [exact Hget | exact Hhead].
Defined.

(** X6. A clip submitted at a clock reading later than every stored
    [updated_at] goes to the top: when it is not pinned, it is the first
    clip [get_history] returns (for any limit but 0), whether [add_clip]
    inserted it or only refreshed its timestamp; in either case it is the
    first of its section in [get_all_clips]. *)
Theorem add_clip_moves_to_top (now ty content tg : string) (limit : Z)
    (s s' : store) (i : Z) (is_new : bool) :
  wf_store s ->
  (forall r, In r (rows s) -> String.ltb (updated_at r) now = true) ->
  add_clip now ty content tg s = Ok ((i, is_new), s') ->
  limit <> 0 ->
  exists r, In r (rows s') /\ id r = i /\ updated_at r = now /\
    (is_pinned r = false ->
     exists rest,
       get_history limit 0 s'
       = select_columns ["id"; "type"; "content"; "hash"; "tag"; "created_at"; "updated_at"] r
         :: rest) /\
    (is_pinned r = true ->
     exists rest, get_all_clips s' = JObj (row_dict r) :: rest).
Proof.
  intros Hwf Hnow Hadd Hlimit.
  assert (Hwf' : wf_store s') by (eapply wf_add_clip; eauto).
  destruct Hwf as (Hnd & _ & Hseq). destruct Hwf' as (Hnd' & _ & _).
  assert (Hrow : exists r, In r (rows s') /\ id r = i /\ updated_at r = now /\
            forall y, In y (rows s') -> y = r \/ String.ltb (updated_at y) (updated_at r) = true).
  { revert Hadd. unfold add_clip.
    destruct (fetchone _ (rows s)) as [e|] eqn:E.
    - intros [= <- <- <-]. cbn [rows _mark_dirty with_rows].
      apply fetchone_Some in E as [He _].
      exists (set_updated_at now e). split; [|split; [reflexivity|split; [reflexivity|]]].
      + unfold update_id. apply List.in_map_iff. exists e. split; [|exact He].
        now rewrite Z.eqb_refl.
      + intros y Hy.
        destruct (In_update_id_unique _ _ _ e y Hnd He eq_refl Hy) as [-> | [Hin _]];
          [now left | right; now apply Hnow].
    - destruct (check_type ty); [|discriminate]. intros [= <- <- <-].
      unfold insert_row. cbn [rows _mark_dirty with_rows sqlite_sequence].
      eexists. split; [apply List.in_or_app; right; left; reflexivity|].
      split; [cbn [id]; destruct (Z.eqb_spec (sqlite_sequence s + 1) 0) as [->|]; reflexivity|].
      split; [reflexivity|].
      intros y Hy. apply List.in_app_or in Hy as [Hy | [<- | []]]; [right | now left].
      now apply Hnow. }
  destruct Hrow as (r & Hr & Hid & Hup & Hmax).
  exists r. split; [exact Hr|]. split; [exact Hid|]. split; [exact Hup|]. split.
  - intros Hp. unfold get_history.
    destruct (order_by_updated_desc_head r
                (List.filter (fun x => negb (is_pinned x)) (rows s'))) as (rest & ->).
    + apply List.filter_In. split; [exact Hr | now rewrite Hp].
    + intros y Hy. apply List.filter_In in Hy as [Hy _]. now apply Hmax.
    + destruct (limit_offset_head limit r rest Hlimit) as (rest' & ->). simpl. eauto.
  - intros Hp. unfold get_all_clips.
    destruct (order_by_updated_desc_head r (List.filter is_pinned (rows s'))) as (rest & ->).
    + apply List.filter_In. now split.
    + intros y Hy. apply List.filter_In in Hy as [Hy _]. now apply Hmax.
    + simpl. eauto.
Qed.

Lemma add_clip_moves_to_top_witness :
  let s := Store [Row 1 "text" "a" "0cc175b9c0f1b6a831c399e269772661" (Some EmptyString)
                      EmptyString false 0 "2024-05-01T10:00:00" "2024-05-01T10:00:20";
                  Row 2 "text" "b" "92eb5ffee6ae2fec3ad71c777531578f" (Some EmptyString)
                      EmptyString false 0 "2024-05-01T10:00:10" "2024-05-01T10:00:30"]
                 2 false false 0 in
  let now := "2024-05-01T10:02:00" in
  let s' := _mark_dirty (with_rows s (update_id 1 (set_updated_at now) (rows s))) in
  add_clip now "text" "a" EmptyString s = Ok ((1, false), s') /\
  exists r, In r (rows s') /\ id r = 1 /\ updated_at r = now /\
    (is_pinned r = false ->
     exists rest,
       get_history 20 0 s'
       = select_columns ["id"; "type"; "content"; "hash"; "tag"; "created_at"; "updated_at"] r
         :: rest) /\
    (is_pinned r = true ->
     exists rest, get_all_clips s' = JObj (row_dict r) :: rest).
Proof.
  cbv zeta.
  set (s := Store [Row 1 "text" "a" "0cc175b9c0f1b6a831c399e269772661" (Some EmptyString)
                      EmptyString false 0 "2024-05-01T10:00:00" "2024-05-01T10:00:20";
                  Row 2 "text" "b" "92eb5ffee6ae2fec3ad71c777531578f" (Some EmptyString)
                      EmptyString false 0 "2024-05-01T10:00:10" "2024-05-01T10:00:30"]
                 2 false false 0).
  assert (E : add_clip "2024-05-01T10:02:00" "text" "a" EmptyString s
              = Ok ((1, false),
                    _mark_dirty (with_rows s
                      (update_id 1 (set_updated_at "2024-05-01T10:02:00") (rows s)))))
    by (vm_compute; reflexivity).
  assert (W : wf_store s).
  { repeat split; simpl; repeat constructor; simpl; intuition (try discriminate; try lia). }
  split; [exact E|].
  refine (add_clip_moves_to_top _ _ _ _ 20 _ _ _ _ W _ E _).
  - intros r [<- | [<- | []]]; vm_compute; reflexivity.
  - discriminate.
Defined.

(** ** Paging: [get_history], [get_pinned] and the history list of [main.py] *)

Section Paging.

Lemma firstn_firstn_skipn {A} (a b : nat) (l : list A) :
  firstn a l ++ firstn b (skipn a l) = firstn (a + b) l.
Proof.
  revert l. induction a as [|a IH]; intros [|x l]; simpl; try reflexivity.
  - now destruct b.
  - now rewrite IH.
Qed.

Lemma limit_offset_all {A} (l : list A) : limit_offset (-1) 0 l = l.
Proof. reflexivity. Qed.

Lemma limit_offset_nonneg {A} (limit offset : Z) (l : list A) :
  0 <= limit ->
  limit_offset limit offset l = firstn (Z.to_nat limit) (skipn (Z.to_nat offset) l).
Proof. intros H. unfold limit_offset. now replace (limit <? 0) with false by lia. Qed.

(** Two pages that follow one another make up one page. *)
Lemma limit_offset_pages {A} (limit limit' offset : Z) (l : list A) :
  0 <= limit -> 0 <= limit' -> 0 <= offset ->
  limit_offset limit offset l ++ limit_offset limit' (offset + limit) l
  = limit_offset (limit + limit') offset l.
Proof.
  intros H1 H2 H3. rewrite !limit_offset_nonneg by lia.
  rewrite !Z2Nat.inj_add by lia.
  rewrite (Nat.add_comm (Z.to_nat offset)), <- List.skipn_skipn.
  apply firstn_firstn_skipn.
Qed.

Lemma limit_offset_length {A} (limit offset : Z) (l : list A) :
  0 <= limit -> Z.of_nat (length (limit_offset limit offset l)) <= limit.
Proof.
  intros H. rewrite limit_offset_nonneg by lia. rewrite List.length_firstn. lia.
Qed.

Lemma get_history_page (s : store) (offset : nat) :
  get_history PAGE_SIZE_HISTORY (Z.of_nat offset) s
  = firstn 20 (skipn offset (get_history (-1) 0 s)).
Proof.
  unfold get_history. rewrite limit_offset_all, limit_offset_nonneg by (unfold PAGE_SIZE_HISTORY; lia).
  rewrite Nat2Z.id. change (Z.to_nat PAGE_SIZE_HISTORY) with 20%nat.
  now rewrite List.skipn_map, List.firstn_map.
Qed.

(** What holds of the view after the first page and [k] more requests. *)
Lemma history_view_invariant (s : store) (k : nat) :
  let full := get_history (-1) 0 s in
  let v := Nat.iter k (_on_history_scroll s) (refresh_history s) in
  list_history v = firstn (20 * (k + 1)) full /\
  history_offset v = Z.of_nat (length (list_history v)) /\
  (history_has_more v = false -> (length full <= 20 * (k + 1))%nat) /\
  (history_has_more v = true -> (20 * (k + 1) <= length full)%nat).
Proof.
  cbv zeta. set (full := get_history (-1) 0 s).
  induction k as [|k (Hlist & Hoff & Hdone & Hmore)].
  - change (Nat.iter 0 (_on_history_scroll s) (refresh_history s))
      with (refresh_history s).
    unfold refresh_history.
    change 0 with (Z.of_nat 0). rewrite get_history_page. fold full.
    change (skipn 0 full) with full.
    cbn [list_history history_offset history_has_more].
    pose proof (List.length_firstn 20 full) as L. unfold PAGE_SIZE_HISTORY.
    split; [reflexivity|]. split; [reflexivity|]. split; intros H.
    + apply negb_false_iff, Z.ltb_lt in H. lia.
    + apply negb_true_iff, Z.ltb_ge in H. lia.
  - change (Nat.iter (S k) (_on_history_scroll s) (refresh_history s))
      with (_on_history_scroll s (Nat.iter k (_on_history_scroll s) (refresh_history s))).
    set (v := Nat.iter k (_on_history_scroll s) (refresh_history s)) in *.
    unfold _on_history_scroll. destruct (history_has_more v) eqn:Hm; cbn [negb].
    + specialize (Hmore eq_refl). clear Hdone.
      assert (Hlen : length (list_history v) = (20 * (k + 1))%nat).
      { rewrite Hlist, List.length_firstn. lia. }
      unfold _load_more_history. rewrite Hoff, get_history_page. fold full.
      rewrite Hm, Hlen.
      set (page := firstn 20 (skipn (20 * (k + 1)) full)).
      assert (Hpage : list_history v ++ page = firstn (20 * (S k + 1)) full).
      { rewrite Hlist. unfold page. rewrite firstn_firstn_skipn. f_equal. lia. }
      assert (Hpl : length page = Nat.min 20 (length full - 20 * (k + 1))).
      { unfold page. now rewrite List.length_firstn, List.length_skipn. }
      unfold PAGE_SIZE_HISTORY.
      destruct page as [|c page'] eqn:Epage.
      * cbn [list_history history_offset history_has_more length].
        rewrite app_nil_r in Hpage. cbn [length] in Hpl.
        split; [exact Hpage|]. split; [now rewrite Hlen|].
        split; intros H; [lia | discriminate].
      * cbn [list_history history_offset history_has_more].
        split; [exact Hpage|]. split; [rewrite List.length_app; lia|].
        destruct (Z.ltb_spec (Z.of_nat (length (c :: page'))) 20) as [Hlt|Hge];
          split; intros H; try discriminate; lia.
    + specialize (Hdone eq_refl). rewrite Hm.
      split; [|split; [exact Hoff|split; intros H; [lia|discriminate]]].
      rewrite Hlist, !List.firstn_all2 by lia. reflexivity.
Qed.

End Paging.

(** X7. The pages of [get_history] and of [get_pinned] tile the list: a
    page of [limit] clips at [offset] followed by a page of [limit'] at
    [offset + limit] is the page of [limit + limit'] at [offset], and a
    page never holds more than [limit] clips. *)
Theorem pages_tile (limit limit' offset : Z) (s : store) :
  0 <= limit -> 0 <= limit' -> 0 <= offset ->
  get_history limit offset s ++ get_history limit' (offset + limit) s
  = get_history (limit + limit') offset s /\
  get_pinned limit offset s ++ get_pinned limit' (offset + limit) s
  = get_pinned (limit + limit') offset s /\
  Z.of_nat (length (get_history limit offset s)) <= limit /\
  Z.of_nat (length (get_pinned limit offset s)) <= limit.
Proof.
  intros H1 H2 H3. unfold get_history, get_pinned.
  rewrite <- !List.map_app, !limit_offset_pages by lia.
  rewrite !List.length_map. repeat split; now apply limit_offset_length.
Qed.

Lemma pages_tile_witness :
  get_pinned 1 0 two_pinned ++ get_pinned 1 (0 + 1) two_pinned
  = get_pinned (1 + 1) 0 two_pinned.
Proof.
  exact (proj1 (proj2 (pages_tile 1 1 0 two_pinned ltac:(lia) ltac:(lia) ltac:(lia)))).
Defined.

(** X8. The history list of the window shows the clips in the order of
    the table, none twice and none left out: after [refresh_lists] and
    [k] further requests for more, it holds the first [20 * (k + 1)]
    history clips; once the flag [history_has_more] is off the list is
    complete, and the flag is off as soon as a page came back short. *)
Theorem history_list_pages (s : store) (k : nat) :
  let full := get_history (-1) 0 s in
  let v := Nat.iter k (_on_history_scroll s) (refresh_history s) in
  list_history v = firstn (20 * (k + 1)) full /\
  (history_has_more v = false -> list_history v = full) /\
  ((length full < 20 * (k + 1))%nat -> history_has_more v = false).
Proof.
  cbv zeta. destruct (history_view_invariant s k) as (Hlist & _ & Hdone & Hmore).
  split; [exact Hlist|]. split.
  - intros H. rewrite Hlist. apply List.firstn_all2. now apply Hdone.
  - intros H. destruct (history_has_more _); [|reflexivity].
    specialize (Hmore eq_refl). lia.
Qed.

(** ** [storage.py]: groups of pinned clips *)

Section Groups.

Lemma compare_Gt_ltb (a b : string) : String.compare a b = Gt -> String.ltb b a = true.
Proof.
  intros H. unfold String.ltb. rewrite String.compare_antisym, H. reflexivity.
Qed.

Lemma In_insert_group (x g : string) (l : list string) :
  In x (insert_group g l) <-> x = g \/ In x l.
Proof.
  induction l as [|h t IH]; simpl; [intuition|].
  destruct (String.compare g h) eqn:E; simpl.
  - apply String.compare_eq_iff in E. subst h. intuition.
  - intuition.
  - rewrite IH. intuition.
Qed.

Lemma HdRel_insert_group (a g : string) (l : list string) :
  HdRel backup_manager.str_lt a l -> backup_manager.str_lt a g ->
  HdRel backup_manager.str_lt a (insert_group g l).
Proof.
  intros Hl Hg. destruct l as [|h t]; simpl; [now constructor|].
  destruct (String.compare g h) eqn:E; [exact Hl | now constructor |].
  constructor. now inversion Hl.
Qed.

Lemma Sorted_insert_group (g : string) (l : list string) :
  Sorted backup_manager.str_lt l -> Sorted backup_manager.str_lt (insert_group g l).
Proof.
  induction 1 as [|h t Ht IH Hh]; simpl; [repeat constructor|].
  destruct (String.compare g h) eqn:E.
  - now constructor.
  - constructor; [now constructor|]. constructor.
    unfold backup_manager.str_lt, String.ltb. now rewrite E.
  - constructor; [exact IH|]. apply HdRel_insert_group; [exact Hh|].
    now apply compare_Gt_ltb.
Qed.

Lemma In_get_groups (g : string) (s : store) :
  In g (get_groups s) <->
  exists r, In r (rows s) /\ is_pinned r = true /\ group_name r = g /\ g <> EmptyString.
Proof.
  unfold get_groups.
  set (p := fun r : row => negb (String.eqb (group_name r) EmptyString) && is_pinned r).
  assert (H : forall l, In g (fold_right insert_group [] l) <-> In g l).
  { induction l as [|x l IH]; simpl; [tauto|]. rewrite In_insert_group, IH. intuition. }
  rewrite H, List.in_map_iff. split.
  - intros (r & <- & Hr). apply List.filter_In in Hr as [Hr Hp]. unfold p in Hp.
    apply andb_true_iff in Hp as [Hg Hp]. exists r. repeat split; auto.
    apply negb_true_iff, String.eqb_neq in Hg. exact Hg.
  - intros (r & Hr & Hp & <- & Hg). exists r. split; [reflexivity|].
    apply List.filter_In. split; [exact Hr|]. unfold p. rewrite Hp.
    apply String.eqb_neq in Hg. now rewrite Hg.
Qed.

Lemma In_get_clips_by_group (g : string) (s : store) (r : row) :
  In r (rows s) -> is_pinned r = true -> group_name r = g ->
  In (select_columns pinned_columns r) (get_clips_by_group g s).
Proof.
  intros Hr Hp Hg. unfold get_clips_by_group. apply List.in_map.
  apply In_order_by_pin_order_desc, List.filter_In. split; [exact Hr|].
  rewrite Hp. now apply String.eqb_eq.
Qed.

Lemma get_clips_by_group_nonempty (g : string) (s : store) :
  get_clips_by_group g s <> [] ->
  exists r, In r (rows s) /\ is_pinned r = true /\ group_name r = g.
Proof.
  unfold get_clips_by_group. intros H.
  destruct (order_by_pin_order_desc _) as [|r l] eqn:E; [contradiction|].
  assert (Hr : In r (order_by_pin_order_desc
            (List.filter (fun r => is_pinned r && String.eqb (group_name r) g) (rows s))))
    by (rewrite E; now left).
  apply In_order_by_pin_order_desc, List.filter_In in Hr as [Hr Hp].
  apply andb_true_iff in Hp as [Hp Hg]. apply String.eqb_eq in Hg. eauto.
Qed.

End Groups.

(** X9. The grouped view of the pinned list loses no clip. [get_groups]
    lists, in strictly increasing order (so none twice), exactly the
    non-empty group names for which [get_clips_by_group] returns a clip;
    every pinned clip with a group name is returned by
    [get_clips_by_group] for that name, and every pinned clip without one
    by [get_ungrouped_pinned] when no limit is set. *)
Theorem groups_cover_pinned (s : store) :
  Sorted backup_manager.str_lt (get_groups s) /\
  (forall g, In g (get_groups s) <->
             g <> EmptyString /\ get_clips_by_group g s <> []) /\
  (forall r, In r (rows s) -> is_pinned r = true ->
     if String.eqb (group_name r) EmptyString
     then In (select_columns pinned_columns r) (get_ungrouped_pinned (-1) 0 s)
     else In (group_name r) (get_groups s) /\
          In (select_columns pinned_columns r) (get_clips_by_group (group_name r) s)).
Proof.
  split; [|split].
  - unfold get_groups.
    induction (List.map group_name _) as [|g l IH]; simpl; [constructor|].
    now apply Sorted_insert_group.
  - intros g. rewrite In_get_groups. split.
    + intros (r & Hr & Hp & Hg & Hne). split; [exact Hne|].
      intros E. pose proof (In_get_clips_by_group g s r Hr Hp Hg) as Hin.
      rewrite E in Hin. contradiction.
    + intros [Hne H]. apply get_clips_by_group_nonempty in H as (r & Hr & Hp & Hg).
      exists r. auto.
  - intros r Hr Hp. destruct (String.eqb_spec (group_name r) EmptyString) as [E|E].
    + unfold get_ungrouped_pinned. rewrite limit_offset_all. apply List.in_map.
      apply In_order_by_pin_order_desc, List.filter_In. split; [exact Hr|].
      rewrite Hp. now apply String.eqb_eq.
    + split; [|now apply In_get_clips_by_group].
      apply In_get_groups. exists r. auto.
Qed.

(** ** [backup_manager.py]: finding a backup to recover from *)

Section FindValid.

Import backup_manager.

Lemma first_valid_passes_over (fs : filesystem) (before rest : list string) :
  (forall q, In q before ->
     validate_backup fs q = Ok (false, None) \/
     validate_backup fs q = Ok (true, Some JNull)) ->
  first_valid fs (before ++ rest) = first_valid fs rest.
Proof.
  induction before as [|q before IH]; intros H; [reflexivity|].
  cbn [app first_valid].
  destruct (H q (or_introl eq_refl)) as [-> | ->]; cbn [mbind res_bind];
    apply IH; intros x Hx; apply H; now right.
Qed.

Lemma first_valid_skips (fs : filesystem) (before rest : list string) :
  (forall q, In q before -> validate_backup fs q = Ok (false, None)) ->
  first_valid fs (before ++ rest) = first_valid fs rest.
Proof.
  intros H. apply first_valid_passes_over. intros q Hq. left. now apply H.
Qed.

End FindValid.

(** X10. [find_valid_backup] goes through the backup files from the
    newest name down. It passes over a file that [validate_backup]
    rejects and over a file that validates with a [clips] entry of
    [null] (the test [clips is not None]), and stops at the first other
    file: when every file before [p] is passed over, the result is [p]
    with its clips if [p] validates with clips that are not [null], and
    the exception [validate_backup] raises for [p] if it raises (a file
    that is not UTF-8 is not skipped); when every file is passed over the
    result is [(None, None)]. *)
Theorem find_valid_backup_newest_valid (fs : filesystem) (before : list string) :
  (forall q, In q before ->
     backup_manager.validate_backup fs q = Ok (false, None) \/
     backup_manager.validate_backup fs q = Ok (true, Some JNull)) ->
  (backup_manager.get_backup_files fs = before ->
   backup_manager.find_valid_backup fs = Ok (None, None)) /\
  (forall p after,
     backup_manager.get_backup_files fs = before ++ p :: after ->
     (forall clips, backup_manager.validate_backup fs p = Ok (true, Some clips) ->
        clips <> JNull ->
        backup_manager.find_valid_backup fs = Ok (Some p, Some clips)) /\
     (forall e, backup_manager.validate_backup fs p = Raise e ->
        backup_manager.find_valid_backup fs = Raise e)).
Proof.
  intros Hbefore. unfold backup_manager.find_valid_backup. split.
  - intros ->. rewrite <- (app_nil_r before). now rewrite first_valid_passes_over.
  - intros p after ->. rewrite first_valid_passes_over by exact Hbefore.
    cbn [backup_manager.first_valid].
    split; [intros clips -> Hclips | intros e ->]; [|reflexivity].
    cbn [mbind res_bind]. destruct clips; try reflexivity. now elim Hclips.
Qed.

Lemma find_valid_backup_newest_valid_witness :
  backup_manager.get_backup_files null_first_fs
  = ["backups/clipboard_backup_20240501_100100.json";
     "backups/clipboard_backup_20240501_100030.json";
     "backups/clipboard_backup_20240501_100000.json"] /\
  backup_manager.validate_backup null_first_fs
    "backups/clipboard_backup_20240501_100100.json" = Ok (true, Some JNull) /\
  backup_manager.validate_backup null_first_fs
    "backups/clipboard_backup_20240501_100030.json" = Ok (false, None) /\
  backup_manager.find_valid_backup null_first_fs
  = Ok (Some "backups/clipboard_backup_20240501_100000.json",
        Some (JArr (get_all_clips two_pinned))).
Proof.
  assert (L : backup_manager.get_backup_files null_first_fs
              = ["backups/clipboard_backup_20240501_100100.json";
                 "backups/clipboard_backup_20240501_100030.json"] ++
                "backups/clipboard_backup_20240501_100000.json" :: [])
    by (vm_compute; reflexivity).
  assert (V1 : backup_manager.validate_backup null_first_fs
                 "backups/clipboard_backup_20240501_100100.json" = Ok (true, Some JNull))
    by (vm_compute; reflexivity).
  assert (V2 : backup_manager.validate_backup null_first_fs
                 "backups/clipboard_backup_20240501_100030.json" = Ok (false, None))
    by (vm_compute; reflexivity).
  split; [exact L|]. split; [exact V1|]. split; [exact V2|].
  refine (proj1 (proj2 (find_valid_backup_newest_valid null_first_fs
            ["backups/clipboard_backup_20240501_100100.json";
             "backups/clipboard_backup_20240501_100030.json"] _) _ _ L) _ _ _).
  - intros q [<- | [<- | []]]; [now right | now left].
  - vm_compute. reflexivity.
  - discriminate.
Defined.

(** ** [backup_manager.py]: rotation and the atomic write *)

Section RotationGeneral.

Import backup_manager.

Lemma lookup_fold_try_remove (d : disk) (dels : list string) (fs : filesystem) (p : string) :
  fold_left (try_remove d) dels fs !! p
  = if decide (p ∈ dels)
    then (if remove_fails d p then fs !! p else None)
    else fs !! p.
Proof.
  revert fs. induction dels as [|k l IH]; intros fs; [reflexivity|].
  cbn [fold_left]. rewrite IH. unfold try_remove.
  destruct (decide (p = k)) as [->|Hne].
  - rewrite (decide_True (P := k ∈ k :: l)) by (now left).
    destruct (remove_fails d k) eqn:F; [now destruct (decide (k ∈ l))|].
    rewrite lookup_delete_eq. now destruct (decide (k ∈ l)).
  - assert (Hfs : (if remove_fails d k then fs else delete k fs) !! p = fs !! p).
    { destruct (remove_fails d k); [reflexivity | now apply lookup_delete_ne]. }
    rewrite Hfs. destruct (decide (p ∈ l)) as [Hin|Hnin].
    + rewrite (decide_True (P := p ∈ k :: l)) by (now right). reflexivity.
    + rewrite (decide_False (P := p ∈ k :: l)); [reflexivity|].
      intros H. apply elem_of_cons in H as [H|H]; contradiction.
Qed.

Lemma rotate_backups_lookup_full (d : disk) (fs : filesystem) (p : string) :
  rotate_backups d fs !! p
  = if decide (p ∈ drop MAX_BACKUPS (get_backup_files fs))
    then (if remove_fails d p then fs !! p else None)
    else fs !! p.
Proof.
  unfold rotate_backups.
  destruct (Nat.ltb_spec MAX_BACKUPS (length (get_backup_files fs))) as [Hlt|Hge].
  - apply lookup_fold_try_remove.
  - rewrite drop_ge by lia. reflexivity.
Qed.

Lemma rotate_backups_other (d : disk) (fs : filesystem) (p : string) :
  glob_match p = false -> rotate_backups d fs !! p = fs !! p.
Proof.
  intros Hp. rewrite rotate_backups_lookup_full.
  destruct (decide _) as [Hin|]; [|reflexivity].
  assert (Hfiles : p ∈ get_backup_files fs).
  { rewrite <- (take_drop MAX_BACKUPS (get_backup_files fs)). apply elem_of_app. now right. }
  apply elem_of_get_backup_files in Hfiles as [Hg _]. congruence.
Qed.

Lemma append_tmp_neq (a : string) : String.append a ".tmp" <> a.
Proof.
  intros H. apply (f_equal String.length) in H.
  rewrite string_length_append in H. simpl in H. lia.
Qed.

End RotationGeneral.

(** X11. [rotate_backups] touches only backup files beyond the ten
    newest names: such a file is removed unless its removal fails, in
    which case it stays and the others are still removed; every other
    file is left as it is, and a directory with at most ten backup files
    is not changed at all. *)
Theorem rotate_backups_removes_only_old (d : disk) (fs : filesystem) :
  (forall p,
     backup_manager.rotate_backups d fs !! p
     = if decide (p ∈ drop backup_manager.MAX_BACKUPS (backup_manager.get_backup_files fs))
       then (if remove_fails d p then fs !! p else None)
       else fs !! p) /\
  (forall p, backup_manager.glob_match p = false ->
     backup_manager.rotate_backups d fs !! p = fs !! p) /\
  ((length (backup_manager.get_backup_files fs) <= backup_manager.MAX_BACKUPS)%nat ->
   backup_manager.rotate_backups d fs = fs).
Proof.
  split; [apply rotate_backups_lookup_full|]. split.
  - apply rotate_backups_other.
  - intros H. unfold backup_manager.rotate_backups.
    now replace (_ <? _)%nat with false by (symmetry; apply Nat.ltb_ge; exact H).
Qed.

Lemma create_backup_failed_lookup (d : disk) (temp : string) (fs : filesystem) :
  fst (backup_manager.create_backup_failed d temp fs) = None /\
  (forall p, p <> temp ->
     snd (backup_manager.create_backup_failed d temp fs) !! p = fs !! p) /\
  (remove_fails d temp = false ->
     snd (backup_manager.create_backup_failed d temp fs) !! temp = None).
Proof.
  unfold backup_manager.create_backup_failed, backup_manager.try_remove. cbn [fst snd].
  split; [reflexivity|]. split.
  - intros p Hp. destruct (fs !! temp); [|reflexivity].
    destruct (remove_fails d temp); [reflexivity|]. now apply lookup_delete_ne.
  - intros ->. destruct (fs !! temp) eqn:E; [apply lookup_delete_eq | exact E].
Qed.

(** X12. The write of [create_backup] is all or nothing. The result is
    the snapshot's path or [None], and it is [None] exactly when the
    temporary file cannot be opened or the snapshot cannot be put in
    place (the write into the temporary file stops, or the rename
    fails). On [None] no file but the temporary one differs from before,
    and the temporary file is gone unless its removal fails too. On
    success no temporary file is left behind, the snapshot file, if
    rotation has not removed it, holds the serialized document, and no
    file other than backup files has been touched. *)
Theorem create_backup_atomic (d : disk) (timestamp created_at : string)
    (clips : list json) (fs : filesystem) :
  let filepath := backup_manager.backup_path timestamp in
  let temp_filepath := String.append filepath ".tmp" in
  let text := Json.dump (JObj (backup_manager.backup_data created_at clips)) in
  let result := backup_manager.create_backup d timestamp created_at clips fs in
  (fst result = Some filepath \/ fst result = None) /\
  (fst result = None <->
   write_fails d temp_filepath = true \/ write_fails d filepath = true) /\
  (fst result = None ->
   (forall p, p <> temp_filepath -> snd result !! p = fs !! p) /\
   (remove_fails d temp_filepath = false -> snd result !! temp_filepath = None)) /\
  (fst result = Some filepath ->
   snd result !! temp_filepath = None /\
   (forall f, snd result !! filepath = Some f -> f = text) /\
   (forall p, backup_manager.glob_match p = false -> p <> temp_filepath -> p <> filepath ->
              snd result !! p = fs !! p)).
Proof.
  cbv zeta. unfold backup_manager.create_backup.
  fold (backup_manager.backup_path timestamp).
  set (filepath := backup_manager.backup_path timestamp).
  set (temp := String.append filepath ".tmp").
  set (text := Json.dump (JObj (backup_manager.backup_data created_at clips))).
  assert (Hfailed : forall fs0,
            (forall p, p <> temp -> fs0 !! p = fs !! p) ->
            let r := backup_manager.create_backup_failed d temp fs0 in
            (fst r = Some filepath \/ fst r = None) /\
            (fst r = None <-> True) /\
            (fst r = None ->
             (forall p, p <> temp -> snd r !! p = fs !! p) /\
             (remove_fails d temp = false -> snd r !! temp = None)) /\
            (fst r = Some filepath -> False)).
  { intros fs0 Hfs0. cbv zeta.
    destruct (create_backup_failed_lookup d temp fs0) as (Hnone & Hother & Htemp).
    rewrite Hnone. split; [now right|]. split; [tauto|]. split; [|discriminate].
    intros _. split; [|exact Htemp].
    intros p Hp. rewrite (Hother p Hp). now apply Hfs0. }
  destruct (write_fails d temp) eqn:Wt.
  { destruct (Hfailed fs (fun _ _ => eq_refl)) as (H1 & H2 & H3 & H4).
    split; [exact H1|]. split; [|split; [exact H3 | intros H; now elim (H4 H)]].
    split; [now left | intros _; now apply H2]. }
  destruct (write_fails d filepath) eqn:Wf.
  { assert (Hins : forall x p, p <> temp -> <[temp := x]> fs !! p = fs !! p)
      by (intros x p Hp; now apply lookup_insert_ne).
    destruct (partial_write d filepath) as [n|].
    - destruct (Hfailed _ (Hins (String.substring 0 n text))) as (H1 & H2 & H3 & H4).
      split; [exact H1|]. split; [|split; [exact H3 | intros H; now elim (H4 H)]].
      split; [now right | intros _; now apply H2].
    - destruct (Hfailed _ (Hins text)) as (H1 & H2 & H3 & H4).
      split; [exact H1|]. split; [|split; [exact H3 | intros H; now elim (H4 H)]].
      split; [now right | intros _; now apply H2]. }
  rewrite lookup_insert_eq. cbn [fst snd].
  set (fs2 := <[filepath := text]> (delete temp (<[temp := text]> fs))).
  assert (Hne : filepath <> temp)
    by (intros E; exact (append_tmp_neq filepath (eq_sym E))).
  assert (Htemp : fs2 !! temp = None).
  { unfold fs2. rewrite lookup_insert_ne by exact Hne. apply lookup_delete_eq. }
  split; [now left|]. split; [split; [discriminate | intros [H|H]; discriminate H]|].
  split; [discriminate|]. intros _. split; [|split].
  - rewrite rotate_backups_lookup_full, Htemp.
    destruct (decide _); [destruct (remove_fails d temp)|]; reflexivity.
  - intros f Hf. apply rotate_backups_lookup in Hf. unfold fs2 in Hf.
    rewrite lookup_insert_eq in Hf. now injection Hf.
  - intros p Hg Hp1 Hp2. rewrite (rotate_backups_other d fs2 p Hg).
    unfold fs2. rewrite lookup_insert_ne by congruence.
    rewrite lookup_delete_ne by congruence. now rewrite lookup_insert_ne by congruence.
Qed.

(** ** [backup_manager.py]: the legacy flat file *)

Section Legacy.

Import backup_manager.

Lemma normalize_clip_item_shape (item : json) :
  (forall l, item <> JArr l) ->
  exists ty co tg,
    normalize_clip_item item = Ok [("type", ty); ("content", co); ("tag", tg)].
Proof.
  intros H. destruct item as [ | [] | z | t | l | o]; try (eexists _, _, _; reflexivity).
  now destruct (H l).
Qed.

Lemma legacy_loop_spec (now : string) (pinned : bool) (pin_order_of : nat -> Z)
    (items : list json) (i : nat) :
  List.Forall (fun item => forall l, item <> JArr l) items ->
  exists clips,
    legacy_loop now pinned pin_order_of i items = Ok clips /\
    length clips = length items /\
    forall (j : nat) (item : json), items !! j = Some item ->
      exists ty co tg,
        normalize_clip_item item = Ok [("type", ty); ("content", co); ("tag", tg)] /\
        clips !! j
        = Some (JObj [("type", ty); ("content", co); ("tag", tg);
                      ("is_pinned", JBool pinned);
                      ("pin_order", JNum (pin_order_of (i + j)%nat));
                      ("created_at", JStr now); ("updated_at", JStr now)]).
Proof.
  revert i. induction items as [|item items IH]; intros i Hall.
  - exists []. repeat split. intros j x Hx. discriminate Hx.
  - apply List.Forall_cons_iff in Hall as [Hitem Hall].
    destruct (normalize_clip_item_shape item Hitem) as (ty & co & tg & En).
    destruct (IH (S i) Hall) as (clips & Eloop & Hlen & Hnth).
    eexists. cbn [legacy_loop]. rewrite En. cbn [mbind res_bind]. rewrite Eloop.
    cbn [mbind res_bind]. split; [reflexivity|]. split; [simpl; now rewrite Hlen|].
    intros [|j] x Hx.
    + injection Hx as <-. exists ty, co, tg. split; [exact En|].
      rewrite Nat.add_0_r. reflexivity.
    + destruct (Hnth j x Hx) as (ty' & co' & tg' & En' & Ej).
      exists ty', co', tg'. split; [exact En'|].
      replace (i + S j)%nat with (S i + j)%nat by lia. exact Ej.
Qed.

End Legacy.

(** X13. [import_legacy_json] turns a legacy document into clip records,
    the pinned entries first and the history entries after them, in
    their order. Every record has exactly the keys [type], [content] and
    [tag] that [normalize_clip_item] gives for the entry, followed by
    [is_pinned], [pin_order] and the two timestamps; the pinned entry at
    position [j] gets [pin_order] [len(pinned) - j], and every history
    entry gets 0. *)
Theorem import_legacy_json_ranks (now : string) (d : dict) (ps hs : list json) :
  dict_get_or d "pinned" (JArr []) = JArr ps ->
  dict_get_or d "history" (JArr []) = JArr hs ->
  List.Forall (fun item => forall l, item <> JArr l) ps ->
  List.Forall (fun item => forall l, item <> JArr l) hs ->
  exists clips,
    backup_manager.import_legacy_json now (Some (Document (JObj d))) = Ok (Some clips) /\
    length clips = (length ps + length hs)%nat /\
    (forall (j : nat) (item : json), ps !! j = Some item ->
       exists ty co tg,
         backup_manager.normalize_clip_item item
         = Ok [("type", ty); ("content", co); ("tag", tg)] /\
         clips !! j
         = Some (JObj [("type", ty); ("content", co); ("tag", tg);
                       ("is_pinned", JBool true);
                       ("pin_order", JNum (Z.of_nat (length ps) - Z.of_nat j));
                       ("created_at", JStr now); ("updated_at", JStr now)])) /\
    (forall (j : nat) (item : json), hs !! j = Some item ->
       exists ty co tg,
         backup_manager.normalize_clip_item item
         = Ok [("type", ty); ("content", co); ("tag", tg)] /\
         clips !! (length ps + j)%nat
         = Some (JObj [("type", ty); ("content", co); ("tag", tg);
                       ("is_pinned", JBool false); ("pin_order", JNum 0);
                       ("created_at", JStr now); ("updated_at", JStr now)])).
Proof.
  intros Hp Hh Hps Hhs. unfold backup_manager.import_legacy_json. rewrite Hp, Hh.
  cbn [py_iter].
  destruct (legacy_loop_spec now true
              (fun i => Z.of_nat (length ps) - Z.of_nat i) ps 0 Hps) as (p & Ep & Lp & Np).
  destruct (legacy_loop_spec now false (fun _ => 0) hs 0 Hhs) as (h & Eh & Lh & Nh).
  rewrite Ep. cbn [mbind res_bind]. rewrite Eh. cbn [mbind res_bind].
  exists (p ++ h). split; [reflexivity|]. split; [rewrite List.length_app; lia|]. split.
  - intros j item Hj. destruct (Np j item Hj) as (ty & co & tg & En & Ej).
    exists ty, co, tg. split; [exact En|].
    rewrite lookup_app_l by (rewrite Lp; now apply lookup_lt_Some in Hj). exact Ej.
  - intros j item Hj. destruct (Nh j item Hj) as (ty & co & tg & En & Ej).
    exists ty, co, tg. split; [exact En|].
    rewrite <- Lp, lookup_app_r by lia.
    now replace (length p + j - length p)%nat with j by lia.
Qed.

Lemma import_legacy_json_ranks_witness :
  exists clips,
    backup_manager.import_legacy_json "2024-05-02T09:00:00"
      (Some (Document legacy_document)) = Ok (Some clips) /\
    length clips = 2%nat.
Proof.
  destruct (import_legacy_json_ranks "2024-05-02T09:00:00"
              [("history", JArr []); ("pinned", JArr [JStr "a"; JStr "b"])]
              [JStr "a"; JStr "b"] [] eq_refl eq_refl
              ltac:(repeat constructor; discriminate) ltac:(constructor))
    as (clips & E & L & _).
  exists clips. split; [exact E | exact L].
Defined.

(** ** [main.py]: exceptions that escape recovery at start-up *)

(** X14. With an empty table, [_init_data] lets two exceptions through.
    If the newest backup file that validation does not reject is not
    valid UTF-8, [UnicodeDecodeError] escapes (the [except] clause of
    [validate_backup] does not name it) and the older backups are never
    tried. If no backup is valid and [data.json] holds a JSON value that is
    not an object, [AttributeError] escapes from [import_legacy_json]. *)
Theorem init_data_exceptions (clock : nat -> string) (now : string)
    (fs : filesystem) (s : store) :
  rows s = [] ->
  (forall before p after bytes,
     backup_manager.get_backup_files fs = before ++ p :: after ->
     (forall q, In q before -> backup_manager.validate_backup fs q = Ok (false, None)) ->
     fs !! p = Some bytes -> Json.utf8_valid bytes = false ->
     _init_data clock now fs s = Raise UnicodeDecodeError) /\
  (forall bytes v,
     backup_manager.find_valid_backup fs = Ok (None, None) ->
     fs !! DATA_FILE = Some bytes -> read_file bytes = Ok (Document v) ->
     (forall d, v <> JObj d) ->
     _init_data clock now fs s = Raise AttributeError).
Proof.
  intros Hrows. unfold _init_data, get_clip_count. rewrite Hrows. cbn [length Z.of_nat Z.ltb Z.compare].
  split.
  - intros before p after bytes Hfiles Hbefore Hp Hbytes.
    unfold backup_manager.find_valid_backup. rewrite Hfiles.
    rewrite first_valid_skips by exact Hbefore. cbn [backup_manager.first_valid].
    unfold backup_manager.validate_backup at 1, read_path, read_file.
    rewrite Hp, Hbytes. reflexivity.
  - intros bytes v Hfind Hfile Hread Hv. rewrite Hfind, Hfile, Hread.
    cbn [mbind res_bind snd]. destruct v; try reflexivity. now destruct (Hv d).
Qed.

Lemma init_data_exceptions_witness :
  _init_data (fun _ => "2024-05-02T09:00:00") "2024-05-02T09:00:00"
    {[ DATA_FILE := "[1, 2]" ]} empty_store = Raise AttributeError.
Proof.
  refine (proj2 (init_data_exceptions _ _ {[ DATA_FILE := "[1, 2]" ]} empty_store eq_refl)
            "[1, 2]" (JArr [JNum 1; JNum 2]) _ _ _ _).
  - vm_compute. reflexivity.
  - vm_compute. reflexivity.
  - vm_compute. reflexivity.
  - discriminate.
Defined.

(** ** Backup and recovery as a round trip *)

Section RoundTrip.

Lemma insert_by_updated_perm (r : row) (l : list row) :
  Permutation (insert_by_updated r l) (r :: l).
Proof.
  induction l as [|a l IH]; simpl; [reflexivity|].
  destruct (String.leb _ _); [reflexivity|].
  rewrite IH. apply perm_swap.
Qed.

Lemma order_by_updated_desc_perm (l : list row) : Permutation (order_by_updated_desc l) l.
Proof.
  unfold order_by_updated_desc. induction l as [|a l IH]; simpl; [reflexivity|].
  rewrite insert_by_updated_perm. now constructor.
Qed.

Lemma filter_split_perm {A} (p : A -> bool) (l : list A) :
  Permutation (List.filter p l ++ List.filter (fun x => negb (p x)) l) l.
Proof.
  induction l as [|a l IH]; simpl; [reflexivity|].
  destruct (p a); simpl; [now constructor|].
  rewrite <- Permutation_middle. now constructor.
Qed.

Lemma all_clips_rows_perm (s : store) : Permutation (all_clips_rows s) (rows s).
Proof.
  unfold all_clips_rows. rewrite !order_by_updated_desc_perm. apply filter_split_perm.
Qed.

Lemma get_all_clips_rows (s : store) :
  get_all_clips s = List.map (fun r => JObj (row_dict r)) (all_clips_rows s).
Proof. reflexivity. Qed.

Lemma existsb_hash_false (h : string) (rs : list row) :
  ~ In h (List.map hash rs) -> existsb (fun r => String.eqb (hash r) h) rs = false.
Proof.
  induction rs as [|r rs IH]; simpl; [reflexivity|]. intros H.
  apply orb_false_iff. split; [apply String.eqb_neq; tauto | apply IH; tauto].
Qed.

Lemma record_of_row_dict (r : row) : record_of (row_dict r) r.
Proof.
  destruct r as [i ty c h tg g p o cr up]. unfold record_of.
  repeat split; try reflexivity. eexists. split; [reflexivity|]. now destruct p.
Qed.

(** One record, imported. *)
Lemma import_row (d : dict) (r : row) (s0 : store) :
  record_of d r -> row_importable r -> ~ In (hash r) (List.map hash (rows s0)) ->
  py_truthy (dict_get_or d "is_pinned" (JBool false)) = is_pinned r /\
  hash_or_compute d (dict_get_or d "content" (JStr EmptyString)) = Ok (JStr (hash r)) /\
  forall now,
    execute_insert_or_ignore (dict_get_or d "type" (JStr "text"))
      (dict_get_or d "content" (JStr EmptyString)) (JStr (hash r))
      (dict_get_or d "tag" (JStr EmptyString)) (is_pinned r)
      (dict_get_or d "created_at" (JStr now))
      (dict_get_or d "updated_at" (dict_get_or d "created_at" (JStr now))) s0
    = Ok (Store (rows s0 ++ [imported_row (sqlite_sequence s0 + 1) r])
                (sqlite_sequence s0 + 1) (need_backup s0) (backup_callback s0)
                (callback_calls s0)).
Proof.
  intros (Hc & Ht & Hg & (v & Hp & Hv) & Hh & Hcr & Hup) [Hty Hne] Hfresh.
  unfold hash_or_compute, dict_get_or. rewrite Hc, Ht, Hg, Hp, Hh, Hcr, Hup.
  split; [exact Hv|]. split.
  - cbn [py_truthy]. apply String.eqb_neq in Hne. now rewrite Hne.
  - intros _. unfold execute_insert_or_ignore. cbn [bind_text mbind res_bind].
    destruct r as [i ty c h tg g p o cr up]. cbn [hash type tag] in *.
    destruct tg as [t|]; cbn [bind_text mbind res_bind]; unfold insert_or_ignore;
      rewrite Hty, (existsb_hash_false h (rows s0) Hfresh); reflexivity.
Qed.

Lemma import_loop_records (clock : nat -> string) (enc : row -> dict) (l : list row) :
  forall (i : nat) (count : Z) (s0 : store),
    (forall r, In r l -> record_of (enc r) r) ->
    List.Forall row_importable l ->
    List.NoDup (List.map hash l) ->
    (forall r, In r l -> ~ In (hash r) (List.map hash (rows s0))) ->
    import_loop clock i (List.map (fun r => JObj (enc r)) l) count s0
    = Ok (count + Z.of_nat (length l),
          Store (rows s0 ++ imported_rows (sqlite_sequence s0) l)
                (sqlite_sequence s0 + Z.of_nat (length l))
                (need_backup s0) (backup_callback s0) (callback_calls s0)).
Proof.
  induction l as [|r l IH]; intros i count s0 Henc Hall Hnd Hfresh.
  - cbn [List.map import_loop imported_rows length Z.of_nat].
    rewrite app_nil_r, !Z.add_0_r. now destruct s0.
  - apply List.Forall_cons_iff in Hall as [Hr Hall].
    apply List.NoDup_cons_iff in Hnd as [Hnotin Hnd].
    destruct (import_row (enc r) r s0 (Henc r (or_introl eq_refl)) Hr
                (Hfresh r (or_introl eq_refl))) as (Hp & Hh & Hex).
    cbn [List.map import_loop]. rewrite Hh. cbn [mbind res_bind]. rewrite Hp, Hex.
    rewrite IH; [| intros x Hx; apply Henc; now right | exact Hall | exact Hnd |].
    + cbn [rows sqlite_sequence need_backup backup_callback callback_calls imported_rows length].
      rewrite <- app_assoc. cbn [app]. do 2 f_equal; [lia|]. f_equal. lia.
    + intros x Hx. cbn [rows]. rewrite List.map_app, List.in_app_iff. cbn [List.map In hash imported_row].
      intros [H | [H | []]]; [exact (Hfresh x (or_intror Hx) H)|].
      apply Hnotin. rewrite H. now apply List.in_map.
Qed.

(** The records of a table's clips, imported into a table without rows. *)
Lemma import_clips_records (clock : nat -> string) (enc : row -> dict) (s s0 : store) :
  (forall r, record_of (enc r) r) ->
  List.NoDup (List.map hash (rows s)) -> List.Forall row_importable (rows s) ->
  rows s0 = [] ->
  import_clips clock (List.map (fun r => JObj (enc r)) (all_clips_rows s)) s0
  = Ok (get_clip_count s,
        Store (imported_rows (sqlite_sequence s0) (all_clips_rows s))
              (sqlite_sequence s0 + get_clip_count s)
              (need_backup s0) (backup_callback s0) (callback_calls s0)).
Proof.
  intros Henc Hnd Hall Hempty. unfold import_clips.
  pose proof (all_clips_rows_perm s) as P.
  rewrite import_loop_records.
  - rewrite Hempty. cbn [app]. unfold get_clip_count.
    rewrite (Permutation_length P). reflexivity.
  - intros r _. apply Henc.
  - rewrite List.Forall_forall in Hall |- *. intros r Hr. apply Hall.
    now apply (Permutation_in _ P).
  - apply (Permutation_NoDup (l := List.map hash (rows s))); [|exact Hnd].
    symmetry. now apply Permutation_map.
  - intros r _. now rewrite Hempty.
Qed.

Lemma import_clips_all_clips (clock : nat -> string) (s s0 : store) :
  List.NoDup (List.map hash (rows s)) -> List.Forall row_importable (rows s) ->
  rows s0 = [] ->
  import_clips clock (get_all_clips s) s0
  = Ok (get_clip_count s,
        Store (imported_rows (sqlite_sequence s0) (all_clips_rows s))
              (sqlite_sequence s0 + get_clip_count s)
              (need_backup s0) (backup_callback s0) (callback_calls s0)).
Proof.
  intros Hnd Hall Hempty. rewrite get_all_clips_rows.
  apply (import_clips_records clock row_dict); auto. apply record_of_row_dict.
Qed.

End RoundTrip.

Section ExportOrder.

Lemma Sorted_order_by_updated_desc (l : list row) :
  Sorted (fun a b => str_ge (updated_at a) (updated_at b)) (order_by_updated_desc l).
Proof.
  unfold order_by_updated_desc. induction l as [|r l IH]; simpl; [constructor|].
  revert IH. generalize (fold_right insert_by_updated [] l). clear l.
  intros l. induction 1 as [|a l Hl IH Ha]; simpl; [repeat constructor|].
  destruct (String.leb (updated_at a) (updated_at r)) eqn:E.
  - constructor; [now constructor|]. constructor. exact E.
  - constructor; [exact IH|].
    assert (Hra : str_ge (updated_at a) (updated_at r)).
    { unfold str_ge. destruct (String.leb_total (updated_at a) (updated_at r)); congruence. }
    destruct l as [|b l]; simpl; [now constructor|].
    destruct (String.leb (updated_at b) (updated_at r)); constructor; [exact Hra|].
    now inversion Ha.
Qed.

Lemma all_clips_order_trans : Transitive all_clips_order.
Proof.
  intros a b c [[Ha Hb] | [Hab Hu]] [[Hb' Hc] | [Hbc Hu']].
  - congruence.
  - left. split; [exact Ha | congruence].
  - left. split; [congruence | exact Hc].
  - right. split; [congruence|]. now transitivity (updated_at b).
Qed.

Lemma StronglySorted_impl_In {A} (R R' : relation A) (l : list A) :
  (forall a b, In a l -> In b l -> R a b -> R' a b) ->
  StronglySorted R l -> StronglySorted R' l.
Proof.
  intros H Hs. induction Hs as [|a l Hs IH Ha]; constructor.
  - apply IH. intros x y Hx Hy. apply H; now right.
  - rewrite List.Forall_forall in Ha |- *. intros x Hx.
    apply H; [now left | now right | now apply Ha].
Qed.

Lemma StronglySorted_section (p : bool) (l : list row) :
  (forall r, In r l -> is_pinned r = p) ->
  StronglySorted all_clips_order (order_by_updated_desc l).
Proof.
  intros Hp.
  apply (StronglySorted_impl_In (fun a b => str_ge (updated_at a) (updated_at b))).
  - intros a b Ha Hb Hab. right. split; [|exact Hab].
    apply (proj1 (In_order_by_updated_desc _ _)) in Ha.
    apply (proj1 (In_order_by_updated_desc _ _)) in Hb.
    rewrite (Hp a Ha), (Hp b Hb). reflexivity.
  - apply Sorted_StronglySorted; [|apply Sorted_order_by_updated_desc].
    intros a b c Hab Hbc. now transitivity (updated_at b).
Qed.

Lemma Sorted_all_clips_rows (s : store) : Sorted all_clips_order (all_clips_rows s).
Proof.
  apply StronglySorted_Sorted. unfold all_clips_rows. apply StronglySorted_app_2.
  - intros a b Ha Hb. left.
    apply list_elem_of_In in Ha, Hb.
    apply (proj1 (In_order_by_updated_desc _ _)) in Ha.
    apply (proj1 (In_order_by_updated_desc _ _)) in Hb.
    apply List.filter_In in Ha as [_ Ha]. apply List.filter_In in Hb as [_ Hb].
    split; [exact Ha | now apply negb_true_iff].
  - apply (StronglySorted_section true). intros r Hr. now apply List.filter_In in Hr.
  - apply (StronglySorted_section false). intros r Hr.
    apply List.filter_In in Hr as [_ Hr]. now apply negb_true_iff.
Qed.

Lemma NoDup_map_determines {A B} (f : A -> B) (l : list A) (a b : A) :
  List.NoDup (List.map f l) -> In a l -> In b l -> f a = f b -> a = b.
Proof.
  induction l as [|x l IH]; simpl; intros Hnd Ha Hb E; [contradiction|].
  apply List.NoDup_cons_iff in Hnd as [Hx Hnd].
  destruct Ha as [-> | Ha], Hb as [-> | Hb]; auto.
  - exfalso. apply Hx. rewrite E. now apply List.in_map.
  - exfalso. apply Hx. rewrite <- E. now apply List.in_map.
Qed.

(** With timestamps that differ, the ORDER BY clause of [get_all_clips]
    admits one arrangement of the rows. *)
Lemma all_clips_rows_unique (s : store) (l : list row) :
  List.NoDup (List.map updated_at (rows s)) ->
  Permutation l (rows s) -> Sorted all_clips_order l -> l = all_clips_rows s.
Proof.
  intros Hnd Hperm Hsorted.
  apply (Sorted_unique_strong all_clips_order (Transitive0 := all_clips_order_trans)).
  - intros x y Hx Hy Hxy Hyx.
    apply list_elem_of_In in Hx, Hy.
    apply (Permutation_in _ Hperm) in Hx.
    apply (Permutation_in _ (all_clips_rows_perm s)) in Hy.
    apply (NoDup_map_determines updated_at (rows s)); [exact Hnd | exact Hx | exact Hy |].
    destruct Hxy as [[Hx1 Hy1] | [Hp Hu]], Hyx as [[Hy2 Hx2] | [Hp' Hu']]; try congruence.
    now apply (anti_symm str_ge).
  - exact Hsorted.
  - apply Sorted_all_clips_rows.
  - rewrite Hperm. symmetry. apply all_clips_rows_perm.
Qed.

End ExportOrder.

(** X15. Importing what [get_all_clips] exports into a table without rows
    brings every clip back. Let no two clips have the same [updated_at],
    so that the ORDER BY clause leaves the database no choice:
    [get_all_clips] is the list of the rows in the one arrangement that
    puts pinned clips first and each section newest first. Then, under
    UNIQUE(hash), for rows whose type passes the CHECK and whose hash is
    not empty, [import_clips] returns the number of clips and the table
    holds one row per clip in that order, with its type, content, hash,
    tag, pinned flag and both timestamps; the ids are new, [pin_order] is
    0 and the group name is empty. *)
Theorem import_restores_all_clips (clock : nat -> string) (s s0 : store) :
  List.NoDup (List.map hash (rows s)) -> List.Forall row_importable (rows s) ->
  List.NoDup (List.map updated_at (rows s)) ->
  rows s0 = [] ->
  (forall l, Permutation l (rows s) -> Sorted all_clips_order l ->
     get_all_clips s = List.map (fun r => JObj (row_dict r)) l /\
     import_clips clock (get_all_clips s) s0
     = Ok (get_clip_count s,
           Store (imported_rows (sqlite_sequence s0) l)
                 (sqlite_sequence s0 + get_clip_count s)
                 (need_backup s0) (backup_callback s0) (callback_calls s0))) /\
  Permutation (all_clips_rows s) (rows s) /\ Sorted all_clips_order (all_clips_rows s).
Proof.
  intros Hnd Himp Htimes Hempty. split; [|split].
  - intros l Hperm Hsorted.
    rewrite (all_clips_rows_unique s l Htimes Hperm Hsorted).
    split; [apply get_all_clips_rows | now apply import_clips_all_clips].
  - apply all_clips_rows_perm.
  - apply Sorted_all_clips_rows.
Qed.

Lemma import_restores_all_clips_witness :
  let a := Row 1 "text" "a" "0cc175b9c0f1b6a831c399e269772661" (Some EmptyString) EmptyString
               true 1 "2024-05-01T10:00:00" "2024-05-01T10:00:20" in
  let b := Row 2 "text" "b" "92eb5ffee6ae2fec3ad71c777531578f" (Some EmptyString) EmptyString
               true 2 "2024-05-01T10:00:10" "2024-05-01T10:00:30" in
  rows two_pinned = [a; b] /\
  import_clips (fun _ => "2024-05-02T09:00:00") (get_all_clips two_pinned) empty_store
  = Ok (2, Store (imported_rows 0 [b; a]) 2 false false 0).
Proof.
  cbv zeta. split; [reflexivity|].
  refine (proj2 (proj1 (import_restores_all_clips _ two_pinned empty_store _ _ _ eq_refl)
                   _ _ _)).
  - apply two_pinned_wf.
  - repeat constructor; discriminate.
  - repeat constructor; cbn; intuition discriminate.
  - apply perm_swap.
  - apply Sorted_cons; [apply Sorted_cons; [apply Sorted_nil | apply HdRel_nil]|].
    apply HdRel_cons. right. split; reflexivity.
Defined.

Section DiskRoundTrip.

Lemma row_dict_well_formed (r : row) :
  row_decodes r = true -> Json.well_formed (JObj (row_dict r)) = true.
Proof.
  destruct r as [i ty c h tg g p o cr up]. unfold row_decodes.
  cbn [type content hash tag group_name created_at updated_at].
  intros H. repeat (apply andb_true_iff in H as [H ?]).
  unfold row_dict. cbn [id type content hash tag group_name is_pinned pin_order
                          created_at updated_at].
  cbn [Json.well_formed List.map fst snd forallb].
  change (Json.keys_distinct _) with true.
  change (Json.utf8_valid "id") with true. change (Json.utf8_valid "type") with true.
  change (Json.utf8_valid "content") with true. change (Json.utf8_valid "hash") with true.
  change (Json.utf8_valid "tag") with true. change (Json.utf8_valid "group_name") with true.
  change (Json.utf8_valid "is_pinned") with true.
  change (Json.utf8_valid "pin_order") with true.
  change (Json.utf8_valid "created_at") with true.
  change (Json.utf8_valid "updated_at") with true.
  cbn [andb]. repeat (apply andb_true_iff; split); try assumption; try reflexivity.
  destruct tg; [assumption | reflexivity].
Qed.

Lemma get_all_clips_well_formed (s : store) :
  List.Forall (fun r => row_decodes r = true) (rows s) ->
  Json.well_formed (JArr (get_all_clips s)) = true.
Proof.
  intros H. cbn [Json.well_formed]. rewrite get_all_clips_rows.
  apply forallb_forall. intros v Hv. apply List.in_map_iff in Hv as (r & <- & Hr).
  apply row_dict_well_formed. rewrite List.Forall_forall in H. apply H.
  now apply (Permutation_in _ (all_clips_rows_perm s)).
Qed.

Lemma get_all_clips_nonempty (s : store) :
  rows s <> [] -> py_truthy (JArr (get_all_clips s)) = true.
Proof.
  intros H. rewrite get_all_clips_rows.
  destruct (all_clips_rows s) as [|r l] eqn:E; [|reflexivity].
  pose proof (Permutation_length (all_clips_rows_perm s)) as L. rewrite E in L.
  destruct (rows s); [contradiction | discriminate].
Qed.

End DiskRoundTrip.

(** X16. A backup followed by a recovery brings the clips back. On a disk
    whose calls succeed, with every earlier backup file named by an older
    time stamp, [_perform_backup] clears the dirty flag and leaves the
    table alone; if the table is then lost, [_init_data] on the empty
    table finds the new file first, validates it and imports its clips.
    For clips no two of which have the same [updated_at], the table then
    holds one row per clip, in the one arrangement [l] that the ORDER BY
    clause of [get_all_clips] admits (pinned first, each section newest
    first), with type, content, hash, tag, pinned flag and timestamps as
    they were, new ids, [pin_order] 0 and no group. *)
Theorem backup_then_recover (d : disk) (timestamp created_at now : string)
    (clock : nat -> string) (s s0 : store) (fs : filesystem) (l : list row) :
  (forall p, write_fails d p = false) -> (forall p, remove_fails d p = false) ->
  backup_manager.is_timestamp timestamp = true ->
  Json.utf8_valid created_at = true ->
  (forall p, p ∈ backup_manager.get_backup_files fs ->
     exists o, p = backup_manager.backup_path o /\
               backup_manager.is_timestamp o = true /\ backup_manager.str_lt o timestamp) ->
  List.NoDup (List.map hash (rows s)) ->
  List.Forall row_importable (rows s) ->
  List.Forall (fun r => row_decodes r = true) (rows s) ->
  List.NoDup (List.map updated_at (rows s)) ->
  Permutation l (rows s) -> Sorted all_clips_order l ->
  rows s <> [] -> rows s0 = [] ->
  need_backup (fst (_perform_backup d timestamp created_at s fs)) = false /\
  rows (fst (_perform_backup d timestamp created_at s fs)) = rows s /\
  _init_data clock now (snd (_perform_backup d timestamp created_at s fs)) s0
  = Ok (Store (imported_rows (sqlite_sequence s0) l)
              (sqlite_sequence s0 + get_clip_count s)
              (need_backup s0) (backup_callback s0) (callback_calls s0)).
Proof.
  intros Hw Hrm Hts Hat Hold Hnd Himp Hdec Htimes Hperm Hsorted Hrows Hempty.
  rewrite (all_clips_rows_unique s l Htimes Hperm Hsorted). clear l Hperm Hsorted.
  split; [reflexivity|]. split; [reflexivity|].
  unfold _perform_backup. cbn [snd].
  set (clips := get_all_clips s).
  set (fs' := snd (backup_manager.create_backup d timestamp created_at clips fs)).
  set (path := backup_manager.backup_path timestamp).
  set (text := Json.dump (JObj (backup_manager.backup_data created_at clips))).
  assert (Hlist : exists rest, backup_manager.get_backup_files fs' = path :: rest).
  { unfold fs'. rewrite (get_backup_files_create d timestamp created_at clips fs Hw Hrm Hts Hold).
    fold path. unfold backup_manager.MAX_BACKUPS. cbn [take]. eauto. }
  destruct Hlist as (rest & Hlist).
  assert (Hfile : fs' !! path = Some text).
  { assert (Hin : path ∈ backup_manager.get_backup_files fs') by (rewrite Hlist; now left).
    apply elem_of_get_backup_files in Hin as [_ [f Hf]]. rewrite Hf. f_equal.
    unfold fs', backup_manager.create_backup in Hf.
    fold path in Hf. rewrite !Hw in Hf. rewrite lookup_insert_eq in Hf. cbn [snd] in Hf.
    apply rotate_backups_lookup in Hf. rewrite lookup_insert_eq in Hf. now injection Hf. }
  assert (Hvalid : backup_manager.validate_backup fs' path = Ok (true, Some (JArr clips))).
  { unfold backup_manager.validate_backup, read_path. rewrite Hfile. unfold text.
    rewrite read_backup; [|now apply get_all_clips_well_formed | exact Hat].
    cbn [mbind res_bind]. apply backup_data_validates. }
  unfold _init_data, get_clip_count at 1. rewrite Hempty. cbn [length].
  unfold backup_manager.find_valid_backup. rewrite Hlist.
  cbn [backup_manager.first_valid]. rewrite Hvalid. cbn [mbind res_bind snd].
  unfold clips at 1. rewrite get_all_clips_nonempty by exact Hrows.
  change (0 <? Z.of_nat 0) with false. cbv iota.
  change (import_clips_value clock (default JNull (Some (JArr clips))) s0)
    with (import_clips clock (get_all_clips s) s0).
  rewrite (import_clips_all_clips clock s s0 Hnd Himp Hempty). reflexivity.
Qed.

Lemma backup_then_recover_witness :
  let a := Row 1 "text" "a" "0cc175b9c0f1b6a831c399e269772661" (Some EmptyString) EmptyString
               true 1 "2024-05-01T10:00:00" "2024-05-01T10:00:20" in
  let b := Row 2 "text" "b" "92eb5ffee6ae2fec3ad71c777531578f" (Some EmptyString) EmptyString
               true 2 "2024-05-01T10:00:10" "2024-05-01T10:00:30" in
  rows two_pinned = [a; b] /\
  _init_data (fun _ => "2024-05-02T09:00:00") "2024-05-02T09:00:00"
    (snd (_perform_backup reliable "20240501_100000" "2024-05-01T10:00:00" two_pinned ∅))
    empty_store
  = Ok (Store (imported_rows 0 [b; a]) 2 false false 0).
Proof.
  cbv zeta. split; [reflexivity|].
  refine (proj2 (proj2 (backup_then_recover reliable "20240501_100000"
            "2024-05-01T10:00:00" "2024-05-02T09:00:00" (fun _ => "2024-05-02T09:00:00")
            two_pinned empty_store ∅ _ _ _ _ _ _ _ _ _ _ _ _ _ _))).
  - reflexivity.
  - reflexivity.
  - reflexivity.
  - reflexivity.
  - intros p Hp. vm_compute in Hp. inversion Hp.
  - apply two_pinned_wf.
  - repeat constructor; discriminate.
  - repeat constructor.
  - repeat constructor; cbn; intuition discriminate.
  - apply perm_swap.
  - apply Sorted_cons; [apply Sorted_cons; [apply Sorted_nil | apply HdRel_nil]|].
    apply HdRel_cons. right. split; reflexivity.
  - discriminate.
  - reflexivity.
Defined.

(** ** [backup.py]: [BackupManager] *)

Section BackupManagerLemmas.

Import backup_manager.

Lemma rotate_backups_agree (d : disk) (fs : filesystem) :
  BackupManager._rotate_backups d fs = rotate_backups d fs.
Proof.
  unfold BackupManager._rotate_backups, rotate_backups.
  change (BackupManager.get_all_backups fs) with (get_backup_files fs).
  change backup.MAX_BACKUPS with MAX_BACKUPS.
  destruct (Nat.ltb_spec MAX_BACKUPS (length (get_backup_files fs))) as [H|H];
    [reflexivity|].
  change (skipn MAX_BACKUPS (get_backup_files fs)) with (drop MAX_BACKUPS (get_backup_files fs)).
  now rewrite drop_ge by lia.
Qed.

(** The listing after a snapshot has been written under a newer name,
    whatever its text. *)
Lemma listing_after_write (ts doc : string) (fs : filesystem) :
  is_timestamp ts = true ->
  (forall p, p ∈ get_backup_files fs ->
     exists o, p = backup_path o /\ is_timestamp o = true /\ str_lt o ts) ->
  get_backup_files
    (<[backup_path ts := doc]>
       (delete (String.append (backup_path ts) ".tmp")
          (<[String.append (backup_path ts) ".tmp" := doc]> fs)))
  = backup_path ts :: get_backup_files fs.
Proof.
  intros Hts Hold. set (tmp := String.append (backup_path ts) ".tmp").
  assert (Hlook : forall p,
            (<[backup_path ts := doc]> (delete tmp (<[tmp := doc]> fs))) !! p
            = if decide (p = backup_path ts) then Some doc
              else if decide (p = tmp) then None else fs !! p).
  { intros p. destruct (decide (p = backup_path ts)) as [->|Hne].
    - apply lookup_insert_eq.
    - rewrite lookup_insert_ne by auto.
      destruct (decide (p = tmp)) as [->|Hne'].
      + apply lookup_delete_eq.
      + rewrite lookup_delete_ne by auto. now rewrite lookup_insert_ne by auto. }
  assert (Hnew : forall p, p ∈ get_backup_files fs -> str_lt p (backup_path ts)).
  { intros p Hp. destruct (Hold p Hp) as (o & -> & Ho & Hlt).
    now apply str_lt_backup_path. }
  apply get_backup_files_unique.
  - constructor; [apply get_backup_files_sorted|].
    destruct (get_backup_files fs) as [|h l] eqn:E; constructor.
    apply str_lt_ge, Hnew. left.
  - apply NoDup_cons. split; [|apply get_backup_files_NoDup].
    intros Hin. exact (str_lt_neq _ _ (Hnew _ Hin) eq_refl).
  - intros p. rewrite Hlook, elem_of_cons. split.
    + intros [->|Hp].
      * split; [now apply glob_match_backup_path|].
        rewrite decide_True by reflexivity. eauto.
      * pose proof (proj1 (elem_of_get_backup_files fs p) Hp) as [Hg Hsome].
        split; [exact Hg|].
        destruct (decide (p = backup_path ts)); [eauto|].
        destruct (decide (p = tmp)) as [->|]; [|exact Hsome].
        exfalso. destruct (Hold _ Hp) as (o & E & Ho & _).
        apply (f_equal String.length) in E. unfold tmp in E.
        rewrite string_length_append, !backup_path_length in E.
        rewrite (is_timestamp_length o Ho), (is_timestamp_length ts Hts) in E.
        simpl in E. lia.
    + intros [Hg Hsome].
      destruct (decide (p = backup_path ts)) as [->|Hne]; [now left|]. right.
      destruct (decide (p = tmp)); [destruct Hsome; discriminate|].
      apply elem_of_get_backup_files. now split.
Qed.

Lemma filter_all {A} (p : A -> bool) (l : list A) :
  (forall x, In x l -> p x = true) -> List.filter p l = l.
Proof.
  induction l as [|a l IH]; simpl; intros H; [reflexivity|].
  rewrite (H a (or_introl eq_refl)). f_equal. apply IH. intros x Hx. apply H. now right.
Qed.

Lemma filter_map_comm {A B} (q : B -> bool) (f : A -> B) (l : list A) :
  List.filter q (List.map f l) = List.map f (List.filter (fun x => q (f x)) l).
Proof.
  induction l as [|a l IH]; simpl; [reflexivity|].
  destruct (q (f a)); simpl; now rewrite IH.
Qed.

Lemma all_clips_rows_pinned (s : store) :
  List.filter is_pinned (all_clips_rows s)
  = order_by_updated_desc (List.filter is_pinned (rows s)) /\
  List.filter (fun r => negb (is_pinned r)) (all_clips_rows s)
  = order_by_updated_desc (List.filter (fun r => negb (is_pinned r)) (rows s)).
Proof.
  unfold all_clips_rows. rewrite !List.filter_app.
  assert (P : forall x, In x (order_by_updated_desc (List.filter is_pinned (rows s))) ->
                        is_pinned x = true).
  { intros x Hx. apply In_order_by_updated_desc, List.filter_In in Hx. tauto. }
  assert (H : forall x, In x (order_by_updated_desc
                                (List.filter (fun r => negb (is_pinned r)) (rows s))) ->
                        is_pinned x = false).
  { intros x Hx. apply In_order_by_updated_desc, List.filter_In in Hx as [_ Hx].
    now apply negb_true_iff. }
  rewrite (filter_all is_pinned _ P).
  rewrite (filter_none is_pinned _ H), app_nil_r.
  rewrite (filter_none (fun r => negb (is_pinned r))
             (order_by_updated_desc (List.filter is_pinned (rows s))))
    by (intros x Hx; now rewrite (P x Hx)).
  rewrite (filter_all (fun r => negb (is_pinned r))
             (order_by_updated_desc (List.filter (fun r => negb (is_pinned r)) (rows s))))
    by (intros x Hx; now rewrite (H x Hx)).
  split; reflexivity.
Qed.

(** The member lists of the version 2 document. *)
Lemma backup_data_v2_lists (created_at : string) (s : store) :
  dict_get_or (backup.backup_data created_at (get_all_clips s)) "pinned" (JArr [])
  = JArr (List.map (fun r => JObj (row_dict r))
            (order_by_updated_desc (List.filter is_pinned (rows s)))) /\
  dict_get_or (backup.backup_data created_at (get_all_clips s)) "history" (JArr [])
  = JArr (List.map (fun r => JObj (row_dict r))
            (order_by_updated_desc (List.filter (fun r => negb (is_pinned r)) (rows s)))).
Proof.
  destruct (all_clips_rows_pinned s) as [Hp Hh].
  unfold backup.backup_data. rewrite get_all_clips_rows.
  cbn [dict_set dict_get_or dict_get String.eqb Ascii.eqb Bool.eqb].
  rewrite !filter_map_comm.
  assert (E : forall r, py_truthy (dict_get_or (row_dict r) "is_pinned" JNull) = is_pinned r).
  { intros r. destruct r as [i ty c h tg g p o cr up]. now destruct p. }
  rewrite (List.filter_ext _ is_pinned) by (intros r; apply E).
  rewrite (List.filter_ext (fun x => negb _) (fun r => negb (is_pinned r)))
    by (intros r; now rewrite E).
  now rewrite Hp, Hh.
Qed.

Lemma backup_data_v2_validates (created_at : string) (clips : list json) :
  backup.validate_data (Some (Document (JObj (backup.backup_data created_at clips))))
  = (true, Some (JObj (backup.backup_data created_at clips))).
Proof.
  unfold backup.validate_data, backup.py_contains, backup.backup_data.
  cbn [dict_set dict_has dict_get dict_get_or String.eqb Ascii.eqb Bool.eqb negb andb].
  unfold backup.checksum_of.
  cbn [dict_without List.filter fst String.eqb Ascii.eqb Bool.eqb negb].
  now rewrite String.eqb_refl.
Qed.

Lemma forallb_filter {A} (p q : A -> bool) (l : list A) :
  forallb p l = true -> forallb p (List.filter q l) = true.
Proof.
  rewrite !forallb_forall. intros H x Hx. apply List.filter_In in Hx as [Hx _]. auto.
Qed.

Lemma backup_data_v2_well_formed (created_at : string) (clips : list json) :
  Json.well_formed (JArr clips) = true -> Json.utf8_valid created_at = true ->
  Json.well_formed (JObj (backup.backup_data created_at clips)) = true.
Proof.
  intros Hclips Hat. unfold backup.backup_data.
  cbn [dict_set String.eqb Ascii.eqb Bool.eqb].
  cbn [Json.well_formed List.map fst snd forallb] in *.
  rewrite Hat, !forallb_filter by exact Hclips.
  assert (Hsum : forall x, Json.utf8_valid (Hashlib.sha256_hexdigest x) = true).
  { intros x. apply utf8_valid_iff, utf8_ascii, sha256_hexdigest_ascii. }
  unfold backup.checksum_of. rewrite Hsum. reflexivity.
Qed.

Lemma mark_items_rows (pinned : bool) (l : list row) :
  BackupManager.mark_items pinned (List.map (fun r => JObj (row_dict r)) l)
  = Ok (List.map (fun r => JObj (dict_set (row_dict r) "is_pinned" (JBool pinned))) l).
Proof.
  induction l as [|r l IH]; [reflexivity|].
  cbn [List.map BackupManager.mark_items]. rewrite IH. reflexivity.
Qed.

Lemma record_of_marked (r : row) :
  record_of (dict_set (row_dict r) "is_pinned" (JBool (is_pinned r))) r.
Proof.
  destruct r as [i ty c h tg g p o cr up]. unfold record_of.
  repeat split; try reflexivity. eexists. split; reflexivity.
Qed.

End BackupManagerLemmas.

(** X17. The class [BackupManager] of [backup.py] lists and rotates the
    backup files exactly as the functions of [backup_manager.py] do:
    [get_all_backups] is [get_backup_files], [get_latest_backup] is its
    first entry, and [_rotate_backups], which has no test on the number of
    files, leaves the same directory as [rotate_backups]. *)
Theorem backup_py_rotation_agrees (d : disk) (fs : filesystem) :
  BackupManager.get_all_backups fs = backup_manager.get_backup_files fs /\
  BackupManager.get_latest_backup fs = head (backup_manager.get_backup_files fs) /\
  BackupManager._rotate_backups d fs = backup_manager.rotate_backups d fs.
Proof.
  split; [reflexivity|]. split; [|apply rotate_backups_agree].
  unfold BackupManager.get_latest_backup.
  change (BackupManager.get_all_backups fs) with (backup_manager.get_backup_files fs).
  now destruct (backup_manager.get_backup_files fs).
Qed.

(** X18. What a failed write does to the dirty flag. [_do_backup] of
    [backup.py] does nothing on a clean store, and when the temporary file
    cannot be written it leaves the store dirty and the disk as it was, so
    that the backup is tried again. [_perform_backup] of [main.py] clears
    the flag whatever [create_backup] returns: after a failed write the
    store counts as backed up although no file was written. *)
Theorem failed_write_and_dirty_flag (d : disk) (created_at timestamp : string)
    (s : store) (fs : filesystem) :
  write_fails d (String.append (backup_manager.backup_path timestamp) ".tmp") = true ->
  BackupManager._do_backup d created_at timestamp s fs = (s, fs) /\
  need_backup (fst (_perform_backup d timestamp created_at s fs)) = false /\
  fst (backup_manager.create_backup d timestamp created_at (get_all_clips s) fs) = None /\
  (need_backup s = false ->
   forall d', BackupManager._do_backup d' created_at timestamp s fs = (s, fs)).
Proof.
  intros Hw. unfold BackupManager._do_backup, _perform_backup, backup_manager.create_backup.
  change (backup_manager.in_backup_dir
            (String.append backup.BACKUP_PREFIX (String.append timestamp backup.BACKUP_SUFFIX)))
    with (backup_manager.backup_path timestamp).
  change (backup_manager.in_backup_dir
            (String.append backup_manager.BACKUP_PREFIX (String.append timestamp ".json")))
    with (backup_manager.backup_path timestamp).
  rewrite Hw. cbn [fst snd need_backup clear_backup_flag].
  split; [now destruct (negb (need_backup s))|]. split; [reflexivity|].
  split; [reflexivity|]. intros -> d'. reflexivity.
Qed.

Lemma failed_write_and_dirty_flag_witness :
  let d := Disk (fun _ => true) (fun _ => false) in
  let s := snd (pin_clip "2024-05-01T10:01:00" 1 two_pinned) in
  need_backup s = true /\
  BackupManager._do_backup d "2024-05-01T10:02:00" "20240501_100200" s ∅ = (s, ∅) /\
  need_backup (fst (_perform_backup d "20240501_100200" "2024-05-01T10:02:00" s ∅)) = false.
Proof.
  cbv zeta. split; [reflexivity|].
  destruct (failed_write_and_dirty_flag (Disk (fun _ => true) (fun _ => false))
              "2024-05-01T10:02:00" "20240501_100200"
              (snd (pin_clip "2024-05-01T10:01:00" 1 two_pinned)) ∅ eq_refl)
    as (H1 & H2 & _).
  split; [exact H1 | exact H2].
Defined.

(** X19. The backups of [backup.py] restore what they saved. On a disk
    whose calls succeed, with every earlier backup file named by an older
    time stamp, [_do_backup] on a dirty store clears the flag; on a table
    without rows, [restore_from_backup] with no path given and
    [try_recovery] then both take the new file, validate it against its
    checksum and import its clips, pinned first. For clips no two of
    which have the same [updated_at], the table then holds one row per
    clip, in the one arrangement [l] that the ORDER BY clause of
    [get_all_clips] admits, with type, content, hash, tag, pinned flag
    and timestamps as they were, new ids, [pin_order] 0 and no group, and
    the count returned is the number of clips. *)
Theorem do_backup_then_restore (d : disk) (created_at timestamp : string)
    (clock : nat -> string) (s s0 : store) (fs : filesystem) (l : list row) :
  (forall p, write_fails d p = false) -> (forall p, remove_fails d p = false) ->
  backup_manager.is_timestamp timestamp = true ->
  Json.utf8_valid created_at = true ->
  (forall p, p ∈ backup_manager.get_backup_files fs ->
     exists o, p = backup_manager.backup_path o /\
               backup_manager.is_timestamp o = true /\ backup_manager.str_lt o timestamp) ->
  List.NoDup (List.map hash (rows s)) ->
  List.Forall row_importable (rows s) ->
  List.Forall (fun r => row_decodes r = true) (rows s) ->
  List.NoDup (List.map updated_at (rows s)) ->
  Permutation l (rows s) -> Sorted all_clips_order l ->
  rows s <> [] -> need_backup s = true -> rows s0 = [] ->
  let after := BackupManager._do_backup d created_at timestamp s fs in
  let restored :=
    Store (imported_rows (sqlite_sequence s0) l)
          (sqlite_sequence s0 + get_clip_count s)
          (need_backup s0) (backup_callback s0) (callback_calls s0) in
  need_backup (fst after) = false /\
  BackupManager.restore_from_backup clock None s0 (snd after)
  = Ok ((true, get_clip_count s), restored) /\
  BackupManager.try_recovery clock s0 (snd after) = Ok ((true, get_clip_count s), restored).
Proof.
  intros Hw Hrm Hts Hat Hold Hnd Himp Hdec Htimes Hperm Hsorted Hrows Hdirty Hempty.
  rewrite (all_clips_rows_unique s l Htimes Hperm Hsorted). clear l Hperm Hsorted.
  cbv zeta.
  unfold BackupManager._do_backup. rewrite Hdirty. cbn [negb].
  change (backup_manager.in_backup_dir
            (String.append backup.BACKUP_PREFIX (String.append timestamp backup.BACKUP_SUFFIX)))
    with (backup_manager.backup_path timestamp).
  rewrite !Hw, lookup_insert_eq. cbn [fst snd].
  split; [reflexivity|].
  set (clips := get_all_clips s).
  set (path := backup_manager.backup_path timestamp).
  set (data := backup.backup_data created_at clips).
  set (text := Json.dump (JObj data)).
  rewrite rotate_backups_agree.
  set (fs' := backup_manager.rotate_backups d _).
  assert (Hlist : exists rest, backup_manager.get_backup_files fs' = path :: rest).
  { unfold fs', path. rewrite (get_backup_files_rotate d _ Hrm).
    rewrite (listing_after_write timestamp text fs Hts Hold).
    unfold backup_manager.MAX_BACKUPS. cbn [take]. eauto. }
  destruct Hlist as (rest & Hlist).
  assert (Hfile : fs' !! path = Some text).
  { assert (Hin : path ∈ backup_manager.get_backup_files fs') by (rewrite Hlist; now left).
    apply elem_of_get_backup_files in Hin as [_ [f Hf]]. rewrite Hf. f_equal.
    unfold fs' in Hf. apply rotate_backups_lookup in Hf.
    rewrite lookup_insert_eq in Hf. now injection Hf. }
  assert (Hvalid : backup.validate_backup fs' path = Ok (true, Some (JObj data))).
  { unfold backup.validate_backup, read_path. rewrite Hfile. unfold text.
    rewrite read_file_dump
      by (apply backup_data_v2_well_formed;
          [now apply get_all_clips_well_formed | exact Hat]).
    cbn [mbind res_bind]. unfold data. now rewrite backup_data_v2_validates. }
  assert (Hpath : String.eqb path EmptyString = false) by reflexivity.
  assert (Hcount : (0 <? get_clip_count s) = true).
  { unfold get_clip_count. destruct (rows s); [contradiction | reflexivity]. }
  assert (Hrestore : BackupManager.restore_from_backup clock (Some path) s0 fs'
            = Ok ((true, get_clip_count s),
                  Store (imported_rows (sqlite_sequence s0) (all_clips_rows s))
                        (sqlite_sequence s0 + get_clip_count s)
                        (need_backup s0) (backup_callback s0) (callback_calls s0))).
  { unfold BackupManager.restore_from_backup. rewrite Hpath, Hvalid. cbn [mbind res_bind].
    unfold data, clips. destruct (backup_data_v2_lists created_at s) as [-> ->].
    unfold BackupManager.mark_all. cbn [py_iter]. rewrite !mark_items_rows.
    cbn [mbind res_bind].
    assert (E : List.map (fun r => JObj (dict_set (row_dict r) "is_pinned" (JBool true)))
                  (order_by_updated_desc (List.filter is_pinned (rows s))) ++
                List.map (fun r => JObj (dict_set (row_dict r) "is_pinned" (JBool false)))
                  (order_by_updated_desc
                     (List.filter (fun r => negb (is_pinned r)) (rows s)))
                = List.map (fun r => JObj (dict_set (row_dict r) "is_pinned"
                                             (JBool (is_pinned r))))
                    (all_clips_rows s)).
    { unfold all_clips_rows. rewrite List.map_app. f_equal; apply List.map_ext_in.
      - intros r Hr. apply In_order_by_updated_desc, List.filter_In in Hr as [_ ->].
        reflexivity.
      - intros r Hr. apply In_order_by_updated_desc, List.filter_In in Hr as [_ Hr].
        apply negb_true_iff in Hr. now rewrite Hr. }
    rewrite E.
    rewrite (import_clips_records clock
               (fun r => dict_set (row_dict r) "is_pinned" (JBool (is_pinned r)))
               s s0 record_of_marked Hnd Himp Hempty).
    reflexivity. }
  split.
  - unfold BackupManager.restore_from_backup at 1, BackupManager.get_latest_backup.
    change (BackupManager.get_all_backups fs') with (backup_manager.get_backup_files fs').
    rewrite Hlist. exact Hrestore.
  - unfold BackupManager.try_recovery.
    change (BackupManager.get_all_backups fs') with (backup_manager.get_backup_files fs').
    rewrite Hlist. cbn [BackupManager.try_backups]. rewrite Hrestore.
    cbn [mbind res_bind andb]. rewrite Hcount. reflexivity.
Qed.

Lemma do_backup_then_restore_witness :
  let a := Row 1 "text" "a" "0cc175b9c0f1b6a831c399e269772661" (Some EmptyString) EmptyString
               true 3 "2024-05-01T10:00:00" "2024-05-01T10:01:00" in
  let b := Row 2 "text" "b" "92eb5ffee6ae2fec3ad71c777531578f" (Some EmptyString) EmptyString
               true 2 "2024-05-01T10:00:10" "2024-05-01T10:00:30" in
  let s := snd (pin_clip "2024-05-01T10:01:00" 1 two_pinned) in
  rows s = [a; b] /\
  BackupManager.try_recovery (fun _ => "2024-05-02T09:00:00") empty_store
    (snd (BackupManager._do_backup reliable "2024-05-01T10:02:00" "20240501_100200" s ∅))
  = Ok ((true, 2), Store (imported_rows 0 [a; b]) 2 false false 0).
Proof.
  cbv zeta. split; [reflexivity|].
  refine (proj2 (proj2 (do_backup_then_restore reliable "2024-05-01T10:02:00"
            "20240501_100200" (fun _ => "2024-05-02T09:00:00")
            (snd (pin_clip "2024-05-01T10:01:00" 1 two_pinned)) empty_store ∅
            _ _ _ _ _ _ _ _ _ _ _ _ _ _ _))).
  - reflexivity.
  - reflexivity.
  - reflexivity.
  - reflexivity.
  - intros p Hp. vm_compute in Hp. inversion Hp.
  - simpl. repeat constructor; simpl; intuition discriminate.
  - repeat constructor; discriminate.
  - repeat constructor.
  - simpl. repeat constructor; simpl; intuition discriminate.
  - apply Permutation_refl.
  - apply Sorted_cons; [apply Sorted_cons; [apply Sorted_nil | apply HdRel_nil]|].
    apply HdRel_cons. right. split; reflexivity.
  - discriminate.
  - reflexivity.
  - reflexivity.
Defined.

Section RestoreErrors.

Lemma mark_items_not_object (pinned : bool) (items : list json) :
  List.Exists (fun item => forall d, item <> JObj d) items ->
  BackupManager.mark_items pinned items = Raise TypeError.
Proof.
  induction items as [|item items IH]; intros H; [inversion H|].
  destruct item as [ | | | | |d]; try reflexivity.
  cbn [BackupManager.mark_items]. rewrite IH; [reflexivity|].
  inversion H as [? ? Hd|]; subst; [now destruct (Hd d) | assumption].
Qed.

End RestoreErrors.

(** X20. [restore_from_backup] of [backup.py] expects clips that are
    dictionaries and checks nothing. A file that [validate_backup]
    accepts because it has a [pinned] list and no checksum (the legacy
    layout) and whose list holds an entry that is not an object makes
    [restore_from_backup] raise [TypeError], and [try_recovery], which
    calls it outside any [try], raises with it when that file is the
    newest backup. *)
Theorem restore_from_backup_type_error (clock : nat -> string) (p bytes : string)
    (d : dict) (items : list json) (s : store) (fs : filesystem) :
  fs !! p = Some bytes -> read_file bytes = Ok (Document (JObj d)) ->
  dict_get d "pinned" = Some (JArr items) -> dict_get d "checksum" = None ->
  List.Exists (fun item => forall o, item <> JObj o) items ->
  p <> EmptyString ->
  BackupManager.restore_from_backup clock (Some p) s fs = Raise TypeError /\
  (forall rest, backup_manager.get_backup_files fs = p :: rest ->
     BackupManager.try_recovery clock s fs = Raise TypeError).
Proof.
  intros Hfile Hread Hpinned Hsum Hitems Hp.
  assert (E : BackupManager.restore_from_backup clock (Some p) s fs = Raise TypeError).
  { unfold BackupManager.restore_from_backup.
    apply String.eqb_neq in Hp. rewrite Hp.
    unfold backup.validate_backup, read_path. rewrite Hfile, Hread. cbn [mbind res_bind].
    unfold backup.validate_data, backup.py_contains, dict_has. rewrite Hpinned, Hsum.
    cbn [negb andb]. rewrite Bool.andb_false_r.
    unfold dict_get_or. rewrite Hpinned. unfold BackupManager.mark_all. cbn [py_iter].
    now rewrite mark_items_not_object. }
  split; [exact E|].
  intros rest Hlist. unfold BackupManager.try_recovery.
  change (BackupManager.get_all_backups fs) with (backup_manager.get_backup_files fs).
  rewrite Hlist. cbn [BackupManager.try_backups]. now rewrite E.
Qed.

Lemma restore_from_backup_type_error_witness :
  BackupManager.restore_from_backup (fun _ => "2024-05-02T09:00:00")
    (Some "backups/clipboard_backup_20240501_100000.json") empty_store
    {[ "backups/clipboard_backup_20240501_100000.json" := Json.dump legacy_document ]}
  = Raise TypeError.
Proof.
  refine (proj1 (restore_from_backup_type_error _
            "backups/clipboard_backup_20240501_100000.json" (Json.dump legacy_document)
            [("history", JArr []); ("pinned", JArr [JStr "a"; JStr "b"])]
            [JStr "a"; JStr "b"] empty_store _ _ _ eq_refl eq_refl _ _)).
  - reflexivity.
  - vm_compute. reflexivity.
  - constructor. discriminate.
  - discriminate.
Defined.

(** ** [BackupScheduler]: a timer fires once, and not after [cancel] or
    [force_now] *)

(** X21. An armed timer of [BackupScheduler] leads to one backup at most.
    After [schedule] at [now] no backup happens before 30 seconds have
    passed, exactly one happens at [now + 30 s], and none after it
    however long one waits; after [cancel] none happens at all; after
    [force_now] the forced backup is the only one. *)
Theorem timer_fires_once (now t t' : Z) (sch : backup_manager.scheduler) :
  let armed := backup_manager.schedule now sch in
  let fire := now + backup_manager.debounce_ms in
  (t < fire ->
   backup_manager.backups (backup_manager.elapse t armed) = backup_manager.backups sch) /\
  (fire <= t ->
   backup_manager.backups (backup_manager.elapse t' (backup_manager.elapse t armed))
   = backup_manager.backups sch ++ [fire]) /\
  backup_manager.backups (backup_manager.elapse t (backup_manager.cancel armed))
  = backup_manager.backups sch /\
  backup_manager.backups (backup_manager.elapse t' (backup_manager.force_now t armed))
  = backup_manager.backups sch ++ [t].
Proof.
  cbv zeta. unfold backup_manager.elapse, backup_manager.schedule, backup_manager.cancel,
    backup_manager.force_now, backup_manager._execute_backup.
  cbn [backup_manager.timer backup_manager.backups].
  repeat split.
  - intros H. now replace (now + backup_manager.debounce_ms <=? t) with false by lia.
  - intros H. replace (now + backup_manager.debounce_ms <=? t) with true by lia.
    reflexivity.
Qed.

(** ** [storage.py]: reordering the history *)

Section HistoryMove.

Lemma index_of_lookup (l : list Z) (x : Z) (k : nat) :
  index_of x l = Some k -> l !! k = Some x.
Proof.
  revert k. induction l as [|y l IH]; intros k; simpl; [discriminate|].
  destruct (Z.eqb_spec y x) as [->|Hne]; [now intros [= <-]|].
  destruct (index_of x l) as [k'|]; simpl; [|discriminate].
  intros [= <-]. now apply IH.
Qed.

Lemma index_of_None (l : list Z) (x : Z) : index_of x l = None -> ~ In x l.
Proof.
  induction l as [|y l IH]; simpl; [tauto|].
  destruct (Z.eqb_spec y x) as [->|Hne]; [discriminate|].
  destruct (index_of x l); simpl; [discriminate|]. intros _ [H|H]; [congruence | now apply IH].
Qed.

Lemma index_of_In (l : list Z) (x : Z) : In x l -> exists k, index_of x l = Some k.
Proof.
  intros H. destruct (index_of x l) as [k|] eqn:E; [eauto|].
  now apply index_of_None in E.
Qed.

Lemma index_of_not_In (l : list Z) (x : Z) : ~ In x l -> index_of x l = None.
Proof.
  intros H. destruct (index_of x l) as [k|] eqn:E; [|reflexivity].
  apply index_of_lookup, list_elem_of_lookup_2, list_elem_of_In in E. contradiction.
Qed.

(** The loop of timestamp updates, as one pass over the table. *)
Lemma rewrite_times_map (stamp : nat -> string) (ids : list Z) :
  List.NoDup ids ->
  forall (i : nat) (rs : list row),
    rewrite_times stamp i ids rs
    = List.map (fun r => match index_of (id r) ids with
                         | Some k => set_updated_at (stamp (i + k)%nat) r
                         | None => r
                         end) rs.
Proof.
  induction 1 as [|c ids Hc Hnd IH]; intros i rs.
  - simpl. symmetry. apply List.map_id.
  - cbn [rewrite_times]. rewrite IH. unfold update_id. rewrite List.map_map.
    apply List.map_ext. intros r. cbn [index_of].
    destruct (Z.eqb_spec (id r) c) as [E|E].
    + cbn [id set_updated_at]. rewrite E, (index_of_not_In ids c Hc), Z.eqb_refl.
      now rewrite Nat.add_0_r.
    + replace (c =? id r) with false by (symmetry; apply Z.eqb_neq; congruence).
      destruct (index_of (id r) ids) as [k|]; [|reflexivity]. cbn [option_map].
      now replace (i + S k)%nat with (S i + k)%nat by lia.
Qed.

Lemma positions_seq (l : list Z) :
  List.NoDup l ->
  List.map (fun x => default 0%nat (index_of x l)) l = seq 0 (length l).
Proof.
  induction 1 as [|c l Hc Hnd IH]; [reflexivity|].
  cbn [List.map index_of length seq]. rewrite Z.eqb_refl. cbn [default]. f_equal.
  rewrite <- List.seq_shift, <- IH, List.map_map. apply List.map_ext_in.
  intros x Hx. replace (c =? x) with false
    by (symmetry; apply Z.eqb_neq; intros ->; contradiction).
  destruct (index_of_In l x Hx) as (k & ->). reflexivity.
Qed.

Lemma Sorted_stamps (stamp : nat -> string) (a n : nat) :
  (forall i j : nat, (i < j < a + n)%nat -> String.ltb (stamp j) (stamp i) = true) ->
  Sorted str_ge (List.map stamp (seq a n)).
Proof.
  revert a. induction n as [|n IH]; intros a H; simpl; [constructor|].
  constructor; [apply IH; intros i j Hij; apply H; lia|].
  destruct n; simpl; constructor.
  apply ltb_leb. apply H. lia.
Qed.

Lemma stamp_injective (stamp : nat -> string) (n i j : nat) :
  (forall i j : nat, (i < j < n)%nat -> String.ltb (stamp j) (stamp i) = true) ->
  (i < n)%nat -> (j < n)%nat -> stamp i = stamp j -> i = j.
Proof.
  intros H Hi Hj E. destruct (Nat.lt_trichotomy i j) as [Hlt|[Heq|Hgt]]; [|exact Heq|].
  - exfalso. exact (str_lt_neq _ _ (H i j (conj Hlt Hj)) (eq_sym E)).
  - exfalso. exact (str_lt_neq _ _ (H j i (conj Hgt Hi)) E).
Qed.

(** Exchanging two entries of a list without repetitions gives a
    permutation without repetitions. *)
Lemma swap_lookup (l : list Z) (i j : nat) (a b : Z) (k : nat) :
  l !! i = Some a -> l !! j = Some b ->
  <[j := a]> (<[i := b]> l) !! k
  = l !! (if decide (k = j) then i else if decide (k = i) then j else k).
Proof.
  intros Ha Hb.
  assert (Hi : (i < length l)%nat) by (now apply lookup_lt_Some in Ha).
  assert (Hj : (j < length l)%nat) by (now apply lookup_lt_Some in Hb).
  destruct (decide (k = j)) as [->|Hkj].
  - rewrite list_lookup_insert_eq by (now rewrite length_insert). now rewrite Ha.
  - rewrite list_lookup_insert_ne by congruence.
    destruct (decide (k = i)) as [->|Hki].
    + rewrite list_lookup_insert_eq by exact Hi. now rewrite Hb.
    + now rewrite list_lookup_insert_ne by congruence.
Qed.

Lemma swap_Permutation (l : list Z) (i j : nat) (a b : Z) :
  List.NoDup l -> l !! i = Some a -> l !! j = Some b ->
  List.NoDup (<[j := a]> (<[i := b]> l)) /\ Permutation (<[j := a]> (<[i := b]> l)) l.
Proof.
  intros Hnd Ha Hb. apply NoDup_ListNoDup in Hnd.
  set (sigma := fun k : nat => if decide (k = j) then i else if decide (k = i) then j else k).
  assert (Hlook : forall k, <[j := a]> (<[i := b]> l) !! k = l !! sigma k)
    by (intros k; now apply swap_lookup).
  assert (Hinv : forall k, sigma (sigma k) = k).
  { intros k. unfold sigma. repeat (destruct (decide _)); congruence. }
  assert (Hnd' : NoDup (<[j := a]> (<[i := b]> l))).
  { apply NoDup_alt. intros k1 k2 x H1 H2. rewrite Hlook in H1, H2.
    pose proof (proj1 (NoDup_alt l) Hnd _ _ _ H1 H2) as E.
    rewrite <- (Hinv k1), <- (Hinv k2). now rewrite E. }
  split; [now apply NoDup_ListNoDup|].
  apply NoDup_Permutation; [exact Hnd' | exact Hnd|].
  intros x. rewrite !list_elem_of_lookup. split; intros [k Hk].
  - exists (sigma k). now rewrite <- Hlook.
  - exists (sigma k). now rewrite Hlook, Hinv.
Qed.

End HistoryMove.

Section HistoryMoveMain.

Lemma lookup_map {A B} (f : A -> B) (l : list A) (k : nat) :
  List.map f l !! k = option_map f (l !! k).
Proof.
  revert k. induction l as [|x l IH]; intros [|k]; simpl; try reflexivity. apply IH.
Qed.

Lemma Sorted_map_keys {A B} (R : relation B) (f : A -> B) (l : list A) :
  Sorted (fun a b => R (f a) (f b)) l -> Sorted R (List.map f l).
Proof.
  induction 1 as [|a l Hl IH Ha]; simpl; constructor; [exact IH|].
  destruct Ha; simpl; now constructor.
Qed.

Lemma history_ids_NoDup (s : store) :
  List.NoDup (List.map id (rows s)) -> List.NoDup (history_ids s).
Proof.
  intros H. unfold history_ids.
  apply (Permutation_NoDup
           (l := List.map id (List.filter (fun r => negb (is_pinned r)) (rows s)))).
  - symmetry. apply Permutation_map, order_by_updated_desc_perm.
  - now apply NoDup_map_filter.
Qed.

(** The history after its timestamps have been rewritten along [ids], a
    rearrangement of the history ids: the clips come in the order of
    [ids]. *)
Lemma history_after_rewrite (stamp : nat -> string) (ids : list Z) (s : store) :
  List.NoDup (List.map id (rows s)) ->
  (forall i j : nat, (i < j < length ids)%nat -> String.ltb (stamp j) (stamp i) = true) ->
  List.NoDup ids -> Permutation ids (history_ids s) ->
  List.map id (order_by_updated_desc
                 (List.filter (fun r => negb (is_pinned r))
                    (rewrite_times stamp 0 ids (rows s)))) = ids /\
  List.filter is_pinned (rewrite_times stamp 0 ids (rows s)) = List.filter is_pinned (rows s).
Proof.
  intros Hnd Hstamp Hids Hperm. rewrite (rewrite_times_map stamp ids Hids).
  set (g := fun r : row => match index_of (id r) ids with
                           | Some k => set_updated_at (stamp (0 + k)%nat) r
                           | None => r
                           end).
  set (U := List.filter (fun r => negb (is_pinned r)) (rows s)).
  assert (Hg_pinned : forall r, is_pinned (g r) = is_pinned r).
  { intros r. unfold g. now destruct (index_of (id r) ids). }
  assert (Hg_id : forall r, id (g r) = id r).
  { intros r. unfold g. now destruct (index_of (id r) ids). }
  assert (HidsU : Permutation (List.map id U) ids).
  { rewrite Hperm. unfold history_ids. fold U.
    symmetry. apply Permutation_map, order_by_updated_desc_perm. }
  assert (Hpos : forall r, In r U ->
            exists k, index_of (id r) ids = Some k /\ g r = set_updated_at (stamp k) r).
  { intros r Hr. destruct (index_of_In ids (id r)) as (k & Hk).
    - apply (Permutation_in _ HidsU). now apply List.in_map.
    - exists k. split; [exact Hk|]. unfold g. now rewrite Hk. }
  split.
  - rewrite filter_map_comm.
    rewrite (List.filter_ext (fun x => negb (is_pinned (g x))) (fun r => negb (is_pinned r)))
      by (intros r; now rewrite Hg_pinned).
    fold U. set (L := order_by_updated_desc (List.map g U)).
    assert (HL : Permutation L (List.map g U)) by apply order_by_updated_desc_perm.
    assert (Hkeys : List.map updated_at L = List.map stamp (seq 0 (length ids))).
    { apply (Sorted_unique str_ge).
      - apply Sorted_map_keys, Sorted_order_by_updated_desc.
      - now apply Sorted_stamps.
      - rewrite HL, <- (positions_seq ids Hids), List.map_map, <- HidsU, !List.map_map.
        apply Permutation_refl'. apply List.map_ext_in. intros r Hr.
        destruct (Hpos r Hr) as (k & Hk & ->). now rewrite Hk. }
    assert (Hlen : length L = length ids).
    { apply (f_equal (@length _)) in Hkeys.
      now rewrite !List.length_map, List.length_seq in Hkeys. }
    apply list_eq. intros k. rewrite lookup_map.
    destruct (L !! k) as [x|] eqn:Hx; cbn [option_map].
    + assert (Hk : (k < length ids)%nat) by (rewrite <- Hlen; now apply lookup_lt_Some in Hx).
      assert (Hux : updated_at x = stamp k).
      { apply (f_equal (fun m => m !! k)) in Hkeys.
        rewrite !lookup_map, Hx, lookup_seq_lt in Hkeys by exact Hk.
        cbn [option_map] in Hkeys. now injection Hkeys. }
      assert (Hin : In x (List.map g U)).
      { apply (Permutation_in _ HL). apply list_elem_of_In. eapply list_elem_of_lookup_2; eauto. }
      apply List.in_map_iff in Hin as (r & <- & Hr).
      destruct (Hpos r Hr) as (k' & Hk' & Eg). rewrite Eg in Hux |- *.
      cbn [updated_at set_updated_at id] in *.
      assert (Hk'' : (k' < length ids)%nat)
        by (apply index_of_lookup, lookup_lt_Some in Hk'; exact Hk').
      apply (stamp_injective stamp _ _ _ Hstamp Hk'' Hk) in Hux. subst k'.
      symmetry. now apply index_of_lookup.
    + symmetry. apply lookup_ge_None. rewrite <- Hlen. now apply lookup_ge_None.
  - rewrite filter_map_comm.
    rewrite (List.filter_ext (fun x => is_pinned (g x)) is_pinned) by exact Hg_pinned.
    rewrite <- (List.map_id (List.filter is_pinned (rows s))) at 2.
    apply List.map_ext_in. intros r Hr. apply List.filter_In in Hr as [Hr Hp].
    unfold g. rewrite index_of_not_In; [reflexivity|].
    intros Hin. apply (Permutation_in _ (Permutation_sym HidsU)) in Hin.
    apply List.in_map_iff in Hin as (r' & E & Hr'). unfold U in Hr'.
    apply List.filter_In in Hr' as [Hr' Hp'].
    rewrite (id_determines_row (rows s) r' r Hnd Hr' Hr E) in Hp'.
    rewrite Hp in Hp'. discriminate.
Qed.

End HistoryMoveMain.

(** X22. In the history, [move_clip] makes the clip trade places with the
    clip [direction] positions away: for a table that satisfies the key
    constraint and timestamps that decrease from one position of the
    history to the next (the code subtracts a millisecond per position),
    when the clip is at position [idx] of the history and
    [idx + direction] is a position of the history, the order of the
    history afterwards is the order before with the two clips exchanged,
    and the pinned clips are untouched. *)
Theorem move_clip_history_swap (stamp : nat -> string) (clip_id direction : Z)
    (s : store) (idx : nat) :
  wf_store s ->
  (forall i j : nat, (i < j < length (history_ids s))%nat ->
                     String.ltb (stamp j) (stamp i) = true) ->
  index_of clip_id (history_ids s) = Some idx ->
  0 <= Z.of_nat idx + direction < Z.of_nat (length (history_ids s)) ->
  history_ids (snd (move_clip stamp clip_id direction false s))
  = <[Z.to_nat (Z.of_nat idx + direction) := clip_id]>
      (<[idx := nth (Z.to_nat (Z.of_nat idx + direction)) (history_ids s) 0]>
         (history_ids s)) /\
  List.filter is_pinned (rows (snd (move_clip stamp clip_id direction false s)))
  = List.filter is_pinned (rows s).
Proof.
  intros (Hnd & _ & _) Hstamp Hidx Hrange.
  unfold move_clip. fold (history_ids s). rewrite Hidx.
  replace ((0 <=? Z.of_nat idx + direction)
           && (Z.of_nat idx + direction <? Z.of_nat (length (history_ids s))))
    with true by (symmetry; apply andb_true_iff; split; lia).
  cbn [snd]. unfold history_ids at 1. cbn [rows _mark_dirty with_rows].
  set (l := history_ids s) in *.
  set (j := Z.to_nat (Z.of_nat idx + direction)).
  assert (Ha : l !! idx = Some clip_id) by (now apply index_of_lookup).
  assert (Hj : (j < length l)%nat) by (unfold j; lia).
  destruct (lookup_lt_is_Some_2 l j Hj) as (b & Hb).
  rewrite !nth_lookup, Ha, Hb. cbn [default].
  destruct (swap_Permutation l idx j clip_id b (history_ids_NoDup s Hnd) Ha Hb)
    as [HndS HpermS].
  apply (history_after_rewrite stamp _ s Hnd); [|exact HndS|exact HpermS].
  now rewrite !length_insert.
Qed.

Lemma move_clip_history_swap_witness :
  let s := Store [Row 1 "text" "a" "0cc175b9c0f1b6a831c399e269772661" (Some EmptyString)
                      EmptyString false 0 "2024-05-01T10:00:00" "2024-05-01T10:00:20";
                  Row 2 "text" "b" "92eb5ffee6ae2fec3ad71c777531578f" (Some EmptyString)
                      EmptyString false 0 "2024-05-01T10:00:10" "2024-05-01T10:00:30"]
                 2 false false 0 in
  let stamp := fun i : nat => match i with
                              | O => "2024-05-01T10:05:00.002000"
                              | _ => "2024-05-01T10:05:00.001000"
                              end in
  wf_store s /\
  history_ids s = [2; 1] /\
  history_ids (snd (move_clip stamp 1 (-1) false s)) = [1; 2].
Proof.
  cbv zeta.
  assert (Hwf : wf_store
                  (Store [Row 1 "text" "a" "0cc175b9c0f1b6a831c399e269772661"
                            (Some EmptyString) EmptyString false 0
                            "2024-05-01T10:00:00" "2024-05-01T10:00:20";
                          Row 2 "text" "b" "92eb5ffee6ae2fec3ad71c777531578f"
                            (Some EmptyString) EmptyString false 0
                            "2024-05-01T10:00:10" "2024-05-01T10:00:30"]
                     2 false false 0)).
  { repeat split.
    - cbn. repeat constructor; cbn; intuition discriminate.
    - cbn. repeat constructor; cbn; intuition discriminate.
    - repeat constructor; cbn; lia. }
  split; [exact Hwf|]. split; [reflexivity|].
  refine (proj1 (move_clip_history_swap _ 1 (-1) _ 1 Hwf _ _ _)).
  - intros i j Hij. assert (Hij' : (i < j < 2)%nat) by exact Hij. clear Hij.
    destruct i as [|i]; [|lia]. destruct j as [|[|j]]; [lia| |lia]. reflexivity.
  - reflexivity.
  - change (0 <= 0 < 2). lia.
Defined.
